(** * BOS deserializer and validator (src/bos_deserializer.c)

    A shallow embedding of the decode walk ([bos_deserialize]) and of the
    structural validator ([bos_validate]) of bos-jansson, with the properties
    its specification states about them.

    Conventions of the embedding.
    - The caller's memory region is a [list byte]; a pointer into it is the
      offset from its first byte.  A [memcpy] that leaves the region, and a
      write outside the block that [jsonp_malloc] returned, is the outcome
      [Fault] (undefined behaviour in C).
    - [uint32_t], [unsigned int] are 32 bits, [size_t] and [uint64_t] are 64
      bits (LP64), the host is little-endian.  Integers are [Z] with the
      wrap-around written out ([to_uint32], [to_uint64]).
    - The walks are recursive in C; here they recurse on a [nat] of fuel and the
      third outcome [OutOfFuel] is the embedding running out of it.  The entry
      points start from more fuel than the region has bytes, and
      [validate_value_total] shows that it is never exhausted. *)

From Stdlib Require Import ZArith List Bool Lia.
From Stdlib Require String.
From Stdlib Require Import Init.Byte Strings.Byte.
Import ListNotations.

Open Scope Z_scope.

#[local] Set Warnings "-register-all".

Import String.StringSyntax.
Delimit Scope string_scope with string.

(** ** Machine integers *)

Definition to_uint32 (z : Z) : Z := z mod 2 ^ 32.
Definition to_uint64 (z : Z) : Z := z mod 2 ^ 64.

(** Reinterpreting the low [w] bits of [z] as a two's complement number. *)
Definition to_signed (w : Z) (z : Z) : Z :=
  let u := z mod 2 ^ w in
  if u <? 2 ^ (w - 1) then u else u - 2 ^ w.

Definition byte_val (b : byte) : Z := Z.of_N (Byte.to_N b).

(** The value of an unsigned integer object whose bytes, lowest address
    first, are [bs] (little-endian host). *)
Fixpoint le_value (bs : list byte) : Z :=
  match bs with
  | [] => 0
  | b :: bs' => byte_val b + 256 * le_value bs'
  end.

(** ** Outcomes *)

(** What a call does: it returns, it accesses memory outside the region
    ([Fault]), or the embedding runs out of fuel. *)
Inductive outcome (A : Type) : Type :=
| Ret (a : A)
| Fault
| OutOfFuel.

Arguments Ret {A} a.
Arguments Fault {A}.
Arguments OutOfFuel {A}.

Definition bind {A B : Type} (m : outcome A) (k : A -> outcome B) : outcome B :=
  match m with
  | Ret a => k a
  | Fault => Fault
  | OutOfFuel => OutOfFuel
  end.

Notation "' p <- m ;; k" := (bind m (fun p => k))
  (at level 61, p pattern, m at next level, right associativity).

Definition TRUE : bool := true.
Definition FALSE : bool := false.

(** ** buffer *)

Record buffer_t : Type := mk_buffer {
  data : list byte;   (* the region [data] points to *)
  pos : Z;            (* [pos - data] *)
  read : Z;           (* uint32_t *)
  size : Z            (* uint32_t *)
}.

(** [memcpy(destination, base + at, n)]: the [n] bytes copied, when they
    all lie in the region. *)
Definition mem_read (region : list byte) (at_ n : Z) : option (list byte) :=
  if (0 <=? at_) && (0 <=? n) && (at_ + n <=? Z.of_nat (length region))
  then Some (firstn (Z.to_nat n) (skipn (Z.to_nat at_) region))
  else None.

Definition read_buffer (buffer : buffer_t) (sz : Z) : outcome (list byte * buffer_t) :=
  match mem_read (data buffer) (pos buffer) sz with
  | Some bytes =>
      Ret (bytes,
           {| data := data buffer;
              pos := pos buffer + to_uint32 sz;
              read := to_uint32 (read buffer + to_uint32 sz);
              size := size buffer |})
  | None => Fault
  end.

Definition buffer_init (region : list byte) : outcome buffer_t :=
  let buffer := {| data := region; pos := 0; read := 0; size := 0 |} in
  '(bytes, buffer) <- read_buffer buffer 4 ;;
  Ret {| data := data buffer; pos := pos buffer; read := read buffer;
         size := le_value bytes |}.

(** ** The value model

    The value tree and its factory and mutation operations belong to the
    jansson library, which is not part of src/.  The spec gives the variants,
    append and set-key (last write wins), and an allocation-failure signal. *)

(** Modelled from the spec: a Real value.  The floating point number is kept
    as the bit pattern read from the wire together with its width. *)
Inductive real : Type :=
| RealOfFloat (bits : Z)
| RealOfDouble (bits : Z).

(** Modelled from the spec: the value tree of the value-model library
    ([json_t]), a tagged union of Null, Bool, Integer, Real, String, Bytes,
    Array and Object. *)
Inductive json : Type :=
| JNull
| JTrue
| JFalse
| JInteger (value : Z)
| JReal (value : real)
| JString (value : list byte)
| JBytes (value : list byte)
| JArray (items : list json)
| JObject (members : list (list byte * json)).

(** Modelled from the spec: the allocation-failure signal.  The heap is the
    list of outcomes of the allocations still to come; once it is used up
    every allocation succeeds. *)
Definition heap_t : Type := list bool.

(** The outcome of the next allocation and the heap after it. *)
Definition alloc (heap : heap_t) : bool * heap_t :=
  match heap with
  | [] => (true, [])
  | ok :: heap' => (ok, heap')
  end.

(** Modelled from the spec: the error object carries a code and a message;
    the enumeration of codes is declared in jansson.h, and
    [json_error_invalid_format] is the one the deserializer sets. *)
Inductive json_error_code : Type :=
| json_error_unknown
| json_error_invalid_format.

(** What the deserializer works on: the buffer, the allocator and the
    caller's error object. *)
Record dstate : Type := mk_dstate {
  buf : buffer_t;
  heap : heap_t;
  error : option (json_error_code * String.string)
}.

Definition M (A : Type) : Type := dstate -> outcome (A * dstate).

Definition ret {A : Type} (a : A) : M A := fun s => Ret (a, s).

Definition mbind {A B : Type} (m : M A) (k : A -> M B) : M B :=
  fun s => match m s with
           | Ret (a, s') => k a s'
           | Fault => Fault
           | OutOfFuel => OutOfFuel
           end.

Notation "x <~ m ;; k" := (mbind m (fun x => k))
  (at level 61, m at next level, right associativity).

(** A pointer to a value, or NULL. *)
Definition json_ptr : Type := option json.

(** Modelled from the spec: a factory that allocates returns NULL when the
    allocation fails. *)
Definition json_new (v : json) : M json_ptr :=
  fun s =>
    let '(ok, heap') := alloc (heap s) in
    Ret (if ok then Some v else None,
         {| buf := buf s; heap := heap'; error := error s |}).

(** Modelled from the spec: null and the booleans are shared constants. *)
Definition json_null : M json_ptr := ret (Some JNull).
Definition json_true : M json_ptr := ret (Some JTrue).
Definition json_false : M json_ptr := ret (Some JFalse).

(** Modelled from the spec: the factories of numbers, byte blobs and empty
    containers allocate. *)
Definition json_integer (value : Z) : M json_ptr := json_new (JInteger value).
Definition json_real (value : real) : M json_ptr := json_new (JReal value).
Definition json_bytes (bytes : list byte) (len : Z) : M json_ptr :=
  json_new (JBytes (firstn (Z.to_nat len) bytes)).
Definition json_array : M json_ptr := json_new (JArray []).
Definition json_object : M json_ptr := json_new (JObject []).

(** What a [const char *] denotes: the bytes before the first NUL. *)
Fixpoint c_string (bytes : list byte) : list byte :=
  match bytes with
  | [] => []
  | b :: bytes' => if Byte.eqb b x00 then [] else b :: c_string bytes'
  end.

(** A continuation byte, 80 to BF. *)
Definition utf8_continuation (b : byte) : bool :=
  (128 <=? byte_val b) && (byte_val b <=? 191).

(** The second byte of a sequence that starts with [lead] and is neither an
    overlong form, nor a surrogate, nor above U+10FFFF. *)
Definition utf8_second (lead : Z) (b : byte) : bool :=
  if lead =? 224 then (160 <=? byte_val b) && (byte_val b <=? 191)
  else if lead =? 237 then (128 <=? byte_val b) && (byte_val b <=? 159)
  else if lead =? 240 then (144 <=? byte_val b) && (byte_val b <=? 191)
  else if lead =? 244 then (128 <=? byte_val b) && (byte_val b <=? 143)
  else utf8_continuation b.

(** Modelled from the spec: UTF-8 well-formedness of a string, the check the
    spec leaves to the value-model collaborator: sequences of one to four
    bytes, shortest form only, no surrogates, nothing above U+10FFFF. *)
Fixpoint utf8_check (bytes : list byte) : bool :=
  match bytes with
  | [] => true
  | b0 :: r0 =>
      let lead := byte_val b0 in
      if lead <? 128 then utf8_check r0
      else if (194 <=? lead) && (lead <=? 223) then
        match r0 with
        | b1 :: r1 => utf8_continuation b1 && utf8_check r1
        | _ => false
        end
      else if (224 <=? lead) && (lead <=? 239) then
        match r0 with
        | b1 :: b2 :: r2 =>
            utf8_second lead b1 && utf8_continuation b2 && utf8_check r2
        | _ => false
        end
      else if (240 <=? lead) && (lead <=? 244) then
        match r0 with
        | b1 :: b2 :: b3 :: r3 =>
            utf8_second lead b1 && utf8_continuation b2 && utf8_continuation b3
            && utf8_check r3
        | _ => false
        end
      else false
  end.

(** Modelled from the spec: the string factory takes a [const char *]; a
    String is UTF-8, so the factory returns NULL for bytes that are not, and
    otherwise allocates. *)
Definition json_string (value : list byte) : M json_ptr :=
  if utf8_check (c_string value) then json_new (JString (c_string value))
  else ret None.

(** Modelled from the spec: append keeps the encoded order. *)
Definition json_array_append (array : json_ptr) (entry : json) : json_ptr :=
  match array with
  | Some (JArray items) => Some (JArray (items ++ [entry]))
  | other => other
  end.

Definition bytes_eqb (a b : list byte) : bool :=
  if list_eq_dec Byte.byte_eq_dec a b then true else false.

(** Modelled from the spec: keys are unique and the last write wins. *)
Fixpoint members_set (key : list byte) (value : json)
    (members : list (list byte * json)) : list (list byte * json) :=
  match members with
  | [] => [(key, value)]
  | (k, v) :: rest =>
      if bytes_eqb k key then (k, value) :: rest
      else (k, v) :: members_set key value rest
  end.

(** Modelled from the spec: set-key on an object, the key a [const char *];
    a key is a String, so a key that is not UTF-8 is refused and the object
    left as it is; on NULL it does nothing. *)
Definition json_object_set (object : json_ptr) (key : list byte) (value : json) : json_ptr :=
  match object with
  | Some (JObject members) =>
      if utf8_check (c_string key)
      then Some (JObject (members_set (c_string key) value members))
      else object
  | other => other
  end.

(** Modelled from the spec: the value bound to a key. *)
Fixpoint members_get (key : list byte) (members : list (list byte * json)) : option json :=
  match members with
  | [] => None
  | (k, v) :: rest => if bytes_eqb k key then Some v else members_get key rest
  end.

(** Modelled from the spec: [jsonp_malloc] of the value-model library gives
    a block, or NULL by the allocation-failure signal. *)
Definition jsonp_malloc : M bool :=
  fun s =>
    let '(ok, heap') := alloc (heap s) in
    Ret (ok, {| buf := buf s; heap := heap'; error := error s |}).

(** [error_set(error, code, msg)] leaves the code and the message in the
    error object. *)
Definition error_set (code : json_error_code) (msg : String.string) : M unit :=
  fun s => Ret (tt, {| buf := buf s; heap := heap s; error := Some (code, msg) |}).

(** ** Type tags *)

(** Modelled from the spec: the enumeration [bos_data_type] is declared in
    bosjansson.h, which is not part of src/; the spec fixes its sixteen
    values, 0 to 15, in this order. *)
Inductive bos_data_type : Type :=
| BOS_NULL | BOS_BOOL
| BOS_INT8 | BOS_INT16 | BOS_INT32 | BOS_INT64
| BOS_UINT8 | BOS_UINT16 | BOS_UINT32 | BOS_UINT64
| BOS_FLOAT | BOS_DOUBLE
| BOS_STRING | BOS_BYTES | BOS_ARRAY | BOS_OBJ.

(** Modelled from the spec: the value of each enumerator. *)
Definition tag_of (t : bos_data_type) : Z :=
  match t with
  | BOS_NULL => 0 | BOS_BOOL => 1
  | BOS_INT8 => 2 | BOS_INT16 => 3 | BOS_INT32 => 4 | BOS_INT64 => 5
  | BOS_UINT8 => 6 | BOS_UINT16 => 7 | BOS_UINT32 => 8 | BOS_UINT64 => 9
  | BOS_FLOAT => 10 | BOS_DOUBLE => 11
  | BOS_STRING => 12 | BOS_BYTES => 13 | BOS_ARRAY => 14 | BOS_OBJ => 15
  end.

(** The enumerator a [switch] over the sixteen [case] labels selects; [None]
    is its [default]. *)
Definition enumerator (v : Z) : option bos_data_type :=
  match v with
  | 0 => Some BOS_NULL | 1 => Some BOS_BOOL
  | 2 => Some BOS_INT8 | 3 => Some BOS_INT16 | 4 => Some BOS_INT32 | 5 => Some BOS_INT64
  | 6 => Some BOS_UINT8 | 7 => Some BOS_UINT16 | 8 => Some BOS_UINT32 | 9 => Some BOS_UINT64
  | 10 => Some BOS_FLOAT | 11 => Some BOS_DOUBLE
  | 12 => Some BOS_STRING | 13 => Some BOS_BYTES | 14 => Some BOS_ARRAY | 15 => Some BOS_OBJ
  | _ => None
  end.

(** ** deserializer *)

Definition on_buffer {A : Type} (f : buffer_t -> outcome (A * buffer_t)) : M A :=
  fun s =>
    match f (buf s) with
    | Ret (a, buffer) => Ret (a, {| buf := buffer; heap := heap s; error := error s |})
    | Fault => Fault
    | OutOfFuel => OutOfFuel
    end.

(** [read_buffer(buffer, &number, sizeof number)] for an unsigned [number]. *)
Definition read_number (width : Z) : M Z :=
  bytes <~ on_buffer (fun buffer => read_buffer buffer width) ;;
  ret (le_value bytes).

Definition read_bool : M json_ptr :=
  number <~ read_number 1 ;;
  if number =? 0 then json_false else json_true.

Definition read_int8 : M json_ptr :=
  number <~ read_number 1 ;; json_integer (to_signed 8 number).

Definition read_int16 : M json_ptr :=
  number <~ read_number 2 ;; json_integer (to_signed 16 number).

Definition read_int32 : M json_ptr :=
  number <~ read_number 4 ;; json_integer (to_signed 32 number).

Definition read_int64 : M json_ptr :=
  number <~ read_number 8 ;; json_integer (to_signed 64 number).

Definition read_uint8 : M json_ptr :=
  number <~ read_number 1 ;; json_integer number.

Definition read_uint16 : M json_ptr :=
  number <~ read_number 2 ;; json_integer number.

Definition read_uint32 : M json_ptr :=
  number <~ read_number 4 ;; json_integer number.

(** The eight bytes are copied into an [int64_t]. *)
Definition read_uint64 : M json_ptr :=
  number <~ read_number 8 ;; json_integer (to_signed 64 number).

Definition read_uvarint : M Z :=
  type_flag <~ read_number 1 ;;
  if type_flag =? 255 then
    le64 <~ read_number 8 ;; ret (to_uint64 le64)
  else if type_flag =? 254 then
    le32 <~ read_number 4 ;; ret (to_uint64 le32)
  else if type_flag =? 253 then
    le16 <~ read_number 2 ;; ret (to_uint64 le16)
  else
    ret (to_uint64 type_flag).

Definition read_real32 : M json_ptr :=
  number <~ read_number 4 ;; json_real (RealOfFloat number).

Definition read_real64 : M json_ptr :=
  number <~ read_number 8 ;; json_real (RealOfDouble number).

(** Whether the [n] bytes at [offset] of a block of [extent] bytes lie inside
    the block. *)
Definition in_block (extent offset n : Z) : bool :=
  (0 <=? offset) && (offset + n <=? extent).

(** The C string [read_raw_string] returns a pointer to: the payload followed
    by its terminator, or the literal [""].  The block requested has
    [sizeof(char) * len] bytes; the payload is copied to its start (through
    NULL when [jsonp_malloc] failed) and the terminator is written at
    [utf8String + len].  A write outside the block is the outcome [Fault]. *)
Definition read_raw_string : M (list byte) :=
  len <~ read_uvarint ;;
  if 0 <? len then
    utf8String <~ jsonp_malloc ;;
    if utf8String : bool then
      bytes <~ on_buffer (fun buffer => read_buffer buffer (1 * len)) ;;
      if in_block (1 * len) len 1 then ret (bytes ++ [x00])
      else fun _ => Fault
    else fun _ => Fault
  else
    ret [x00].

Definition read_string : M json_ptr :=
  raw <~ read_raw_string ;; json_string raw.

Definition read_bytes : M json_ptr :=
  len <~ read_uvarint ;;
  block <~ jsonp_malloc ;;
  if (block : bool) || (len =? 0) then
    bytes <~ on_buffer (fun buffer => read_buffer buffer len) ;;
    json_bytes bytes len
  else fun _ => Fault.

(** The body of the [for] loop of [read_array]; [i] is an [unsigned int]
    compared with the [size_t] [len]. *)
Fixpoint read_array_loop (read_value : M json_ptr) (fuel : nat)
    (i len : Z) (array : json_ptr) : M json_ptr :=
  fun s =>
    if i <? len then
      match fuel with
      | O => OutOfFuel
      | S fuel' =>
          match read_value s with
          | Ret (None, s') => Ret (None, s')
          | Ret (Some entry, s') =>
              read_array_loop read_value fuel' (to_uint32 (i + 1)) len
                (json_array_append array entry) s'
          | Fault => Fault
          | OutOfFuel => OutOfFuel
          end
      end
    else Ret (array, s).

Definition read_array (read_value : M json_ptr) (fuel : nat) : M json_ptr :=
  len <~ read_uvarint ;;
  array <~ json_array ;;
  read_array_loop read_value fuel 0 len array.

Fixpoint read_obj_loop (read_value : M json_ptr) (fuel : nat)
    (i len : Z) (object : json_ptr) : M json_ptr :=
  fun s =>
    if i <? len then
      match fuel with
      | O => OutOfFuel
      | S fuel' =>
          match read_raw_string s with
          | Ret (key, s1) =>
              match read_value s1 with
              | Ret (None, s') => Ret (None, s')
              | Ret (Some entry, s') =>
                  read_obj_loop read_value fuel' (to_uint32 (i + 1)) len
                    (json_object_set object key entry) s'
              | Fault => Fault
              | OutOfFuel => OutOfFuel
              end
          | Fault => Fault
          | OutOfFuel => OutOfFuel
          end
      end
    else Ret (object, s).

Definition read_obj (read_value : M json_ptr) (fuel : nat) : M json_ptr :=
  len <~ read_uvarint ;;
  object <~ json_object ;;
  read_obj_loop read_value fuel 0 len object.

(** The value of the enumeration returned, as an integer. *)
Definition read_data_type : M Z :=
  type <~ read_number 1 ;;
  if 15 <? type then ret (tag_of BOS_NULL) else ret type.

Definition read_data (read_value : M json_ptr) (fuel : nat) (data_type : Z) : M json_ptr :=
  match enumerator data_type with
  | Some BOS_NULL => json_null
  | Some BOS_BOOL => read_bool
  | Some BOS_INT8 => read_int8
  | Some BOS_INT16 => read_int16
  | Some BOS_INT32 => read_int32
  | Some BOS_INT64 => read_int64
  | Some BOS_UINT8 => read_uint8
  | Some BOS_UINT16 => read_uint16
  | Some BOS_UINT32 => read_uint32
  | Some BOS_UINT64 => read_uint64
  | Some BOS_FLOAT => read_real32
  | Some BOS_DOUBLE => read_real64
  | Some BOS_STRING => read_string
  | Some BOS_BYTES => read_bytes
  | Some BOS_ARRAY => read_array read_value fuel
  | Some BOS_OBJ => read_obj read_value fuel
  | None =>
      _ <~ error_set json_error_invalid_format "invalid data_type"%string ;;
      ret None
  end.

Fixpoint read_value (fuel : nat) : M json_ptr :=
  match fuel with
  | O => fun _ => OutOfFuel
  | S fuel' =>
      data_type <~ read_data_type ;;
      read_data (read_value fuel') fuel' data_type
  end.

(** [bos_deserialize(data, error)]: the pointer returned and the error object
    left behind.  [heap] scripts the allocator. *)
Definition bos_deserialize (region : list byte) (heap : heap_t)
  : outcome (json_ptr * option (json_error_code * String.string)) :=
  '(buffer) <- buffer_init region ;;
  let s := {| buf := buffer; heap := heap; error := None |} in
  if size buffer <? 5 then
    '(_, s) <- error_set json_error_invalid_format "size too small to be valid"%string s ;;
    Ret (None, error s)
  else
    '(value, s) <- read_value (S (length region)) s ;;
    Ret (value, error s).

(** ** validation *)

Definition validate_read (buffer : buffer_t) (amount : Z) : bool * buffer_t :=
  let amount := to_uint32 amount in
  if to_uint32 (read buffer + amount) <=? size buffer then
    (TRUE, {| data := data buffer;
              pos := pos buffer + amount;
              read := to_uint32 (read buffer + amount);
              size := size buffer |})
  else (FALSE, buffer).

Definition validate_read_only (buffer : buffer_t) (amount : Z) : bool :=
  let amount := to_uint32 amount in
  if to_uint32 (read buffer + amount) <=? size buffer then TRUE else FALSE.

(** [Some v] is TRUE with [*result = v]; [None] is FALSE. *)
Definition validate_uvarint (buffer : buffer_t) : outcome (option Z * buffer_t) :=
  if negb (validate_read_only buffer 1) then Ret (None, buffer) else
  '(bytes, buffer) <- read_buffer buffer 1 ;;
  let type_flag := le_value bytes in
  if type_flag =? 255 then
    if negb (validate_read_only buffer 8) then Ret (None, buffer) else
    '(bytes, buffer) <- read_buffer buffer 8 ;;
    Ret (Some (le_value bytes), buffer)
  else if type_flag =? 254 then
    if negb (validate_read_only buffer 4) then Ret (None, buffer) else
    '(bytes, buffer) <- read_buffer buffer 4 ;;
    Ret (Some (le_value bytes), buffer)
  else if type_flag =? 253 then
    if negb (validate_read_only buffer 2) then Ret (None, buffer) else
    '(bytes, buffer) <- read_buffer buffer 2 ;;
    Ret (Some (le_value bytes), buffer)
  else
    Ret (Some type_flag, buffer).

Definition validate_string (buffer : buffer_t) : outcome (bool * buffer_t) :=
  '(len, buffer) <- validate_uvarint buffer ;;
  match len with
  | None => Ret (FALSE, buffer)
  | Some len =>
      if 0 <? len then Ret (validate_read buffer (to_uint64 (1 * len)))
      else Ret (TRUE, buffer)
  end.

Definition validate_bytes (buffer : buffer_t) : outcome (bool * buffer_t) :=
  '(len, buffer) <- validate_uvarint buffer ;;
  match len with
  | None => Ret (FALSE, buffer)
  | Some len =>
      if 0 <? len then Ret (validate_read buffer (to_uint64 (1 * len)))
      else Ret (TRUE, buffer)
  end.

Definition validator : Type := buffer_t -> outcome (bool * buffer_t).

Fixpoint validate_array_loop (validate_value : validator) (fuel : nat)
    (i len : Z) (buffer : buffer_t) : outcome (bool * buffer_t) :=
  if i <? len then
    match fuel with
    | O => OutOfFuel
    | S fuel' =>
        '(ok, buffer) <- validate_value buffer ;;
        if negb ok then Ret (FALSE, buffer)
        else validate_array_loop validate_value fuel' (to_uint64 (i + 1)) len buffer
    end
  else Ret (TRUE, buffer).

Definition validate_array (validate_value : validator) (fuel : nat)
    (buffer : buffer_t) : outcome (bool * buffer_t) :=
  '(len, buffer) <- validate_uvarint buffer ;;
  match len with
  | None => Ret (FALSE, buffer)
  | Some len => validate_array_loop validate_value fuel 0 len buffer
  end.

Fixpoint validate_obj_loop (validate_value : validator) (fuel : nat)
    (i len : Z) (buffer : buffer_t) : outcome (bool * buffer_t) :=
  if i <? len then
    match fuel with
    | O => OutOfFuel
    | S fuel' =>
        '(ok, buffer) <- validate_string buffer ;;
        if negb ok then Ret (FALSE, buffer) else
        '(ok, buffer) <- validate_value buffer ;;
        if negb ok then Ret (FALSE, buffer)
        else validate_obj_loop validate_value fuel' (to_uint64 (i + 1)) len buffer
    end
  else Ret (TRUE, buffer).

Definition validate_obj (validate_value : validator) (fuel : nat)
    (buffer : buffer_t) : outcome (bool * buffer_t) :=
  '(len, buffer) <- validate_uvarint buffer ;;
  match len with
  | None => Ret (FALSE, buffer)
  | Some len => validate_obj_loop validate_value fuel 0 len buffer
  end.

Fixpoint validate_value (fuel : nat) (buffer : buffer_t) : outcome (bool * buffer_t) :=
  match fuel with
  | O => OutOfFuel
  | S fuel' =>
      if negb (validate_read_only buffer 1) then Ret (FALSE, buffer) else
      '(bytes, buffer) <- read_buffer buffer 1 ;;
      let data_type := le_value bytes in
      match enumerator data_type with
      | Some BOS_NULL => Ret (TRUE, buffer)
      | Some BOS_BOOL => Ret (validate_read buffer 1)
      | Some BOS_INT8 => Ret (validate_read buffer 1)
      | Some BOS_INT16 => Ret (validate_read buffer 2)
      | Some BOS_INT32 => Ret (validate_read buffer 4)
      | Some BOS_INT64 => Ret (validate_read buffer 8)
      | Some BOS_UINT8 => Ret (validate_read buffer 1)
      | Some BOS_UINT16 => Ret (validate_read buffer 2)
      | Some BOS_UINT32 => Ret (validate_read buffer 4)
      | Some BOS_UINT64 => Ret (validate_read buffer 8)
      | Some BOS_FLOAT => Ret (validate_read buffer 4)
      | Some BOS_DOUBLE => Ret (validate_read buffer 8)
      | Some BOS_STRING => validate_string buffer
      | Some BOS_BYTES => validate_bytes buffer
      | Some BOS_ARRAY => validate_array (validate_value fuel') fuel' buffer
      | Some BOS_OBJ => validate_obj (validate_value fuel') fuel' buffer
      | None => Ret (FALSE, buffer)
      end
  end.

(** [bos_validate(data, size)] with the walk given [fuel]; [None] is a NULL
    [data]. *)
Definition bos_validate_fuel (fuel : nat) (data : option (list byte)) (size : Z)
  : outcome bool :=
  match data with
  | None => Ret FALSE
  | Some region =>
      if size <? 5 then Ret FALSE else
      match mem_read region 0 4 with
      | None => Fault
      | Some bytes =>
          let data_size := le_value bytes in
          if (data_size <? 5) || (size <? data_size) then Ret FALSE else
          '(buffer) <- buffer_init region ;;
          '(ok, _) <- validate_value fuel buffer ;;
          Ret ok
      end
  end.

Definition region_length (data : option (list byte)) : nat :=
  match data with
  | None => O
  | Some region => length region
  end.

Definition bos_validate (data : option (list byte)) (size : Z) : outcome bool :=
  bos_validate_fuel (S (region_length data)) data size.

Definition bos_sizeof (data : option (list byte)) : outcome Z :=
  match data with
  | None => Ret 0
  | Some region =>
      match mem_read region 0 4 with
      | None => Fault
      | Some bytes => Ret (le_value bytes)
      end
  end.

(** * Vocabulary of the properties *)

(** ** Cursor movement *)

(** [n] bytes consumed: the pointer moves and the 32-bit counter wraps. *)
Definition advance (buffer : buffer_t) (n : Z) : buffer_t :=
  {| data := data buffer;
     pos := pos buffer + n;
     read := to_uint32 (read buffer + n);
     size := size buffer |}.

Definition advance_s (s : dstate) (n : Z) : dstate :=
  {| buf := advance (buf s) n; heap := heap s; error := error s |}.

(** The value and the number of bytes consumed when [read_uvarint] runs at
    the start of the region [bs]. *)
Definition decode_uvarint (bs : list byte) : outcome (Z * Z) :=
  let s := {| buf := {| data := bs; pos := 0; read := 0; size := 0 |};
              heap := []; error := None |} in
  '(v, s') <- read_uvarint s ;;
  Ret (v, pos (buf s')).

(** ** Invariant and progress of the validator *)

Definition cursor_inv (buffer : buffer_t) : Prop := read buffer <= size buffer.

(** A validator step keeps the invariant and the declared size. *)
Definition preserves (step : validator) : Prop :=
  forall buffer ok buffer',
    cursor_inv buffer -> step buffer = Ret (ok, buffer') ->
    cursor_inv buffer' /\ size buffer' = size buffer.

(** The bytes of the region from the cursor on. *)
Definition remaining (buffer : buffer_t) : nat :=
  Z.to_nat (Z.of_nat (length (data buffer)) - pos buffer).

(** A step never moves the cursor back. *)
Definition steady (step : validator) : Prop :=
  forall buffer ok buffer',
    step buffer = Ret (ok, buffer') ->
    data buffer' = data buffer /\ pos buffer <= pos buffer'.

(** Moreover an accepted step leaves fewer bytes ahead of the cursor. *)
Definition progress (step : validator) : Prop :=
  forall buffer ok buffer',
    step buffer = Ret (ok, buffer') ->
    data buffer' = data buffer /\ pos buffer <= pos buffer' /\
    (ok = TRUE -> (remaining buffer' < remaining buffer)%nat).

(** The measure the termination argument of the spec names: over every
    accepted walk of a value the budget [size - read] strictly decreases. *)
Definition budget_decreases : Prop :=
  forall (fuel : nat) (buffer buffer' : buffer_t),
    0 <= read buffer <= size buffer -> size buffer < 2 ^ 32 ->
    validate_value fuel buffer = Ret (TRUE, buffer') ->
    size buffer' - read buffer' < size buffer - read buffer.

(** More fuel does not change an answer. *)
Definition refines (step step' : validator) : Prop :=
  forall b, step b <> OutOfFuel -> step' b = step b.

(** ** Buffers that defeat the bounds check *)

(** A region whose first element wraps the 32-bit counter: an array of two
    elements, the first a string whose declared length is [2^32 - 12]. *)
Definition wrapping_region : list byte :=
  [x10; x00; x00; x00; x0e; x02; x0c; xfe; xf4; xff; xff; xff; x00; x00; x00; x00].

(** A string whose 8-byte varint declares [2^32] payload bytes in a 14-byte
    buffer, and one whose 4-byte varint declares [2^32 - 1] in a 10-byte
    buffer. *)
Definition oversized_string_64 : list byte :=
  [x0e; x00; x00; x00; x0c; xff; x00; x00; x00; x00; x01; x00; x00; x00].

Definition oversized_string_32 : list byte :=
  [x0a; x00; x00; x00; x0c; xfe; xff; xff; xff; xff].

(** An array holding an array holding one 8-bit integer. *)
Definition nested_array_region : list byte :=
  [x0a; x00; x00; x00; x0e; x01; x0e; x01; x02; x07].

(** ** Valid encoded buffers

    The encoder is not part of src/.  The wire grammar is that of the spec:
    a tag byte, then nothing (Null), a payload of the width of the tag, a
    varint length and that many bytes, or a varint count and that many values
    (array) or pairs of key and value (object); a varint takes the shortest
    of its four forms; the envelope is the total size as 4 little-endian
    bytes. *)

Definition byte_of (z : Z) : byte :=
  match Byte.of_N (Z.to_N z) with
  | Some b => b
  | None => x00
  end.

(** The [w] bytes of [n], lowest first. *)
Fixpoint le_bytes (w : nat) (n : Z) : list byte :=
  match w with
  | O => []
  | S w' => byte_of (n mod 256) :: le_bytes w' (n / 256)
  end.

(** Modelled from the spec: the varint encoder, which is not part of src/;
    one byte up to 252, then the 2, 4 and 8 byte forms, each from the first
    value the shorter form cannot hold. *)
Definition encode_uvarint (n : Z) : list byte :=
  if n <=? 252 then [byte_of n]
  else if n <=? 65535 then xfd :: le_bytes 2 n
  else if n <=? 4294967295 then xfe :: le_bytes 4 n
  else xff :: le_bytes 8 n.

(** Modelled from the spec: the payload width of the tags without a length
    or a count. *)
Definition fixed_width (t : bos_data_type) : option nat :=
  match t with
  | BOS_NULL => Some 0%nat
  | BOS_BOOL | BOS_INT8 | BOS_UINT8 => Some 1%nat
  | BOS_INT16 | BOS_UINT16 => Some 2%nat
  | BOS_INT32 | BOS_UINT32 | BOS_FLOAT => Some 4%nat
  | BOS_INT64 | BOS_UINT64 | BOS_DOUBLE => Some 8%nat
  | BOS_STRING | BOS_BYTES | BOS_ARRAY | BOS_OBJ => None
  end.

(** Modelled from the spec: an encoded value as the grammar of the wire
    format parses it. *)
Inductive wire : Type :=
| WFixed (t : bos_data_type) (payload : list byte)
| WString (payload : list byte)
| WBytes (payload : list byte)
| WArray (items : list wire)
| WObject (entries : list (list byte * wire)).

(** Every fixed-width payload has the width of its tag. *)
Fixpoint well_formed (w : wire) : bool :=
  match w with
  | WFixed t payload =>
      match fixed_width t with
      | Some width => Nat.eqb (length payload) width
      | None => false
      end
  | WString _ | WBytes _ => true
  | WArray items => forallb well_formed items
  | WObject entries => forallb (fun entry => well_formed (snd entry)) entries
  end.

Definition encode_key (key : list byte) : list byte :=
  encode_uvarint (Z.of_nat (length key)) ++ key.

(** Modelled from the spec: the encoder of values, which is not part of
    src/. *)
Fixpoint encode (w : wire) : list byte :=
  match w with
  | WFixed t payload => byte_of (tag_of t) :: payload
  | WString payload =>
      byte_of (tag_of BOS_STRING) :: encode_uvarint (Z.of_nat (length payload)) ++ payload
  | WBytes payload =>
      byte_of (tag_of BOS_BYTES) :: encode_uvarint (Z.of_nat (length payload)) ++ payload
  | WArray items =>
      byte_of (tag_of BOS_ARRAY) :: encode_uvarint (Z.of_nat (length items))
        ++ concat (map encode items)
  | WObject entries =>
      byte_of (tag_of BOS_OBJ) :: encode_uvarint (Z.of_nat (length entries))
        ++ concat (map (fun entry => encode_key (fst entry) ++ encode (snd entry)) entries)
  end.

(** Modelled from the spec: the envelope around the encoding of [w]. *)
Definition frame (w : wire) : list byte :=
  le_bytes 4 (4 + Z.of_nat (length (encode w))) ++ encode w.

(** [frame w] is a valid encoded buffer: [w] is well formed and the total
    size fits the 32-bit header. *)
Definition valid_wire (w : wire) : Prop :=
  well_formed w = true /\ 4 + Z.of_nat (length (encode w)) < 2 ^ 32.

(** Modelled from the spec: the value an encoded value stands for (section
    4.3 to 4.5: widening of the fixed-width numbers, strings as the value
    model keeps them, arrays in encoded order, objects by one set-key per
    entry in encoded order). *)
Definition decoded_fixed (t : bos_data_type) (payload : list byte) : json :=
  let number := le_value payload in
  match t with
  | BOS_BOOL => if number =? 0 then JFalse else JTrue
  | BOS_INT8 => JInteger (to_signed 8 number)
  | BOS_INT16 => JInteger (to_signed 16 number)
  | BOS_INT32 => JInteger (to_signed 32 number)
  | BOS_INT64 | BOS_UINT64 => JInteger (to_signed 64 number)
  | BOS_UINT8 | BOS_UINT16 | BOS_UINT32 => JInteger number
  | BOS_FLOAT => JReal (RealOfFloat number)
  | BOS_DOUBLE => JReal (RealOfDouble number)
  | _ => JNull
  end.

Definition set_member (members : list (list byte * json)) (entry : list byte * json)
  : list (list byte * json) :=
  members_set (fst entry) (snd entry) members.

Fixpoint decoded (w : wire) : json :=
  match w with
  | WFixed t payload => decoded_fixed t payload
  | WString payload => JString (c_string (payload ++ [x00]))
  | WBytes payload => JBytes payload
  | WArray items => JArray (map decoded items)
  | WObject entries =>
      JObject (fold_left set_member
                 (map (fun entry => (c_string (fst entry ++ [x00]), decoded (snd entry)))
                      entries)
                 [])
  end.

(** ** Encodings at the cursor *)

(** The cursor stands between [pre] and [rest]. *)
Definition cursor_at (buffer : buffer_t) (pre rest : list byte) : Prop :=
  data buffer = pre ++ rest /\ pos buffer = Z.of_nat (length pre).

(** [n] more bytes fit under the declared size without wrapping. *)
Definition room (buffer : buffer_t) (n : Z) : Prop :=
  0 <= read buffer /\ read buffer + n <= size buffer /\ size buffer < 2 ^ 32.

(** [step] accepts the encoding of [w] wherever it lies and consumes it. *)
Definition accepts (step : validator) (w : wire) : Prop :=
  forall buffer pre rest,
    cursor_at buffer pre (encode w ++ rest) ->
    room buffer (Z.of_nat (length (encode w))) ->
    step buffer = Ret (TRUE, advance buffer (Z.of_nat (length (encode w)))).

Definition encode_entry (entry : list byte * wire) : list byte :=
  encode_key (fst entry) ++ encode (snd entry).

(** What [read_value] needs of the state: the heap grants every allocation
    and [read] is a 32-bit value. *)
Definition calm (s : dstate) : Prop :=
  heap s = [] /\ 0 <= read (buf s) < 2 ^ 32.

(** [read_child] reads the encoding of [w] wherever it lies, consumes it and
    returns the value it stands for. *)
Definition reads (read_child : M json_ptr) (w : wire) : Prop :=
  forall s pre rest,
    cursor_at (buf s) pre (encode w ++ rest) ->
    calm s ->
    Z.of_nat (length (encode w)) < 2 ^ 32 ->
    read_child s = Ret (Some (decoded w), advance_s s (Z.of_nat (length (encode w)))).

Definition decoded_entry (entry : list byte * wire) : list byte * json :=
  (c_string (fst entry ++ [x00]), decoded (snd entry)).

(** The value of the last entry of [entries] whose key is [key]. *)
Definition last_binding (key : list byte) (entries : list (list byte * json))
  : option json :=
  fold_left (fun found entry => if bytes_eqb (fst entry) key then Some (snd entry) else found)
            entries None.

(** ** Values the decoder returns *)

(** No string of [w] and no key of an object of [w] has a byte, so that
    decoding [w] writes no terminator. *)
Fixpoint plain (w : wire) : bool :=
  match w with
  | WFixed _ _ | WBytes _ => true
  | WString payload => match payload with [] => true | _ :: _ => false end
  | WArray items => forallb plain items
  | WObject entries =>
      forallb (fun entry => match fst entry with
                            | [] => plain (snd entry)
                            | _ :: _ => false
                            end) entries
  end.

Definition plain_entry (entry : list byte * wire) : bool :=
  match fst entry with
  | [] => plain (snd entry)
  | _ :: _ => false
  end.

(** What [read_child] does with the encoding of [w] wherever it lies, the
    allocations granted: it consumes it and returns the value it stands for
    when [w] is plain, and writes outside a block when it is not. *)
Definition decodes (read_child : M json_ptr) (w : wire) : Prop :=
  forall s pre rest,
    cursor_at (buf s) pre (encode w ++ rest) ->
    calm s ->
    Z.of_nat (length (encode w)) < 2 ^ 32 ->
    read_child s
    = if plain w
      then Ret (Some (decoded w), advance_s s (Z.of_nat (length (encode w))))
      else Fault.

(** ** Children read one after the other *)

(** From [s], [read_child] returns the values [entries] one after the other
    and leaves the state [s']. *)
Inductive reads_children (read_child : M json_ptr)
  : dstate -> list json -> dstate -> Prop :=
| children_none (s : dstate) : reads_children read_child s [] s
| children_next (s s1 s2 : dstate) (entry : json) (entries : list json) :
    read_child s = Ret (Some entry, s1) ->
    reads_children read_child s1 entries s2 ->
    reads_children read_child s (entry :: entries) s2.

(** The same for the entries of an object: a key, then its value. *)
Inductive reads_entries (read_child : M json_ptr)
  : dstate -> list (list byte * json) -> dstate -> Prop :=
| entries_none (s : dstate) : reads_entries read_child s [] s
| entries_next (s s0 s1 s2 : dstate) (key : list byte) (entry : json)
    (entries : list (list byte * json)) :
    read_raw_string s = Ret (key, s0) ->
    read_child s0 = Ret (Some entry, s1) ->
    reads_entries read_child s1 entries s2 ->
    reads_entries read_child s ((key, entry) :: entries) s2.

(** [n] arrays one inside the other around [w]. *)
Fixpoint nest (n : nat) (w : wire) : wire :=
  match n with
  | O => w
  | S n' => WArray [nest n' w]
  end.

(** ** Concrete inputs *)

(** An array of the string "hi" and the 8-bit integer -1. *)
Definition sample_wire : wire :=
  WArray [WString [x68; x69]; WFixed BOS_INT8 [xff]].

(** An object with the key "a" twice, bound to true and then to false. *)
Definition sample_entries : list (list byte * wire) :=
  [([x61], WFixed BOS_BOOL [x01]); ([x61], WFixed BOS_BOOL [x00])].

Definition hi_buffer : buffer_t :=
  {| data := [x08; x00; x00; x00; x0c; x02; x68; x69]; pos := 4; read := 4; size := 8 |}.

Definition varint_state : dstate :=
  {| buf := {| data := [xfd; xfd; x00]; pos := 0; read := 0; size := 3 |};
     heap := []; error := None |}.

Definition failing_child_state : dstate :=
  {| buf := {| data := [x02; x07]; pos := 0; read := 0; size := 2 |};
     heap := [false]; error := None |}.

Definition empty_string_state : dstate :=
  {| buf := {| data := [x00]; pos := 0; read := 0; size := 1 |};
     heap := []; error := None |}.

(** An array of the empty string and the 8-bit integer -1. *)
Definition plain_sample : wire :=
  WArray [WString []; WFixed BOS_INT8 [xff]].

(** An array of a Null and an 8-bit integer, and an object binding the empty
    key to an 8-bit integer; the container is granted its allocation and the
    integer is refused. *)
Definition failing_element_state : dstate :=
  {| buf := {| data := [x02; x00; x02; x07]; pos := 0; read := 0; size := 4 |};
     heap := [true; false]; error := None |}.

Definition failing_entry_state : dstate :=
  {| buf := {| data := [x01; x00; x02; x07]; pos := 0; read := 0; size := 4 |};
     heap := [true; false]; error := None |}.

(** ** Envelopes and fuel of the decoder *)

(** Modelled from the spec: an envelope whose header declares [h] bytes,
    around the bytes [body]. *)
Definition envelope (h : Z) (body : list byte) : list byte :=
  le_bytes 4 h ++ body.

(** The integers each integer tag carries faithfully, with the width of
    its payload: the range of the C type the reader copies the bytes into
    ([read_uint64] copies into an [int64_t]). *)
Definition int_range (t : bos_data_type) : option (nat * Z * Z) :=
  match t with
  | BOS_INT8 => Some (1%nat, - 2 ^ 7, 2 ^ 7 - 1)
  | BOS_INT16 => Some (2%nat, - 2 ^ 15, 2 ^ 15 - 1)
  | BOS_INT32 => Some (4%nat, - 2 ^ 31, 2 ^ 31 - 1)
  | BOS_INT64 => Some (8%nat, - 2 ^ 63, 2 ^ 63 - 1)
  | BOS_UINT8 => Some (1%nat, 0, 2 ^ 8 - 1)
  | BOS_UINT16 => Some (2%nat, 0, 2 ^ 16 - 1)
  | BOS_UINT32 => Some (4%nat, 0, 2 ^ 32 - 1)
  | BOS_UINT64 => Some (8%nat, 0, 2 ^ 63 - 1)
  | _ => None
  end.

(** A step of the decoder leaves the caller's error object as it found
    it. *)
Definition quiet {A : Type} (m : M A) : Prop :=
  forall s a s', m s = Ret (a, s') -> error s' = error s.

(** Arrays and objects. *)
Definition is_container (w : wire) : bool :=
  match w with
  | WArray _ | WObject _ => true
  | _ => false
  end.

(** [step] refuses the encoding of [w] wherever the declared size ends
    before the encoding does. *)
Definition rejects (step : validator) (w : wire) : Prop :=
  forall buffer pre rest,
    cursor_at buffer pre (encode w ++ rest) ->
    0 <= read buffer ->
    size buffer < read buffer + Z.of_nat (length (encode w)) ->
    read buffer + Z.of_nat (length (encode w)) < 2 ^ 32 ->
    exists buffer', step buffer = Ret (FALSE, buffer').

(** A step of the decoder keeps the region and never moves the cursor
    back. *)
Definition forward {A : Type} (m : M A) : Prop :=
  forall s a s',
    m s = Ret (a, s') ->
    data (buf s') = data (buf s) /\ pos (buf s) <= pos (buf s').

(** A step that ends without a bound on its iterations. *)
Definition ends {A : Type} (m : M A) : Prop :=
  forall s, m s <> OutOfFuel.

(** [m'] does what [m] does wherever [m] ends. *)
Definition extends {A : Type} (m m' : M A) : Prop :=
  forall s, m s <> OutOfFuel -> m' s = m s.


(** ** Further sample inputs *)

(** The value 5 in the 3-byte form of the varint. *)
Definition wide_varint_state : dstate :=
  {| buf := {| data := [xfd; x05; x00]; pos := 0; read := 0; size := 3 |};
     heap := []; error := None |}.

(** A count of 1 followed by a Null. *)
Definition count_buffer : buffer_t :=
  {| data := [x01; x00]; pos := 0; read := 0; size := 2 |}.

(** The count [2^32] in the 9-byte form of the varint. *)
Definition huge_count_state : dstate :=
  {| buf := {| data := [xff; x00; x00; x00; x00; x01; x00; x00; x00];
               pos := 0; read := 0; size := 9 |};
     heap := []; error := None |}.

(** An array of one Null whose own allocation is refused. *)
Definition refused_array_state : dstate :=
  {| buf := {| data := [x0e; x01; x00]; pos := 0; read := 0; size := 3 |};
     heap := [false]; error := None |}.

(** * Properties *)

(** ** The scenarios of the specification *)

Example scenario_true :
  bos_deserialize [x06; x00; x00; x00; x01; x01] [] = Ret (Some JTrue, None).
Proof. reflexivity. Qed.

Example scenario_null :
  bos_deserialize [x05; x00; x00; x00; x00] [] = Ret (Some JNull, None).
Proof. reflexivity. Qed.

(** The string "hi": the terminator is written one byte past the 2-byte
    block. *)
Example scenario_string :
  bos_deserialize [x08; x00; x00; x00; x0c; x02; x68; x69] [] = Fault.
Proof. reflexivity. Qed.

Example scenario_validate :
  bos_validate (Some [x08; x00; x00; x00; x0c; x02; x68; x69]) 8 = Ret TRUE.
Proof. reflexivity. Qed.

(** ** Bytes, integers and the region *)

Lemma byte_val_range (b : byte) : 0 <= byte_val b < 256.
Proof.
  unfold byte_val. pose proof (Byte.to_N_bounded b). lia.
Qed.

Lemma le_value_range (bs : list byte) :
  0 <= le_value bs < 256 ^ Z.of_nat (length bs).
Proof.
  induction bs as [|b bs IH].
  - simpl. lia.
  - cbn [le_value length]. rewrite Nat2Z.inj_succ, Z.pow_succ_r by lia.
    pose proof (byte_val_range b). lia.
Qed.

Lemma le_value_single (b : byte) : le_value [b] = byte_val b.
Proof. simpl. lia. Qed.

Lemma to_uint32_small (z : Z) : 0 <= z < 2 ^ 32 -> to_uint32 z = z.
Proof. intros H. unfold to_uint32. apply Z.mod_small. exact H. Qed.

Lemma to_uint64_small (z : Z) : 0 <= z < 2 ^ 64 -> to_uint64 z = z.
Proof. intros H. unfold to_uint64. apply Z.mod_small. exact H. Qed.

Lemma to_uint32_range (z : Z) : 0 <= to_uint32 z < 2 ^ 32.
Proof. unfold to_uint32. apply Z.mod_pos_bound. lia. Qed.

Lemma to_uint32_add (a b : Z) : to_uint32 (to_uint32 a + b) = to_uint32 (a + b).
Proof. unfold to_uint32. apply Z.add_mod_idemp_l. lia. Qed.

Lemma mem_read_Some (region : list byte) (p n : Z) (bs : list byte) :
  mem_read region p n = Some bs ->
  0 <= p /\ 0 <= n /\ p + n <= Z.of_nat (length region) /\
  Z.of_nat (length bs) = n.
Proof.
  unfold mem_read.
  destruct (0 <=? p) eqn:Hp; [|discriminate].
  destruct (0 <=? n) eqn:Hn; [|discriminate].
  destruct (p + n <=? Z.of_nat (length region)) eqn:Hl; [|discriminate].
  cbn [andb]. intros H. injection H as <-.
  apply Z.leb_le in Hp, Hn, Hl.
  rewrite length_firstn, length_skipn. lia.
Qed.

Lemma mem_read_app (pre bs post : list byte) :
  mem_read (pre ++ bs ++ post) (Z.of_nat (length pre)) (Z.of_nat (length bs))
  = Some bs.
Proof.
  unfold mem_read.
  replace (0 <=? Z.of_nat (length pre)) with true by (symmetry; apply Z.leb_le; lia).
  replace (0 <=? Z.of_nat (length bs)) with true by (symmetry; apply Z.leb_le; lia).
  replace (Z.of_nat (length pre) + Z.of_nat (length bs)
           <=? Z.of_nat (length (pre ++ bs ++ post))) with true
    by (symmetry; apply Z.leb_le; rewrite !length_app; lia).
  cbn [andb]. rewrite !Nat2Z.id.
  rewrite skipn_app, skipn_all, Nat.sub_diag. cbn [skipn app].
  rewrite firstn_app, firstn_all, Nat.sub_diag. cbn [firstn].
  rewrite app_nil_r. reflexivity.
Qed.

Lemma advance_advance (buffer : buffer_t) (n m : Z) :
  advance (advance buffer n) m = advance buffer (n + m).
Proof.
  unfold advance. cbn [data pos read size].
  rewrite to_uint32_add, <- !Z.add_assoc. reflexivity.
Qed.

Lemma advance_s_advance_s (s : dstate) (n m : Z) :
  advance_s (advance_s s n) m = advance_s s (n + m).
Proof.
  unfold advance_s. cbn [buf heap error]. rewrite advance_advance. reflexivity.
Qed.

Lemma read_buffer_Ret (buffer : buffer_t) (n : Z) (bs : list byte) (buffer' : buffer_t) :
  read_buffer buffer n = Ret (bs, buffer') ->
  mem_read (data buffer) (pos buffer) n = Some bs /\
  buffer' = advance buffer (to_uint32 n).
Proof.
  unfold read_buffer.
  destruct (mem_read (data buffer) (pos buffer) n) as [bytes|]; [|discriminate].
  intros H. injection H as <- <-. split; reflexivity.
Qed.

Lemma read_buffer_not_OutOfFuel (buffer : buffer_t) (n : Z) :
  read_buffer buffer n <> OutOfFuel.
Proof.
  unfold read_buffer. destruct (mem_read _ _ _); discriminate.
Qed.

(** Reading the bytes [bs] that lie at the cursor. *)
Lemma read_buffer_at (buffer : buffer_t) (pre bs post : list byte) (w : Z) :
  data buffer = pre ++ bs ++ post ->
  pos buffer = Z.of_nat (length pre) ->
  Z.of_nat (length bs) = w ->
  w < 2 ^ 32 ->
  read_buffer buffer w = Ret (bs, advance buffer w).
Proof.
  intros Hd Hp <- Hn. unfold read_buffer. rewrite Hd, Hp, mem_read_app.
  unfold advance. rewrite to_uint32_small by lia. rewrite Hd, Hp. reflexivity.
Qed.

Lemma read_number_at (s : dstate) (pre bs post : list byte) (w : Z) :
  data (buf s) = pre ++ bs ++ post ->
  pos (buf s) = Z.of_nat (length pre) ->
  Z.of_nat (length bs) = w ->
  w < 2 ^ 32 ->
  read_number w s = Ret (le_value bs, advance_s s w).
Proof.
  intros Hd Hp Hw Hn. unfold read_number, mbind, on_buffer.
  rewrite (read_buffer_at _ pre bs post w Hd Hp Hw Hn). reflexivity.
Qed.

Lemma enumerator_tag_of (t : bos_data_type) : enumerator (tag_of t) = Some t.
Proof. destruct t; reflexivity. Qed.

Lemma enumerator_None (v : Z) : 15 < v -> enumerator v = None.
Proof.
  intros H. destruct v as [|p|p]; try lia.
  unfold enumerator.
  do 5 (try destruct p as [p|p|]; try reflexivity; try lia).
Qed.

Lemma enumerator_Some (v : Z) (t : bos_data_type) :
  enumerator v = Some t -> v = tag_of t.
Proof.
  intros H. destruct (Z_lt_le_dec 15 v) as [Hv|Hv].
  - rewrite enumerator_None in H by exact Hv. discriminate.
  - destruct v as [|p|p]; [| |discriminate].
    + injection H as <-. reflexivity.
    + do 4 (try destruct p as [p|p|]; try lia);
        injection H as <-; reflexivity.
Qed.

(** ** The varint codec *)

Lemma validate_read_only_true (buffer : buffer_t) (n : Z) :
  0 <= read buffer -> 0 <= n ->
  read buffer + n <= size buffer -> size buffer < 2 ^ 32 ->
  validate_read_only buffer n = TRUE.
Proof.
  intros Hr Hn Hle Hs. unfold validate_read_only.
  rewrite (to_uint32_small n) by lia.
  rewrite to_uint32_small by lia.
  replace (read buffer + n <=? size buffer) with true
    by (symmetry; apply Z.leb_le; exact Hle).
  reflexivity.
Qed.

Lemma read_uvarint_short (s : dstate) (pre post : list byte) (t : byte) :
  data (buf s) = pre ++ [t] ++ post ->
  pos (buf s) = Z.of_nat (length pre) ->
  byte_val t <= 252 ->
  read_uvarint s = Ret (byte_val t, advance_s s 1).
Proof.
  intros Hd Hp Ht. unfold read_uvarint, mbind.
  rewrite (read_number_at s pre [t] post 1 Hd Hp) by (reflexivity || lia).
  rewrite le_value_single.
  pose proof (byte_val_range t) as Hb.
  destruct (byte_val t =? 255) eqn:E1; [apply Z.eqb_eq in E1; lia|].
  destruct (byte_val t =? 254) eqn:E2; [apply Z.eqb_eq in E2; lia|].
  destruct (byte_val t =? 253) eqn:E3; [apply Z.eqb_eq in E3; lia|].
  unfold ret. rewrite to_uint64_small by lia. reflexivity.
Qed.

Lemma read_uvarint_wide (s : dstate) (pre bs post : list byte) (t : byte) (w : Z) :
  data (buf s) = pre ++ (t :: bs) ++ post ->
  pos (buf s) = Z.of_nat (length pre) ->
  Z.of_nat (length bs) = w ->
  (byte_val t = 253 /\ w = 2) \/ (byte_val t = 254 /\ w = 4) \/
  (byte_val t = 255 /\ w = 8) ->
  read_uvarint s = Ret (le_value bs, advance_s s (1 + w)).
Proof.
  intros Hd Hp Hw Hcase. unfold read_uvarint, mbind.
  assert (Hd1 : data (buf s) = pre ++ [t] ++ (bs ++ post))
    by (rewrite Hd; reflexivity).
  rewrite (read_number_at s pre [t] (bs ++ post) 1 Hd1 Hp) by (reflexivity || lia).
  rewrite le_value_single.
  assert (Hd2 : data (buf (advance_s s 1)) = (pre ++ [t]) ++ bs ++ post)
    by (cbn; rewrite Hd, <- app_assoc; reflexivity).
  assert (Hp2 : pos (buf (advance_s s 1)) = Z.of_nat (length (pre ++ [t])))
    by (cbn; rewrite Hp, length_app; simpl; lia).
  pose proof (le_value_range bs) as Hv. rewrite Hw in Hv.
  pose proof (read_number_at (advance_s s 1) (pre ++ [t]) bs post w Hd2 Hp2 Hw) as Hrd.
  rewrite advance_s_advance_s in Hrd.
  destruct Hcase as [[Ht ->]|[[Ht ->]|[Ht ->]]]; rewrite Ht; cbn [Z.eqb Pos.eqb];
    rewrite Hrd by lia; unfold ret; rewrite to_uint64_small by lia; reflexivity.
Qed.

Lemma validate_uvarint_short (buffer : buffer_t) (pre post : list byte) (t : byte) :
  data buffer = pre ++ [t] ++ post ->
  pos buffer = Z.of_nat (length pre) ->
  0 <= read buffer -> size buffer < 2 ^ 32 ->
  read buffer + 1 <= size buffer ->
  byte_val t <= 252 ->
  validate_uvarint buffer = Ret (Some (byte_val t), advance buffer 1).
Proof.
  intros Hd Hp Hr Hs Hle Ht. unfold validate_uvarint.
  rewrite validate_read_only_true by lia. cbn [negb].
  rewrite (read_buffer_at buffer pre [t] post 1 Hd Hp) by (reflexivity || lia).
  cbn [bind]. rewrite le_value_single.
  pose proof (byte_val_range t) as Hb.
  destruct (byte_val t =? 255) eqn:E1; [apply Z.eqb_eq in E1; lia|].
  destruct (byte_val t =? 254) eqn:E2; [apply Z.eqb_eq in E2; lia|].
  destruct (byte_val t =? 253) eqn:E3; [apply Z.eqb_eq in E3; lia|].
  reflexivity.
Qed.

Lemma validate_uvarint_wide (buffer : buffer_t) (pre bs post : list byte)
    (t : byte) (w : Z) :
  data buffer = pre ++ (t :: bs) ++ post ->
  pos buffer = Z.of_nat (length pre) ->
  Z.of_nat (length bs) = w ->
  (byte_val t = 253 /\ w = 2) \/ (byte_val t = 254 /\ w = 4) \/
  (byte_val t = 255 /\ w = 8) ->
  0 <= read buffer -> size buffer < 2 ^ 32 ->
  read buffer + 1 + w <= size buffer ->
  validate_uvarint buffer = Ret (Some (le_value bs), advance buffer (1 + w)).
Proof.
  intros Hd Hp Hw Hcase Hr Hs Hle. unfold validate_uvarint.
  assert (0 <= w <= 8) as Hw8 by lia.
  rewrite validate_read_only_true by lia. cbn [negb].
  assert (Hd1 : data buffer = pre ++ [t] ++ (bs ++ post))
    by (rewrite Hd; reflexivity).
  rewrite (read_buffer_at buffer pre [t] (bs ++ post) 1 Hd1 Hp) by (reflexivity || lia).
  cbn [bind]. rewrite le_value_single.
  assert (Hd2 : data (advance buffer 1) = (pre ++ [t]) ++ bs ++ post)
    by (cbn; rewrite Hd, <- app_assoc; reflexivity).
  assert (Hp2 : pos (advance buffer 1) = Z.of_nat (length (pre ++ [t])))
    by (cbn; rewrite Hp, length_app; simpl; lia).
  pose proof (read_buffer_at (advance buffer 1) (pre ++ [t]) bs post w Hd2 Hp2 Hw) as Hrd2.
  rewrite advance_advance in Hrd2.
  assert (Hro : validate_read_only (advance buffer 1) w = TRUE).
  { apply validate_read_only_true; cbn [advance read size]; try lia.
    - apply to_uint32_range.
    - rewrite to_uint32_small by lia. lia. }
  destruct Hcase as [[Ht ->]|[[Ht ->]|[Ht ->]]]; rewrite Ht; cbn [Z.eqb Pos.eqb];
    rewrite Hro; cbn [negb]; rewrite Hrd2 by lia; reflexivity.
Qed.

(** C4. The varint decoder maps a first byte [t] in [0, 0xFC] to [t], and
    0xFD, 0xFE, 0xFF to the next 2, 4, 8 bytes read as a little-endian
    unsigned number; [read_uvarint] and, where its bounds checks pass,
    [validate_uvarint] decode the same value and consume the same bytes.
    252 decodes from FC and 253 from FD FD 00; the 2-byte form holds up to
    65535 and the 4-byte form up to 4294967295. *)
Theorem uvarint_decoding :
  forall (s : dstate) (pre bs post : list byte) (t : byte),
    data (buf s) = pre ++ (t :: bs) ++ post ->
    pos (buf s) = Z.of_nat (length pre) ->
    let checked :=
      0 <= read (buf s) /\ size (buf s) < 2 ^ 32 /\
      read (buf s) + 1 + Z.of_nat (length bs) <= size (buf s) in
    (byte_val t <= 252 -> bs = [] ->
       read_uvarint s = Ret (byte_val t, advance_s s 1) /\
       (checked ->
        validate_uvarint (buf s) = Ret (Some (byte_val t), advance (buf s) 1))) /\
    (byte_val t = 253 -> length bs = 2%nat ->
       read_uvarint s = Ret (le_value bs, advance_s s 3) /\
       le_value bs <= 65535 /\
       (checked ->
        validate_uvarint (buf s) = Ret (Some (le_value bs), advance (buf s) 3))) /\
    (byte_val t = 254 -> length bs = 4%nat ->
       read_uvarint s = Ret (le_value bs, advance_s s 5) /\
       le_value bs <= 4294967295 /\
       (checked ->
        validate_uvarint (buf s) = Ret (Some (le_value bs), advance (buf s) 5))) /\
    (byte_val t = 255 -> length bs = 8%nat ->
       read_uvarint s = Ret (le_value bs, advance_s s 9) /\
       le_value bs <= 18446744073709551615 /\
       (checked ->
        validate_uvarint (buf s) = Ret (Some (le_value bs), advance (buf s) 9))) /\
    decode_uvarint [xfc] = Ret (252, 1) /\
    decode_uvarint [xfd; xfd; x00] = Ret (253, 3) /\
    decode_uvarint [xfd; xff; xff] = Ret (65535, 3) /\
    decode_uvarint [xfe; x00; x00; x01; x00] = Ret (65536, 5) /\
    decode_uvarint [xfe; xff; xff; xff; xff] = Ret (4294967295, 5) /\
    decode_uvarint [xff; x00; x00; x00; x00; x01; x00; x00; x00]
    = Ret (4294967296, 9).
Proof.
  intros s pre bs post t Hd Hp checked.
  split; [|split; [|split; [|split]]].
  - intros Ht ->. split.
    + apply (read_uvarint_short s pre post t Hd Hp Ht).
    + intros (Hr & Hs & Hle). cbn [length Z.of_nat] in Hle.
      apply (validate_uvarint_short (buf s) pre post t Hd Hp); lia.
  - intros Ht Hl.
    assert (Hw : Z.of_nat (length bs) = 2) by (rewrite Hl; reflexivity).
    split; [|split].
    + apply (read_uvarint_wide s pre bs post t 2 Hd Hp Hw). tauto.
    + pose proof (le_value_range bs) as Hv. rewrite Hw in Hv. lia.
    + intros (Hr & Hs & Hle).
      apply (validate_uvarint_wide (buf s) pre bs post t 2 Hd Hp Hw); first [lia | tauto].
  - intros Ht Hl.
    assert (Hw : Z.of_nat (length bs) = 4) by (rewrite Hl; reflexivity).
    split; [|split].
    + apply (read_uvarint_wide s pre bs post t 4 Hd Hp Hw). tauto.
    + pose proof (le_value_range bs) as Hv. rewrite Hw in Hv. lia.
    + intros (Hr & Hs & Hle).
      apply (validate_uvarint_wide (buf s) pre bs post t 4 Hd Hp Hw); first [lia | tauto].
  - intros Ht Hl.
    assert (Hw : Z.of_nat (length bs) = 8) by (rewrite Hl; reflexivity).
    split; [|split].
    + apply (read_uvarint_wide s pre bs post t 8 Hd Hp Hw). tauto.
    + pose proof (le_value_range bs) as Hv. rewrite Hw in Hv. lia.
    + intros (Hr & Hs & Hle).
      apply (validate_uvarint_wide (buf s) pre bs post t 8 Hd Hp Hw); first [lia | tauto].
  - repeat split; reflexivity.
Qed.

(** ** The entry checks of the validator *)

Lemma mem_read_header (region : list byte) :
  (4 <= length region)%nat ->
  mem_read region 0 4 = Some (firstn 4 region).
Proof.
  intros H. unfold mem_read.
  replace (0 + 4 <=? Z.of_nat (length region)) with true
    by (symmetry; apply Z.leb_le; lia).
  reflexivity.
Qed.

(** C5. [bos_validate] answers FALSE before any walk of the value when the
    byte count given is below 5, when the header value is below 5, and when
    the header value exceeds the byte count given: the answer is the same for
    every amount of fuel, none included. *)
Theorem bos_validate_entry_checks :
  forall (fuel : nat) (region : list byte) (size : Z),
    size < 5 \/
    ((4 <= length region)%nat /\
     (le_value (firstn 4 region) < 5 \/ size < le_value (firstn 4 region))) ->
    bos_validate_fuel fuel (Some region) size = Ret FALSE /\
    bos_validate (Some region) size = Ret FALSE.
Proof.
  assert (H : forall fuel region size,
             size < 5 \/
             ((4 <= length region)%nat /\
              (le_value (firstn 4 region) < 5 \/ size < le_value (firstn 4 region))) ->
             bos_validate_fuel fuel (Some region) size = Ret FALSE).
  { intros fuel region size Hc. unfold bos_validate_fuel.
    destruct (size <? 5) eqn:Hs; [reflexivity|].
    apply Z.ltb_ge in Hs.
    destruct Hc as [Hc|[Hlen Hc]]; [lia|].
    rewrite (mem_read_header region Hlen).
    replace ((le_value (firstn 4 region) <? 5) || (size <? le_value (firstn 4 region)))
      with true; [reflexivity|].
    symmetry. apply orb_true_iff.
    destruct Hc as [Hc|Hc]; [left|right]; apply Z.ltb_lt; exact Hc. }
  intros fuel region size Hc. split.
  - apply H. exact Hc.
  - unfold bos_validate. apply H. exact Hc.
Qed.

(** ** Tags outside 0..15 *)

Lemma buffer_init_at (hdr rest : list byte) :
  length hdr = 4%nat ->
  buffer_init (hdr ++ rest)
  = Ret {| data := hdr ++ rest; pos := 4; read := 4; size := le_value hdr |}.
Proof.
  intros Hl. unfold buffer_init.
  rewrite (read_buffer_at _ [] hdr rest 4) by first [reflexivity | lia].
  reflexivity.
Qed.

Lemma read_value_unknown_tag (fuel : nat) (s : dstate) (pre post : list byte) (t : byte) :
  15 < byte_val t ->
  data (buf s) = pre ++ [t] ++ post ->
  pos (buf s) = Z.of_nat (length pre) ->
  read_value (S fuel) s = Ret (Some JNull, advance_s s 1).
Proof.
  intros Ht Hd Hp. cbn [read_value]. unfold mbind at 1. unfold read_data_type, mbind.
  rewrite (read_number_at s pre [t] post 1 Hd Hp) by (reflexivity || lia).
  rewrite le_value_single.
  replace (15 <? byte_val t) with true by (symmetry; apply Z.ltb_lt; exact Ht).
  reflexivity.
Qed.

Lemma validate_value_unknown_tag (fuel : nat) (buffer : buffer_t)
    (pre post : list byte) (t : byte) :
  15 < byte_val t ->
  data buffer = pre ++ [t] ++ post ->
  pos buffer = Z.of_nat (length pre) ->
  validate_value (S fuel) buffer
  = Ret (FALSE, if validate_read_only buffer 1 then advance buffer 1 else buffer).
Proof.
  intros Ht Hd Hp. cbn [validate_value].
  destruct (validate_read_only buffer 1); cbn [negb]; [|reflexivity].
  rewrite (read_buffer_at buffer pre [t] post 1 Hd Hp) by (reflexivity || lia).
  cbn [bind]. rewrite le_value_single, enumerator_None by exact Ht.
  reflexivity.
Qed.

(** C3. A value whose tag byte is above 15 decodes to Null, at the top level
    and at every nesting level, and the validator answers FALSE on the same
    bytes. *)
Theorem unknown_tag_asymmetry :
  forall (t : byte),
    15 < byte_val t ->
    (forall (fuel : nat) (s : dstate) (pre post : list byte),
        data (buf s) = pre ++ [t] ++ post ->
        pos (buf s) = Z.of_nat (length pre) ->
        read_value (S fuel) s = Ret (Some JNull, advance_s s 1) /\
        exists buffer', validate_value (S fuel) (buf s) = Ret (FALSE, buffer')) /\
    (forall (hdr post : list byte) (heap : heap_t),
        length hdr = 4%nat -> 5 <= le_value hdr ->
        bos_deserialize (hdr ++ t :: post) heap = Ret (Some JNull, None) /\
        forall size, bos_validate (Some (hdr ++ t :: post)) size = Ret FALSE).
Proof.
  intros t Ht. split.
  - intros fuel s pre post Hd Hp. split.
    + apply (read_value_unknown_tag fuel s pre post t Ht Hd Hp).
    + eexists. apply (validate_value_unknown_tag fuel (buf s) pre post t Ht Hd Hp).
  - intros hdr post heap Hl Hh. split.
    + unfold bos_deserialize. rewrite (buffer_init_at hdr (t :: post) Hl).
      cbn [bind size].
      replace (le_value hdr <? 5) with false by (symmetry; apply Z.ltb_ge; exact Hh).
      rewrite (read_value_unknown_tag _ _ hdr post t Ht); try reflexivity.
      cbn. rewrite Hl. reflexivity.
    + intros size. unfold bos_validate, bos_validate_fuel.
      destruct (size <? 5); [reflexivity|].
      rewrite mem_read_header by (rewrite length_app; lia).
      rewrite firstn_app, firstn_all2 by lia.
      rewrite Hl. cbn [Nat.sub firstn]. rewrite app_nil_r.
      replace (le_value hdr <? 5) with false by (symmetry; apply Z.ltb_ge; exact Hh).
      cbn [orb]. destruct (size <? le_value hdr); [reflexivity|].
      rewrite (buffer_init_at hdr (t :: post) Hl). cbn [bind].
      rewrite (validate_value_unknown_tag _ _ hdr post t Ht); try reflexivity.
      cbn. rewrite Hl. reflexivity.
Qed.

(** ** Empty strings and byte blobs *)

Lemma read_number_Ret (s : dstate) (w v : Z) (s' : dstate) :
  read_number w s = Ret (v, s') ->
  exists bs,
    mem_read (data (buf s)) (pos (buf s)) w = Some bs /\
    v = le_value bs /\ s' = advance_s s (to_uint32 w).
Proof.
  unfold read_number, mbind, on_buffer, ret.
  destruct (read_buffer (buf s) w) as [[bs b']| |] eqn:Hrd; try discriminate.
  intros H. injection H as <- <-.
  apply read_buffer_Ret in Hrd. destruct Hrd as [Hm ->].
  exists bs. repeat split. exact Hm.
Qed.

Lemma read_uvarint_Ret (s : dstate) (v : Z) (s1 : dstate) :
  read_uvarint s = Ret (v, s1) ->
  exists k, 1 <= k <= 9 /\ s1 = advance_s s k /\
            0 <= pos (buf s) /\
            pos (buf s) + k <= Z.of_nat (length (data (buf s))).
Proof.
  unfold read_uvarint. unfold mbind at 1.
  destruct (read_number 1 s) as [[flag s0]| |] eqn:H1; try discriminate.
  apply read_number_Ret in H1. destruct H1 as (bs1 & Hm1 & _ & ->).
  apply mem_read_Some in Hm1. change (to_uint32 1) with 1.
  assert (Hwide : forall w, In w [2; 4; 8] ->
            (w' <~ read_number w ;; ret (to_uint64 w')) (advance_s s 1) = Ret (v, s1) ->
            exists k, 1 <= k <= 9 /\ s1 = advance_s s k /\ 0 <= pos (buf s) /\
                      pos (buf s) + k <= Z.of_nat (length (data (buf s)))).
  { intros w Hw. unfold mbind, ret.
    destruct (read_number w (advance_s s 1)) as [[x s2]| |] eqn:H2; try discriminate.
    intros H. injection H as _ <-.
    apply read_number_Ret in H2. destruct H2 as (bs2 & Hm2 & _ & ->).
    apply mem_read_Some in Hm2. cbn [advance_s advance buf data pos] in Hm2.
    rewrite advance_s_advance_s.
    assert (to_uint32 w = w) as ->
      by (cbn [In] in Hw; destruct Hw as [<-|[<-|[<-|[]]]]; reflexivity).
    exists (1 + w). cbn [In] in Hw. repeat split; lia. }
  destruct (flag =? 255); [apply Hwide; cbn; tauto|].
  destruct (flag =? 254); [apply Hwide; cbn; tauto|].
  destruct (flag =? 253); [apply Hwide; cbn; tauto|].
  unfold ret. intros H. injection H as _ <-.
  exists 1. repeat split; lia.
Qed.

(** C9. When the length decoded is 0, the string and bytes readers produce
    the empty value and leave the cursor where the length ended: no further
    byte, and no terminator, is read.  The value is NULL only when the
    allocation fails. *)
Theorem empty_string_and_bytes :
  forall (s s1 : dstate),
    read_uvarint s = Ret (0, s1) ->
    read_raw_string s = Ret ([x00], s1) /\
    (exists r s', read_string s = Ret (r, s') /\ buf s' = buf s1 /\
                  (r = Some (JString []) \/ r = None) /\
                  (heap s1 = [] -> r = Some (JString []) /\ s' = s1)) /\
    (exists r s', read_bytes s = Ret (r, s') /\ buf s' = buf s1 /\
                  (r = Some (JBytes []) \/ r = None) /\
                  (heap s1 = [] -> r = Some (JBytes []) /\ s' = s1)) /\
    bos_deserialize [x06; x00; x00; x00; x0c; x00] [] = Ret (Some (JString []), None) /\
    bos_deserialize [x06; x00; x00; x00; x0d; x00] [] = Ret (Some (JBytes []), None).
Proof.
  intros s s1 Hv.
  assert (Hraw : read_raw_string s = Ret ([x00], s1)).
  { unfold read_raw_string, mbind. rewrite Hv. reflexivity. }
  split; [exact Hraw|]. split; [|split; [|split; reflexivity]].
  - unfold read_string. unfold mbind. rewrite Hraw.
    unfold json_string, json_new. cbn [c_string Byte.eqb].
    destruct s1 as [b1 h1 e1]. cbn [heap buf error].
    destruct h1 as [|ok h1]; cbn [alloc].
    + do 2 eexists. split; [reflexivity|]. split; [reflexivity|].
      split; [left; reflexivity|]. intros _. split; reflexivity.
    + do 2 eexists. split; [reflexivity|]. split; [reflexivity|]. split.
      * destruct ok; [left|right]; reflexivity.
      * discriminate.
  - destruct (read_uvarint_Ret s 0 s1 Hv) as (k & Hk & -> & Hp0 & Hp1).
    unfold read_bytes. unfold mbind at 1. rewrite Hv. unfold mbind at 1.
    unfold jsonp_malloc. cbn [advance_s heap buf error].
    assert (Hrd : forall h,
               on_buffer (fun buffer => read_buffer buffer 0)
                 {| buf := advance (buf s) k; heap := h; error := error s |}
               = Ret ([], {| buf := advance (buf s) k; heap := h; error := error s |})).
    { intros h. unfold on_buffer. cbn [buf heap error].
      unfold read_buffer, mem_read. cbn [advance data pos read size].
      replace (0 <=? pos (buf s) + k) with true by (symmetry; apply Z.leb_le; lia).
      replace (pos (buf s) + k + 0 <=? Z.of_nat (length (data (buf s)))) with true
        by (symmetry; apply Z.leb_le; lia).
      cbn [andb Z.leb Z.compare Z.to_nat firstn].
      change (to_uint32 0) with 0. rewrite !Z.add_0_r.
      rewrite (to_uint32_small (to_uint32 _)) by apply to_uint32_range.
      reflexivity. }
    destruct (heap s) as [|ok h1] eqn:Hh; cbn [alloc].
    + cbn [orb]. unfold mbind. rewrite Hrd.
      unfold json_bytes, json_new. cbn [heap buf error alloc Z.to_nat firstn].
      do 2 eexists. split; [reflexivity|]. split; [reflexivity|].
      split; [left; reflexivity|]. intros _.
      split; [reflexivity | unfold advance_s; rewrite Hh; reflexivity].
    + rewrite Z.eqb_refl, orb_true_r. unfold mbind. rewrite Hrd.
      unfold json_bytes, json_new. cbn [heap buf error Z.to_nat firstn].
      destruct h1 as [|ok2 h2]; cbn [alloc].
      * do 2 eexists. split; [reflexivity|]. split; [reflexivity|]. split.
        -- left. reflexivity.
        -- discriminate.
      * do 2 eexists. split; [reflexivity|]. split; [reflexivity|]. split.
        -- destruct ok2; [left|right]; reflexivity.
        -- discriminate.
Qed.

(** ** The cursor invariant of the validator *)

Lemma checked_read_inv (buffer : buffer_t) (n : Z) (bs : list byte) (buffer' : buffer_t) :
  validate_read_only buffer n = TRUE ->
  read_buffer buffer n = Ret (bs, buffer') ->
  cursor_inv buffer' /\ size buffer' = size buffer.
Proof.
  intros Hc Hr. apply read_buffer_Ret in Hr. destruct Hr as [_ ->].
  unfold validate_read_only in Hc. unfold cursor_inv, advance. cbn [read size].
  destruct (to_uint32 (read buffer + to_uint32 n) <=? size buffer) eqn:E;
    [|discriminate].
  apply Z.leb_le in E. split; [exact E|reflexivity].
Qed.

Lemma validate_read_inv (buffer : buffer_t) (amount : Z) :
  cursor_inv buffer ->
  cursor_inv (snd (validate_read buffer amount)) /\
  size (snd (validate_read buffer amount)) = size buffer.
Proof.
  intros Hi. unfold validate_read.
  destruct (to_uint32 (read buffer + to_uint32 amount) <=? size buffer) eqn:E;
    cbn [snd].
  - apply Z.leb_le in E. split; [exact E|reflexivity].
  - split; [exact Hi|reflexivity].
Qed.

Lemma validate_read_Ret_inv (buffer : buffer_t) (amount : Z) (ok : bool)
    (buffer' : buffer_t) :
  cursor_inv buffer ->
  Ret (validate_read buffer amount) = Ret (ok, buffer') ->
  cursor_inv buffer' /\ size buffer' = size buffer.
Proof.
  intros Hi H.
  assert (E : validate_read buffer amount = (ok, buffer')) by congruence.
  destruct (validate_read_inv buffer amount Hi) as [Hi2 Hs2].
  rewrite E in Hi2, Hs2. split; [exact Hi2|exact Hs2].
Qed.

Lemma validate_uvarint_inv (buffer : buffer_t) (r : option Z) (buffer' : buffer_t) :
  cursor_inv buffer ->
  validate_uvarint buffer = Ret (r, buffer') ->
  cursor_inv buffer' /\ size buffer' = size buffer.
Proof.
  intros Hi. unfold validate_uvarint.
  destruct (validate_read_only buffer 1) eqn:H1; cbn [negb];
    [|intros H; injection H as _ <-; split; [exact Hi|reflexivity]].
  destruct (read_buffer buffer 1) as [[bs b1]| |] eqn:R1; cbn [bind]; try discriminate.
  destruct (checked_read_inv _ _ _ _ H1 R1) as [Hi1 Hs1].
  assert (Hwide : forall w,
            (if negb (validate_read_only b1 w) then Ret (None, b1)
             else '(bytes, buffer0) <- read_buffer b1 w ;;
                  Ret (Some (le_value bytes), buffer0)) = Ret (r, buffer') ->
            cursor_inv buffer' /\ size buffer' = size buffer).
  { intros w. destruct (validate_read_only b1 w) eqn:H2; cbn [negb].
    - destruct (read_buffer b1 w) as [[bs2 b2]| |] eqn:R2; cbn [bind]; try discriminate.
      intros H; injection H as _ <-.
      destruct (checked_read_inv _ _ _ _ H2 R2) as [Hi2 Hs2].
      split; [exact Hi2|congruence].
    - intros H; injection H as _ <-. split; [exact Hi1|exact Hs1]. }
  destruct (le_value bs =? 255); [apply Hwide|].
  destruct (le_value bs =? 254); [apply Hwide|].
  destruct (le_value bs =? 253); [apply Hwide|].
  intros H; injection H as _ <-. split; [exact Hi1|exact Hs1].
Qed.

Lemma validate_string_inv : preserves validate_string.
Proof.
  intros buffer ok buffer' Hi. unfold validate_string.
  destruct (validate_uvarint buffer) as [[len b1]| |] eqn:Hv; cbn [bind]; try discriminate.
  destruct (validate_uvarint_inv _ _ _ Hi Hv) as [Hi1 Hs1].
  destruct len as [len|].
  - destruct (0 <? len).
    + intros H. apply (validate_read_Ret_inv _ _ _ _ Hi1) in H.
      destruct H as [Hi2 Hs2]. split; [exact Hi2|congruence].
    + intros H; injection H as _ <-. split; [exact Hi1|exact Hs1].
  - intros H; injection H as _ <-. split; [exact Hi1|exact Hs1].
Qed.

Lemma validate_bytes_inv : preserves validate_bytes.
Proof. exact validate_string_inv. Qed.

Lemma validate_array_loop_inv (step : validator) :
  preserves step ->
  forall fuel i len, preserves (validate_array_loop step fuel i len).
Proof.
  intros Hstep fuel. induction fuel as [|fuel IH]; intros i len buffer ok buffer' Hi;
    cbn [validate_array_loop]; destruct (i <? len);
    try discriminate;
    try (intros H; injection H as _ <-; split; [exact Hi|reflexivity]).
  destruct (step buffer) as [[ok1 b1]| |] eqn:Hs; cbn [bind]; try discriminate.
  destruct (Hstep _ _ _ Hi Hs) as [Hi1 Hs1].
  destruct ok1; cbn [negb].
  - intros H. destruct (IH _ _ _ _ _ Hi1 H) as [Hi2 Hs2]. split; [exact Hi2|congruence].
  - intros H; injection H as _ <-. split; [exact Hi1|exact Hs1].
Qed.

Lemma validate_obj_loop_inv (step : validator) :
  preserves step ->
  forall fuel i len, preserves (validate_obj_loop step fuel i len).
Proof.
  intros Hstep fuel. induction fuel as [|fuel IH]; intros i len buffer ok buffer' Hi;
    cbn [validate_obj_loop]; destruct (i <? len);
    try discriminate;
    try (intros H; injection H as _ <-; split; [exact Hi|reflexivity]).
  destruct (validate_string buffer) as [[ok0 b0]| |] eqn:Hk; cbn [bind]; try discriminate.
  destruct (validate_string_inv _ _ _ Hi Hk) as [Hi0 Hs0].
  destruct ok0; cbn [negb];
    [|intros H; injection H as _ <-; split; [exact Hi0|exact Hs0]].
  destruct (step b0) as [[ok1 b1]| |] eqn:Hs; cbn [bind]; try discriminate.
  destruct (Hstep _ _ _ Hi0 Hs) as [Hi1 Hs1].
  destruct ok1; cbn [negb].
  - intros H. destruct (IH _ _ _ _ _ Hi1 H) as [Hi2 Hs2]. split; [exact Hi2|congruence].
  - intros H; injection H as _ <-. split; [exact Hi1|congruence].
Qed.

Lemma validate_array_inv (step : validator) (fuel : nat) :
  preserves step -> preserves (validate_array step fuel).
Proof.
  intros Hstep buffer ok buffer' Hi. unfold validate_array.
  destruct (validate_uvarint buffer) as [[len b1]| |] eqn:Hv; cbn [bind]; try discriminate.
  destruct (validate_uvarint_inv _ _ _ Hi Hv) as [Hi1 Hs1].
  destruct len as [len|].
  - intros H. destruct (validate_array_loop_inv step Hstep _ _ _ _ _ _ Hi1 H) as [Hi2 Hs2].
    split; [exact Hi2|congruence].
  - intros H; injection H as _ <-. split; [exact Hi1|exact Hs1].
Qed.

Lemma validate_obj_inv (step : validator) (fuel : nat) :
  preserves step -> preserves (validate_obj step fuel).
Proof.
  intros Hstep buffer ok buffer' Hi. unfold validate_obj.
  destruct (validate_uvarint buffer) as [[len b1]| |] eqn:Hv; cbn [bind]; try discriminate.
  destruct (validate_uvarint_inv _ _ _ Hi Hv) as [Hi1 Hs1].
  destruct len as [len|].
  - intros H. destruct (validate_obj_loop_inv step Hstep _ _ _ _ _ _ Hi1 H) as [Hi2 Hs2].
    split; [exact Hi2|congruence].
  - intros H; injection H as _ <-. split; [exact Hi1|exact Hs1].
Qed.

Lemma validate_value_inv (fuel : nat) : preserves (validate_value fuel).
Proof.
  induction fuel as [|fuel IH]; intros buffer ok buffer' Hi; cbn [validate_value];
    [discriminate|].
  destruct (validate_read_only buffer 1) eqn:H1; cbn [negb];
    [|intros H; injection H as _ <-; split; [exact Hi|reflexivity]].
  destruct (read_buffer buffer 1) as [[bs b1]| |] eqn:R1; cbn [bind]; try discriminate.
  destruct (checked_read_inv _ _ _ _ H1 R1) as [Hi1 Hs1].
  assert (Hfixed : forall w, Ret (validate_read b1 w) = Ret (ok, buffer') ->
                             cursor_inv buffer' /\ size buffer' = size buffer).
  { intros w H. apply (validate_read_Ret_inv _ _ _ _ Hi1) in H.
    destruct H as [Hi2 Hs2]. split; [exact Hi2|congruence]. }
  destruct (enumerator (le_value bs)) as [[]|]; try apply Hfixed.
  - intros H; injection H as _ <-. split; [exact Hi1|exact Hs1].
  - intros H. destruct (validate_string_inv _ _ _ Hi1 H). split; [assumption|congruence].
  - intros H. destruct (validate_bytes_inv _ _ _ Hi1 H). split; [assumption|congruence].
  - intros H. destruct (validate_array_inv _ fuel IH _ _ _ Hi1 H).
    split; [assumption|congruence].
  - intros H. destruct (validate_obj_inv _ fuel IH _ _ _ Hi1 H).
    split; [assumption|congruence].
  - intros H; injection H as _ <-. split; [exact Hi1|exact Hs1].
Qed.

Lemma buffer_init_Ret (region : list byte) (buffer : buffer_t) :
  buffer_init region = Ret buffer ->
  data buffer = region /\ pos buffer = 4 /\ read buffer = 4 /\
  mem_read region 0 4 = Some (firstn 4 region) /\
  size buffer = le_value (firstn 4 region).
Proof.
  unfold buffer_init.
  destruct (read_buffer _ 4) as [[bs b1]| |] eqn:R; cbn [bind]; try discriminate.
  intros H; injection H as <-.
  apply read_buffer_Ret in R. destruct R as [Hm ->].
  cbn [data pos read size advance] in *.
  assert (bs = firstn 4 region) as ->.
  { unfold mem_read in Hm. destruct (_ && _); [|discriminate].
    injection Hm as <-. reflexivity. }
  repeat split. exact Hm.
Qed.

(** C6. In the validator [read <= size] holds at every point: it holds
    after the header is read ([read = 4] and the entry checks give
    [size >= 5]), and every step (the fixed-width [validate_read], the varint
    decoder, the string, bytes, array and object walks and [validate_value]
    itself) hands it on, with [size] unchanged, whatever it answers. *)
Theorem cursor_invariant :
  forall (fuel : nat) (buffer : buffer_t) (ok : bool) (buffer' : buffer_t),
    cursor_inv buffer ->
    validate_value fuel buffer = Ret (ok, buffer') ->
    (cursor_inv buffer' /\ size buffer' = size buffer) /\
    (forall region b0, buffer_init region = Ret b0 -> 5 <= size b0 ->
                       read b0 = 4 /\ cursor_inv b0) /\
    (forall b amount, cursor_inv b -> cursor_inv (snd (validate_read b amount))) /\
    (forall b r b', cursor_inv b -> validate_uvarint b = Ret (r, b') -> cursor_inv b') /\
    preserves validate_string /\
    preserves validate_bytes /\
    (forall f, preserves (validate_array (validate_value f) f)) /\
    (forall f, preserves (validate_obj (validate_value f) f)).
Proof.
  intros fuel buffer ok buffer' Hi Hv.
  split; [exact (validate_value_inv fuel _ _ _ Hi Hv)|].
  split.
  { intros region b0 Hb Hs. apply buffer_init_Ret in Hb.
    destruct Hb as (_ & _ & Hr & _). split; [exact Hr|]. unfold cursor_inv. lia. }
  split; [intros b amount Hb; apply (validate_read_inv b amount Hb)|].
  split; [intros b r b' Hb H; apply (validate_uvarint_inv b r b' Hb H)|].
  split; [exact validate_string_inv|].
  split; [exact validate_bytes_inv|].
  split; intros f.
  - apply validate_array_inv, validate_value_inv.
  - apply validate_obj_inv, validate_value_inv.
Qed.

(** ** Termination of the validator *)

Lemma progress_steady (step : validator) : progress step -> steady step.
Proof.
  intros H buffer ok buffer' Hs. destruct (H _ _ _ Hs) as (Hd & Hp & _).
  split; assumption.
Qed.

Lemma read_buffer_steady (buffer : buffer_t) (n : Z) (bs : list byte) (buffer' : buffer_t) :
  read_buffer buffer n = Ret (bs, buffer') ->
  data buffer' = data buffer /\ pos buffer <= pos buffer'.
Proof.
  intros H. apply read_buffer_Ret in H. destruct H as [_ ->].
  cbn [advance data pos]. pose proof (to_uint32_range n). split; [reflexivity|lia].
Qed.

Lemma read_tag_progress (buffer : buffer_t) (bs : list byte) (buffer' : buffer_t) :
  read_buffer buffer 1 = Ret (bs, buffer') ->
  data buffer' = data buffer /\ pos buffer' = pos buffer + 1 /\
  (remaining buffer' < remaining buffer)%nat.
Proof.
  intros H. apply read_buffer_Ret in H. destruct H as [Hm ->].
  apply mem_read_Some in Hm. unfold remaining. cbn [advance data pos].
  change (to_uint32 1) with 1. repeat split; lia.
Qed.

Lemma validate_read_steady (buffer : buffer_t) (amount : Z) (ok : bool)
    (buffer' : buffer_t) :
  Ret (validate_read buffer amount) = Ret (ok, buffer') ->
  data buffer' = data buffer /\ pos buffer <= pos buffer'.
Proof.
  intros H. assert (E : validate_read buffer amount = (ok, buffer')) by congruence.
  clear H. unfold validate_read in E.
  pose proof (to_uint32_range amount).
  destruct (_ <=? _); injection E as _ <-; cbn [data pos]; split;
    first [reflexivity | lia].
Qed.

Lemma validate_uvarint_steady (buffer : buffer_t) (r : option Z) (buffer' : buffer_t) :
  validate_uvarint buffer = Ret (r, buffer') ->
  data buffer' = data buffer /\ pos buffer <= pos buffer'.
Proof.
  unfold validate_uvarint.
  destruct (validate_read_only buffer 1); cbn [negb];
    [|intros H; injection H as _ <-; split; [reflexivity|lia]].
  destruct (read_buffer buffer 1) as [[bs b1]| |] eqn:R1; cbn [bind]; try discriminate.
  destruct (read_buffer_steady _ _ _ _ R1) as [Hd1 Hp1].
  assert (Hwide : forall w,
            (if negb (validate_read_only b1 w) then Ret (None, b1)
             else '(bytes, buffer0) <- read_buffer b1 w ;;
                  Ret (Some (le_value bytes), buffer0)) = Ret (r, buffer') ->
            data buffer' = data buffer /\ pos buffer <= pos buffer').
  { intros w. destruct (validate_read_only b1 w); cbn [negb].
    - destruct (read_buffer b1 w) as [[bs2 b2]| |] eqn:R2; cbn [bind]; try discriminate.
      intros H; injection H as _ <-.
      destruct (read_buffer_steady _ _ _ _ R2) as [Hd2 Hp2].
      split; [congruence|lia].
    - intros H; injection H as _ <-. split; [exact Hd1|exact Hp1]. }
  destruct (le_value bs =? 255); [apply Hwide|].
  destruct (le_value bs =? 254); [apply Hwide|].
  destruct (le_value bs =? 253); [apply Hwide|].
  intros H; injection H as _ <-. split; [exact Hd1|exact Hp1].
Qed.

Lemma validate_uvarint_not_OutOfFuel (buffer : buffer_t) :
  validate_uvarint buffer <> OutOfFuel.
Proof.
  unfold validate_uvarint.
  destruct (validate_read_only buffer 1); cbn [negb]; [|discriminate].
  destruct (read_buffer buffer 1) as [[bs b1]| |] eqn:R1; cbn [bind];
    [|discriminate|exfalso; exact (read_buffer_not_OutOfFuel _ _ R1)].
  assert (Hwide : forall w,
            (if negb (validate_read_only b1 w) then Ret (None, b1)
             else '(bytes, buffer0) <- read_buffer b1 w ;;
                  Ret (Some (le_value bytes), buffer0)) <> OutOfFuel).
  { intros w. destruct (validate_read_only b1 w); cbn [negb]; [|discriminate].
    destruct (read_buffer b1 w) as [[bs2 b2]| |] eqn:R2; cbn [bind];
      [discriminate|discriminate|exfalso; exact (read_buffer_not_OutOfFuel _ _ R2)]. }
  destruct (le_value bs =? 255); [apply Hwide|].
  destruct (le_value bs =? 254); [apply Hwide|].
  destruct (le_value bs =? 253); [apply Hwide|].
  discriminate.
Qed.

Lemma validate_string_steady : steady validate_string.
Proof.
  intros buffer ok buffer'. unfold validate_string.
  destruct (validate_uvarint buffer) as [[len b1]| |] eqn:Hv; cbn [bind]; try discriminate.
  destruct (validate_uvarint_steady _ _ _ Hv) as [Hd1 Hp1].
  destruct len as [len|].
  - destruct (0 <? len).
    + intros H. apply validate_read_steady in H. destruct H as [Hd2 Hp2].
      split; [congruence|lia].
    + intros H; injection H as _ <-. split; [exact Hd1|exact Hp1].
  - intros H; injection H as _ <-. split; [exact Hd1|exact Hp1].
Qed.

Lemma validate_string_not_OutOfFuel (buffer : buffer_t) :
  validate_string buffer <> OutOfFuel.
Proof.
  unfold validate_string.
  destruct (validate_uvarint buffer) as [[len b1]| |] eqn:Hv; cbn [bind];
    [|discriminate|exfalso; exact (validate_uvarint_not_OutOfFuel _ Hv)].
  destruct len as [len|]; [destruct (0 <? len)|]; discriminate.
Qed.

Lemma steady_remaining (b b' : buffer_t) :
  data b' = data b -> pos b <= pos b' -> (remaining b' <= remaining b)%nat.
Proof. intros Hd Hp. unfold remaining. rewrite Hd. lia. Qed.

Lemma validate_array_loop_steady (step : validator) :
  steady step -> forall fuel i len, steady (validate_array_loop step fuel i len).
Proof.
  intros Hstep fuel. induction fuel as [|fuel IH]; intros i len buffer ok buffer';
    cbn [validate_array_loop]; destruct (i <? len);
    try discriminate;
    try (intros H; injection H as _ <-; split; [reflexivity|lia]).
  destruct (step buffer) as [[ok1 b1]| |] eqn:Hs; cbn [bind]; try discriminate.
  destruct (Hstep _ _ _ Hs) as [Hd1 Hp1].
  destruct ok1; cbn [negb].
  - intros H. destruct (IH _ _ _ _ _ H) as [Hd2 Hp2]. split; [congruence|lia].
  - intros H; injection H as _ <-. split; [exact Hd1|exact Hp1].
Qed.

Lemma validate_obj_loop_steady (step : validator) :
  steady step -> forall fuel i len, steady (validate_obj_loop step fuel i len).
Proof.
  intros Hstep fuel. induction fuel as [|fuel IH]; intros i len buffer ok buffer';
    cbn [validate_obj_loop]; destruct (i <? len);
    try discriminate;
    try (intros H; injection H as _ <-; split; [reflexivity|lia]).
  destruct (validate_string buffer) as [[ok0 b0]| |] eqn:Hk; cbn [bind]; try discriminate.
  destruct (validate_string_steady _ _ _ Hk) as [Hd0 Hp0].
  destruct ok0; cbn [negb];
    [|intros H; injection H as _ <-; split; [exact Hd0|exact Hp0]].
  destruct (step b0) as [[ok1 b1]| |] eqn:Hs; cbn [bind]; try discriminate.
  destruct (Hstep _ _ _ Hs) as [Hd1 Hp1].
  destruct ok1; cbn [negb].
  - intros H. destruct (IH _ _ _ _ _ H) as [Hd2 Hp2]. split; [congruence|lia].
  - intros H; injection H as _ <-. split; [congruence|lia].
Qed.

Lemma validate_value_progress (fuel : nat) : progress (validate_value fuel).
Proof.
  induction fuel as [|fuel IH]; intros buffer ok buffer'; cbn [validate_value];
    [discriminate|].
  destruct (validate_read_only buffer 1); cbn [negb];
    [|intros H; injection H as <- <-; repeat split; [lia|discriminate]].
  destruct (read_buffer buffer 1) as [[bs b1]| |] eqn:R1; cbn [bind]; try discriminate.
  destruct (read_tag_progress _ _ _ R1) as (Hd1 & Hp1 & Hr1).
  assert (Hafter : forall b2, data b2 = data b1 -> pos b1 <= pos b2 ->
             data b2 = data buffer /\ pos buffer <= pos b2 /\
             (ok = TRUE -> (remaining b2 < remaining buffer)%nat)).
  { intros b2 Hd2 Hp2. pose proof (steady_remaining _ _ Hd2 Hp2).
    repeat split; [congruence|lia|lia]. }
  assert (Hfixed : forall w, Ret (validate_read b1 w) = Ret (ok, buffer') ->
             data buffer' = data buffer /\ pos buffer <= pos buffer' /\
             (ok = TRUE -> (remaining buffer' < remaining buffer)%nat)).
  { intros w H. apply validate_read_steady in H. destruct H. apply Hafter; assumption. }
  pose proof (progress_steady _ IH) as IHs.
  destruct (enumerator (le_value bs)) as [[]|]; try apply Hfixed.
  - intros H; injection H as _ <-. apply Hafter; [reflexivity|lia].
  - intros H. apply validate_string_steady in H. destruct H. apply Hafter; assumption.
  - intros H. apply validate_string_steady in H. destruct H. apply Hafter; assumption.
  - unfold validate_array.
    destruct (validate_uvarint b1) as [[len b2]| |] eqn:Hv; cbn [bind]; try discriminate.
    destruct (validate_uvarint_steady _ _ _ Hv) as [Hd2 Hp2].
    destruct len as [len|].
    + intros H. apply (validate_array_loop_steady _ IHs) in H. destruct H.
      apply Hafter; [congruence|lia].
    + intros H; injection H as _ <-. apply Hafter; assumption.
  - unfold validate_obj.
    destruct (validate_uvarint b1) as [[len b2]| |] eqn:Hv; cbn [bind]; try discriminate.
    destruct (validate_uvarint_steady _ _ _ Hv) as [Hd2 Hp2].
    destruct len as [len|].
    + intros H. apply (validate_obj_loop_steady _ IHs) in H. destruct H.
      apply Hafter; [congruence|lia].
    + intros H; injection H as _ <-. apply Hafter; assumption.
  - intros H; injection H as _ <-. apply Hafter; [reflexivity|lia].
Qed.

Lemma validate_array_loop_total (step : validator) (bound : nat) :
  (forall b, (remaining b < bound)%nat -> step b <> OutOfFuel) ->
  progress step ->
  forall fuel i len b,
    (remaining b < fuel)%nat -> (remaining b < bound)%nat ->
    validate_array_loop step fuel i len b <> OutOfFuel.
Proof.
  intros Htot Hprog fuel. induction fuel as [|fuel IH]; intros i len b Hf Hb; [lia|].
  cbn [validate_array_loop]. destruct (i <? len); [|discriminate].
  destruct (step b) as [[ok b1]| |] eqn:Hs; cbn [bind];
    [|discriminate|exfalso; exact (Htot b Hb Hs)].
  destruct (Hprog _ _ _ Hs) as (_ & _ & Hr).
  destruct ok; cbn [negb]; [|discriminate].
  specialize (Hr eq_refl). apply IH; lia.
Qed.

Lemma validate_obj_loop_total (step : validator) (bound : nat) :
  (forall b, (remaining b < bound)%nat -> step b <> OutOfFuel) ->
  progress step ->
  forall fuel i len b,
    (remaining b < fuel)%nat -> (remaining b < bound)%nat ->
    validate_obj_loop step fuel i len b <> OutOfFuel.
Proof.
  intros Htot Hprog fuel. induction fuel as [|fuel IH]; intros i len b Hf Hb; [lia|].
  cbn [validate_obj_loop]. destruct (i <? len); [|discriminate].
  destruct (validate_string b) as [[ok0 b0]| |] eqn:Hk; cbn [bind];
    [|discriminate|exfalso; exact (validate_string_not_OutOfFuel _ Hk)].
  destruct (validate_string_steady _ _ _ Hk) as [Hd0 Hp0].
  pose proof (steady_remaining _ _ Hd0 Hp0) as Hr0.
  destruct ok0; cbn [negb]; [|discriminate].
  destruct (step b0) as [[ok b1]| |] eqn:Hs; cbn [bind];
    [|discriminate|exfalso; apply (Htot b0); [lia|exact Hs]].
  destruct (Hprog _ _ _ Hs) as (_ & _ & Hr).
  destruct ok; cbn [negb]; [|discriminate].
  specialize (Hr eq_refl). apply IH; lia.
Qed.

(** With more fuel than bytes remain, the walk ends. *)
Lemma validate_value_total (fuel : nat) (buffer : buffer_t) :
  (remaining buffer < fuel)%nat ->
  validate_value fuel buffer <> OutOfFuel.
Proof.
  revert buffer. induction fuel as [|fuel IH]; intros buffer Hf; [lia|].
  cbn [validate_value].
  destruct (validate_read_only buffer 1); cbn [negb]; [|discriminate].
  destruct (read_buffer buffer 1) as [[bs b1]| |] eqn:R1; cbn [bind];
    [|discriminate|exfalso; exact (read_buffer_not_OutOfFuel _ _ R1)].
  destruct (read_tag_progress _ _ _ R1) as (Hd1 & Hp1 & Hr1).
  destruct (enumerator (le_value bs)) as [[]|]; try discriminate.
  - apply validate_string_not_OutOfFuel.
  - apply validate_string_not_OutOfFuel.
  - unfold validate_array.
    destruct (validate_uvarint b1) as [[len b2]| |] eqn:Hv; cbn [bind];
      [|discriminate|exfalso; exact (validate_uvarint_not_OutOfFuel _ Hv)].
    destruct (validate_uvarint_steady _ _ _ Hv) as [Hd2 Hp2].
    pose proof (steady_remaining _ _ Hd2 Hp2) as Hr2.
    destruct len as [len|]; [|discriminate].
    apply (validate_array_loop_total _ fuel IH (validate_value_progress fuel)); lia.
  - unfold validate_obj.
    destruct (validate_uvarint b1) as [[len b2]| |] eqn:Hv; cbn [bind];
      [|discriminate|exfalso; exact (validate_uvarint_not_OutOfFuel _ Hv)].
    destruct (validate_uvarint_steady _ _ _ Hv) as [Hd2 Hp2].
    pose proof (steady_remaining _ _ Hd2 Hp2) as Hr2.
    destruct len as [len|]; [|discriminate].
    apply (validate_obj_loop_total _ fuel IH (validate_value_progress fuel)); lia.
Qed.

Lemma validate_array_loop_mono (step step' : validator) :
  refines step step' ->
  forall fuel fuel' i len b,
    (fuel <= fuel')%nat ->
    validate_array_loop step fuel i len b <> OutOfFuel ->
    validate_array_loop step' fuel' i len b = validate_array_loop step fuel i len b.
Proof.
  intros Href fuel. induction fuel as [|fuel IH]; intros fuel' i len b Hle;
    destruct fuel' as [|fuel']; try lia; cbn [validate_array_loop];
    destruct (i <? len); try reflexivity; try congruence.
  intros H.
  assert (Hs : step b <> OutOfFuel) by (intros E; rewrite E in H; apply H; reflexivity).
  rewrite (Href b Hs).
  destruct (step b) as [[ok b1]| |]; cbn [bind] in *; try reflexivity.
  destruct ok; cbn [negb] in *; [|reflexivity].
  apply IH; [lia|exact H].
Qed.

Lemma validate_obj_loop_mono (step step' : validator) :
  refines step step' ->
  forall fuel fuel' i len b,
    (fuel <= fuel')%nat ->
    validate_obj_loop step fuel i len b <> OutOfFuel ->
    validate_obj_loop step' fuel' i len b = validate_obj_loop step fuel i len b.
Proof.
  intros Href fuel. induction fuel as [|fuel IH]; intros fuel' i len b Hle;
    destruct fuel' as [|fuel']; try lia; cbn [validate_obj_loop];
    destruct (i <? len); try reflexivity; try congruence.
  intros H.
  destruct (validate_string b) as [[ok0 b0]| |]; cbn [bind] in *; try reflexivity.
  destruct ok0; cbn [negb] in *; [|reflexivity].
  assert (Hs : step b0 <> OutOfFuel) by (intros E; rewrite E in H; apply H; reflexivity).
  rewrite (Href b0 Hs).
  destruct (step b0) as [[ok b1]| |]; cbn [bind] in *; try reflexivity.
  destruct ok; cbn [negb] in *; [|reflexivity].
  apply IH; [lia|exact H].
Qed.

Lemma validate_value_mono (fuel fuel' : nat) :
  (fuel <= fuel')%nat -> refines (validate_value fuel) (validate_value fuel').
Proof.
  revert fuel'. induction fuel as [|fuel IH]; intros fuel' Hle b H;
    [exfalso; apply H; reflexivity|].
  destruct fuel' as [|fuel']; [lia|].
  assert (Href : refines (validate_value fuel) (validate_value fuel'))
    by (apply IH; lia).
  cbn [validate_value] in *.
  destruct (validate_read_only b 1); cbn [negb] in *; [|reflexivity].
  destruct (read_buffer b 1) as [[bs b1]| |]; cbn [bind] in *; try reflexivity.
  destruct (enumerator (le_value bs)) as [[]|]; try reflexivity.
  - unfold validate_array in *.
    destruct (validate_uvarint b1) as [[len b2]| |]; cbn [bind] in *; try reflexivity.
    destruct len as [len|]; [|reflexivity].
    apply (validate_array_loop_mono _ _ Href); [lia|exact H].
  - unfold validate_obj in *.
    destruct (validate_uvarint b1) as [[len b2]| |]; cbn [bind] in *; try reflexivity.
    destruct len as [len|]; [|reflexivity].
    apply (validate_obj_loop_mono _ _ Href); [lia|exact H].
Qed.

Lemma bos_validate_fuel_enough (fuel : nat) (data : option (list byte)) (size : Z) :
  (region_length data < fuel)%nat ->
  bos_validate_fuel fuel data size <> OutOfFuel /\
  bos_validate_fuel fuel data size = bos_validate data size.
Proof.
  intros Hf. unfold bos_validate, bos_validate_fuel.
  destruct data as [region|]; [|split; [discriminate|reflexivity]].
  cbn [region_length] in *.
  destruct (size <? 5); [split; [discriminate|reflexivity]|].
  destruct (mem_read region 0 4) as [hdr|]; [|split; [discriminate|reflexivity]].
  destruct (_ || _); [split; [discriminate|reflexivity]|].
  destruct (buffer_init region) as [b| |] eqn:Hb; cbn [bind];
    [|split; [discriminate|reflexivity]|discriminate Hb ||
       (exfalso; unfold buffer_init in Hb;
        destruct (read_buffer _ 4) as [[? ?]| |] eqn:R; cbn [bind] in Hb;
        [discriminate|discriminate|exact (read_buffer_not_OutOfFuel _ _ R)])].
  apply buffer_init_Ret in Hb. destruct Hb as (Hd & Hp & _).
  assert (Hrem : (remaining b < S (length region))%nat)
    by (unfold remaining; rewrite Hd, Hp; lia).
  pose proof (validate_value_total (S (length region)) b Hrem) as Htot.
  rewrite (validate_value_mono (S (length region)) fuel) by (lia || exact Htot).
  split; [|reflexivity].
  destruct (validate_value (S (length region)) b) as [[ok b']| |]; cbn [bind];
    [discriminate|discriminate|exfalso; apply Htot; reflexivity].
Qed.

(** C10 fails on the code.  The bounds check of [validate_read] is there to
    make the budget [size - read] decrease, but it adds in 32 bits (the defect
    of C1).  At [wrapping_region] the budget does not decrease from one
    recursion into an array element to the next: the walk of the first element
    is entered with 10 bytes of budget and accepted with 16, the second
    element passes its bounds check, and its tag is read 4 GiB past the
    region, which the declared size no longer bounds; so [budget_decreases]
    is false. *)
Lemma budget_grows_at_wrapping_region :
  let b1 := {| data := wrapping_region; pos := 6; read := 6; size := 16 |} in
  let b2 := {| data := wrapping_region; pos := 4294967296; read := 0; size := 16 |} in
  (exists b0 tag,
      buffer_init wrapping_region = Ret b0 /\
      read_buffer b0 1 = Ret (tag, advance b0 1) /\
      validate_uvarint (advance b0 1) = Ret (Some 2, b1)) /\
  validate_value 1 b1 = Ret (TRUE, b2) /\
  size b1 - read b1 = 10 /\
  size b2 - read b2 = 16 /\
  validate_read_only b2 1 = TRUE /\
  read_buffer b2 1 = Fault /\
  bos_validate (Some wrapping_region) 16 = Fault /\
  ~ budget_decreases.
Proof.
  cbv zeta. split.
  - eexists. eexists. split; [reflexivity|]. split; reflexivity.
  - do 6 (split; [reflexivity|]).
    intros H.
    specialize (H 1%nat
                  {| data := wrapping_region; pos := 6; read := 6; size := 16 |}
                  {| data := wrapping_region; pos := 4294967296; read := 0; size := 16 |}).
    cbn [read size] in H.
    assert (Hlt : 16 - 0 < 16 - 6) by (apply H; [lia|lia|reflexivity]).
    lia.
Qed.

(** X17. The walk of [bos_validate] ends on every region: its outcome is an
    answer or a fault, never the exhaustion of the fuel, and it is the outcome
    for every larger amount of fuel.  The reason is the cursor position: a
    call of [validate_value] first reads the tag byte at the cursor, no step
    moves the cursor back, so an accepted call leaves fewer bytes of the
    region ahead, and a walk has more fuel than bytes ahead. *)
Theorem validate_terminates :
  forall (data : option (list byte)) (size : Z),
    bos_validate data size <> OutOfFuel /\
    (forall fuel, (region_length data < fuel)%nat ->
                  bos_validate_fuel fuel data size = bos_validate data size) /\
    (forall fuel, progress (validate_value fuel)) /\
    (forall fuel buffer, (remaining buffer < fuel)%nat ->
                         validate_value fuel buffer <> OutOfFuel).
Proof.
  intros data size. split; [|split; [|split]].
  - unfold bos_validate. apply bos_validate_fuel_enough. lia.
  - intros fuel Hf. apply bos_validate_fuel_enough. exact Hf.
  - exact validate_value_progress.
  - exact validate_value_total.
Qed.

(** ** Lengths the bounds check lets through *)

(** C1 fails on the code.  [validate_read] takes an [unsigned int] and adds
    it to [read] in 32 bits: a declared length of [2^32] is truncated to 0
    and one of [2^32 - 1] wraps the sum, so both buffers are accepted although
    the payload declared exceeds the declared size; the decoder then copies
    past the region, and on [wrapping_region] the validator itself does. *)
Theorem validate_accepts_oversized_length :
  bos_validate (Some oversized_string_64) 14 = Ret TRUE /\
  bos_deserialize oversized_string_64 [] = Fault /\
  bos_validate (Some oversized_string_32) 10 = Ret TRUE /\
  bos_deserialize oversized_string_32 [] = Fault /\
  bos_validate (Some wrapping_region) 16 = Fault.
Proof. repeat split; reflexivity. Qed.

(** ** Encodings *)

Example frame_hi :
  frame (WString [x68; x69]) = [x08; x00; x00; x00; x0c; x02; x68; x69].
Proof. reflexivity. Qed.

Example encode_uvarint_boundaries :
  encode_uvarint 252 = [xfc] /\
  encode_uvarint 253 = [xfd; xfd; x00] /\
  encode_uvarint 65535 = [xfd; xff; xff] /\
  encode_uvarint 65536 = [xfe; x00; x00; x01; x00] /\
  encode_uvarint 4294967295 = [xfe; xff; xff; xff; xff] /\
  encode_uvarint 4294967296 = [xff; x00; x00; x00; x00; x01; x00; x00; x00].
Proof. repeat split; reflexivity. Qed.

Lemma byte_val_byte_of (z : Z) : 0 <= z < 256 -> byte_val (byte_of z) = z.
Proof.
  intros Hz. unfold byte_of, byte_val.
  destruct (Byte.of_N (Z.to_N z)) as [b|] eqn:E.
  - apply Byte.to_of_N in E. rewrite E. lia.
  - apply Byte.of_N_None_iff in E. lia.
Qed.

Lemma byte_val_tag (t : bos_data_type) : byte_val (byte_of (tag_of t)) = tag_of t.
Proof. destruct t; reflexivity. Qed.

Lemma length_le_bytes (w : nat) (n : Z) : length (le_bytes w n) = w.
Proof. revert n. induction w as [|w IH]; intros n; cbn; [|rewrite IH]; reflexivity. Qed.

Lemma le_value_le_bytes (w : nat) (n : Z) :
  0 <= n < 256 ^ Z.of_nat w -> le_value (le_bytes w n) = n.
Proof.
  revert n. induction w as [|w IH]; intros n Hn.
  - cbn in *. lia.
  - cbn [le_bytes le_value].
    rewrite Nat2Z.inj_succ, Z.pow_succ_r in Hn by lia.
    rewrite byte_val_byte_of by (apply Z.mod_pos_bound; lia).
    rewrite IH.
    + pose proof (Z.div_mod n 256). lia.
    + split.
      * apply Z.div_pos; lia.
      * apply Z.div_lt_upper_bound; lia.
Qed.

Lemma cursor_at_advance (buffer : buffer_t) (pre bs rest : list byte) :
  cursor_at buffer pre (bs ++ rest) ->
  cursor_at (advance buffer (Z.of_nat (length bs))) (pre ++ bs) rest.
Proof.
  intros [Hd Hp]. unfold cursor_at. cbn [advance data pos].
  rewrite Hd, Hp, length_app, <- app_assoc. split; [reflexivity|lia].
Qed.

Lemma room_advance (buffer : buffer_t) (n m : Z) :
  room buffer (n + m) -> 0 <= n -> 0 <= m -> room (advance buffer n) m.
Proof.
  intros (Hr & Hle & Hs) Hn Hm. unfold room. cbn [advance read size].
  rewrite to_uint32_small by lia. lia.
Qed.

Lemma room_weaken (buffer : buffer_t) (n m : Z) :
  room buffer n -> m <= n -> room buffer m.
Proof. unfold room. lia. Qed.

Lemma read_buffer_cursor (buffer : buffer_t) (pre bs rest : list byte) (w : Z) :
  cursor_at buffer pre (bs ++ rest) ->
  Z.of_nat (length bs) = w -> w < 2 ^ 32 ->
  read_buffer buffer w = Ret (bs, advance buffer w).
Proof. intros [Hd Hp]. apply (read_buffer_at buffer pre bs rest w Hd Hp). Qed.

Lemma read_number_cursor (s : dstate) (pre bs rest : list byte) (w : Z) :
  cursor_at (buf s) pre (bs ++ rest) ->
  Z.of_nat (length bs) = w -> w < 2 ^ 32 ->
  read_number w s = Ret (le_value bs, advance_s s w).
Proof. intros [Hd Hp]. apply (read_number_at s pre bs rest w Hd Hp). Qed.

Lemma json_new_ok (v : json) (s : dstate) :
  heap s = [] -> json_new v s = Ret (Some v, s).
Proof.
  intros Hh. unfold json_new. rewrite Hh. destruct s as [b h e].
  cbn in *. subst h. reflexivity.
Qed.

Lemma jsonp_malloc_ok (s : dstate) :
  heap s = [] -> jsonp_malloc s = Ret (true, s).
Proof.
  intros Hh. unfold jsonp_malloc. rewrite Hh. destruct s as [b h e].
  cbn in *. subst h. reflexivity.
Qed.

Lemma encode_uvarint_cases (n : Z) :
  0 <= n < 2 ^ 64 ->
  (n <= 252 /\ encode_uvarint n = [byte_of n]) \/
  (exists t w,
      encode_uvarint n = t :: le_bytes w n /\ n < 256 ^ Z.of_nat w /\
      ((byte_val t = 253 /\ w = 2%nat) \/ (byte_val t = 254 /\ w = 4%nat) \/
       (byte_val t = 255 /\ w = 8%nat))).
Proof.
  intros Hn. unfold encode_uvarint.
  destruct (n <=? 252) eqn:E1; [left; apply Z.leb_le in E1; tauto|].
  right.
  destruct (n <=? 65535) eqn:E2.
  { apply Z.leb_le in E2. exists xfd, 2%nat. repeat split; [|left; split; reflexivity].
    change (256 ^ Z.of_nat 2) with 65536. lia. }
  destruct (n <=? 4294967295) eqn:E3.
  { apply Z.leb_le in E3. exists xfe, 4%nat.
    repeat split; [|right; left; split; reflexivity].
    change (256 ^ Z.of_nat 4) with 4294967296. lia. }
  exists xff, 8%nat. repeat split; [|right; right; split; reflexivity].
  change (256 ^ Z.of_nat 8) with (2 ^ 64). lia.
Qed.

Lemma length_encode_uvarint (n : Z) :
  1 <= Z.of_nat (length (encode_uvarint n)) <= 9.
Proof.
  unfold encode_uvarint.
  destruct (n <=? 252); [cbn; lia|].
  destruct (n <=? 65535); [cbn; lia|].
  destruct (n <=? 4294967295); cbn; lia.
Qed.

Lemma read_uvarint_encode (s : dstate) (pre rest : list byte) (n : Z) :
  cursor_at (buf s) pre (encode_uvarint n ++ rest) ->
  0 <= n < 2 ^ 64 ->
  read_uvarint s = Ret (n, advance_s s (Z.of_nat (length (encode_uvarint n)))).
Proof.
  intros [Hd Hp] Hn.
  destruct (encode_uvarint_cases n Hn) as [[Hs E]|(t & w & E & Hw & Hc)]; rewrite E in *.
  - rewrite (read_uvarint_short s pre rest (byte_of n) Hd Hp);
      rewrite byte_val_byte_of by lia; [reflexivity|lia].
  - rewrite (read_uvarint_wide s pre (le_bytes w n) rest t (Z.of_nat w) Hd Hp).
    + rewrite le_value_le_bytes by lia. cbn [length]. rewrite length_le_bytes.
      repeat f_equal. lia.
    + rewrite length_le_bytes. reflexivity.
    + destruct Hc as [[? ->]|[[? ->]|[? ->]]]; cbn; tauto.
Qed.

Lemma validate_uvarint_encode (buffer : buffer_t) (pre rest : list byte) (n : Z) :
  cursor_at buffer pre (encode_uvarint n ++ rest) ->
  0 <= n < 2 ^ 64 ->
  room buffer (Z.of_nat (length (encode_uvarint n))) ->
  validate_uvarint buffer
  = Ret (Some n, advance buffer (Z.of_nat (length (encode_uvarint n)))).
Proof.
  intros [Hd Hp] Hn (Hr & Hle & Hsz).
  destruct (encode_uvarint_cases n Hn) as [[Hs E]|(t & w & E & Hw & Hc)]; rewrite E in *.
  - cbn [length] in *.
    rewrite (validate_uvarint_short buffer pre rest (byte_of n) Hd Hp);
      rewrite ?byte_val_byte_of by lia; try lia. reflexivity.
  - cbn [length] in *. rewrite length_le_bytes in *.
    rewrite (validate_uvarint_wide buffer pre (le_bytes w n) rest t (Z.of_nat w) Hd Hp).
    + rewrite le_value_le_bytes by lia. repeat f_equal. lia.
    + rewrite length_le_bytes. reflexivity.
    + destruct Hc as [[? ->]|[[? ->]|[? ->]]]; cbn; tauto.
    + exact Hr.
    + exact Hsz.
    + lia.
Qed.

(** ** The validator accepts every valid encoding *)

Lemma advance_0 (buffer : buffer_t) :
  0 <= read buffer < 2 ^ 32 -> advance buffer 0 = buffer.
Proof.
  intros Hr. destruct buffer as [d p r sz]. unfold advance. cbn [data pos read size] in *.
  rewrite !Z.add_0_r, to_uint32_small by lia. reflexivity.
Qed.

Lemma validate_read_fits (buffer : buffer_t) (n : Z) :
  room buffer n -> 0 <= n ->
  validate_read buffer n = (TRUE, advance buffer n).
Proof.
  intros (Hr & Hle & Hs) Hn. unfold validate_read.
  rewrite (to_uint32_small n) by lia.
  replace (to_uint32 (read buffer + n) <=? size buffer) with true
    by (symmetry; apply Z.leb_le; rewrite to_uint32_small by lia; lia).
  reflexivity.
Qed.

Lemma length_in_concat {A B : Type} (f : A -> list B) (x : A) (xs : list A) :
  In x xs -> (length (f x) <= length (concat (map f xs)))%nat.
Proof.
  induction xs as [|y ys IH]; intros Hin; [contradiction|].
  cbn [map concat]. rewrite length_app. destruct Hin as [->|Hin]; [lia|].
  specialize (IH Hin). lia.
Qed.

Lemma length_concat_ge {A B : Type} (f : A -> list B) (xs : list A) :
  (forall x, (1 <= length (f x))%nat) ->
  (length xs <= length (concat (map f xs)))%nat.
Proof.
  intros Hf. induction xs as [|y ys IH]; [cbn; lia|].
  cbn [map concat length]. rewrite length_app. specialize (Hf y). lia.
Qed.

Lemma length_encode_pos (w : wire) : (1 <= length (encode w))%nat.
Proof. destruct w; cbn [encode length]; lia. Qed.

Lemma validate_string_encode (buffer : buffer_t) (pre rest payload : list byte) :
  cursor_at buffer pre (encode_key payload ++ rest) ->
  room buffer (Z.of_nat (length (encode_key payload))) ->
  validate_string buffer
  = Ret (TRUE, advance buffer (Z.of_nat (length (encode_key payload)))).
Proof.
  unfold encode_key. intros Hc Hroom.
  rewrite <- app_assoc in Hc. rewrite length_app, Nat2Z.inj_add in *.
  pose proof (length_encode_uvarint (Z.of_nat (length payload))) as Hlen.
  assert (Hn : 0 <= Z.of_nat (length payload) < 2 ^ 64)
    by (destruct Hroom as (? & ? & ?); lia).
  unfold validate_string.
  rewrite (validate_uvarint_encode buffer pre (payload ++ rest) _ Hc Hn)
    by (apply (room_weaken _ _ _ Hroom); lia).
  cbn [bind].
  apply cursor_at_advance in Hc.
  apply room_advance in Hroom; [|lia|lia].
  destruct (0 <? Z.of_nat (length payload)) eqn:E.
  - rewrite Z.mul_1_l, to_uint64_small by lia.
    rewrite (validate_read_fits _ _ Hroom) by lia.
    rewrite advance_advance. reflexivity.
  - apply Z.ltb_ge in E. assert (Z.of_nat (length payload) = 0) as -> by lia.
    rewrite Z.add_0_r. reflexivity.
Qed.

Lemma validate_array_loop_encode (step : validator) (items : list wire) :
  (forall item, In item items -> accepts step item) ->
  forall fuel i len buffer pre rest,
    cursor_at buffer pre (concat (map encode items) ++ rest) ->
    room buffer (Z.of_nat (length (concat (map encode items)))) ->
    0 <= i -> len = i + Z.of_nat (length items) -> len < 2 ^ 64 ->
    (length items <= fuel)%nat ->
    validate_array_loop step fuel i len buffer
    = Ret (TRUE, advance buffer (Z.of_nat (length (concat (map encode items))))).
Proof.
  induction items as [|item items IH];
    intros Hstep fuel i len buffer pre rest Hc Hroom Hi Hlen Hmax Hfuel.
  - cbn [length Z.of_nat] in Hlen. cbn [map concat length Z.of_nat].
    rewrite advance_0 by (destruct Hroom as (? & ? & ?); lia).
    destruct fuel; cbn [validate_array_loop];
      replace (i <? len) with false by (symmetry; apply Z.ltb_ge; lia); reflexivity.
  - cbn [length] in Hlen, Hfuel. rewrite Nat2Z.inj_succ in Hlen.
    destruct fuel as [|fuel]; [lia|].
    cbn [map concat] in *. rewrite length_app, Nat2Z.inj_add in *.
    rewrite <- app_assoc in Hc.
    cbn [validate_array_loop].
    replace (i <? len) with true by (symmetry; apply Z.ltb_lt; lia).
    rewrite (Hstep item (or_introl eq_refl) buffer pre _ Hc)
      by (apply (room_weaken _ _ _ Hroom); lia).
    cbn [bind negb].
    rewrite to_uint64_small by lia.
    rewrite (IH (fun x Hx => Hstep x (or_intror Hx)) fuel (i + 1) len
               _ (pre ++ encode item) rest); try lia.
    + rewrite advance_advance. reflexivity.
    + apply cursor_at_advance. exact Hc.
    + apply room_advance; [exact Hroom|lia|lia].
Qed.

Lemma validate_obj_loop_encode (step : validator) (entries : list (list byte * wire)) :
  (forall entry, In entry entries -> accepts step (snd entry)) ->
  forall fuel i len buffer pre rest,
    cursor_at buffer pre (concat (map encode_entry entries) ++ rest) ->
    room buffer (Z.of_nat (length (concat (map encode_entry entries)))) ->
    0 <= i -> len = i + Z.of_nat (length entries) -> len < 2 ^ 64 ->
    (length entries <= fuel)%nat ->
    validate_obj_loop step fuel i len buffer
    = Ret (TRUE, advance buffer (Z.of_nat (length (concat (map encode_entry entries))))).
Proof.
  induction entries as [|entry entries IH];
    intros Hstep fuel i len buffer pre rest Hc Hroom Hi Hlen Hmax Hfuel.
  - cbn [length Z.of_nat] in Hlen. cbn [map concat length Z.of_nat].
    rewrite advance_0 by (destruct Hroom as (? & ? & ?); lia).
    destruct fuel; cbn [validate_obj_loop];
      replace (i <? len) with false by (symmetry; apply Z.ltb_ge; lia); reflexivity.
  - cbn [length] in Hlen, Hfuel. rewrite Nat2Z.inj_succ in Hlen.
    destruct fuel as [|fuel]; [lia|].
    cbn [map concat] in *. unfold encode_entry at 1 in Hc.
    unfold encode_entry at 1 in Hroom. unfold encode_entry at 1.
    rewrite !length_app, !Nat2Z.inj_add in *.
    rewrite <- !app_assoc in Hc.
    cbn [validate_obj_loop].
    replace (i <? len) with true by (symmetry; apply Z.ltb_lt; lia).
    rewrite (validate_string_encode buffer pre _ (fst entry) Hc)
      by (apply (room_weaken _ _ _ Hroom); lia).
    cbn [bind negb].
    pose proof (cursor_at_advance _ _ _ _ Hc) as Hc1.
    assert (Hroom1 : room (advance buffer (Z.of_nat (length (encode_key (fst entry)))))
                       (Z.of_nat (length (encode (snd entry)))
                        + Z.of_nat (length (concat (map encode_entry entries)))))
      by (apply room_advance; [rewrite Z.add_assoc; exact Hroom|lia|lia]).
    rewrite (Hstep entry (or_introl eq_refl) _ _ _ Hc1)
      by (apply (room_weaken _ _ _ Hroom1); lia).
    cbn [bind negb].
    rewrite to_uint64_small by lia.
    rewrite (IH (fun x Hx => Hstep x (or_intror Hx)) fuel (i + 1) len
               _ ((pre ++ encode_key (fst entry)) ++ encode (snd entry)) rest); try lia.
    + rewrite !advance_advance. first [reflexivity | repeat f_equal; lia].
    + apply cursor_at_advance. exact Hc1.
    + apply room_advance; [exact Hroom1|lia|lia].
Qed.

Lemma encode_array_eq (items : list wire) :
  encode (WArray items)
  = [byte_of (tag_of BOS_ARRAY)]
      ++ encode_uvarint (Z.of_nat (length items)) ++ concat (map encode items).
Proof. reflexivity. Qed.

Lemma encode_object_eq (entries : list (list byte * wire)) :
  encode (WObject entries)
  = [byte_of (tag_of BOS_OBJ)]
      ++ encode_uvarint (Z.of_nat (length entries)) ++ concat (map encode_entry entries).
Proof. reflexivity. Qed.

Lemma encode_string_eq (payload : list byte) :
  encode (WString payload) = [byte_of (tag_of BOS_STRING)] ++ encode_key payload.
Proof. reflexivity. Qed.

Lemma encode_bytes_eq (payload : list byte) :
  encode (WBytes payload) = [byte_of (tag_of BOS_BYTES)] ++ encode_key payload.
Proof. reflexivity. Qed.

Lemma encode_fixed_eq (t : bos_data_type) (payload : list byte) :
  encode (WFixed t payload) = [byte_of (tag_of t)] ++ payload.
Proof. reflexivity. Qed.

(** The first step of [validate_value]: the tag byte [t] at the cursor. *)
Lemma validate_value_tag (fuel : nat) (buffer : buffer_t) (pre body rest : list byte)
    (t : bos_data_type) :
  cursor_at buffer pre (([byte_of (tag_of t)] ++ body) ++ rest) ->
  room buffer (1 + Z.of_nat (length body)) ->
  validate_read_only buffer 1 = TRUE /\
  read_buffer buffer 1 = Ret ([byte_of (tag_of t)], advance buffer 1) /\
  enumerator (le_value [byte_of (tag_of t)]) = Some t /\
  cursor_at (advance buffer 1) (pre ++ [byte_of (tag_of t)]) (body ++ rest) /\
  room (advance buffer 1) (Z.of_nat (length body)).
Proof.
  intros Hc Hroom. rewrite <- app_assoc in Hc.
  split; [|split; [|split; [|split]]].
  - destruct Hroom as (? & ? & ?). apply validate_read_only_true; lia.
  - apply (read_buffer_cursor buffer pre [byte_of (tag_of t)] (body ++ rest) 1 Hc);
      [reflexivity|lia].
  - rewrite le_value_single, byte_val_tag. apply enumerator_tag_of.
  - apply (cursor_at_advance buffer pre [byte_of (tag_of t)] (body ++ rest) Hc).
  - apply room_advance; [exact Hroom|lia|lia].
Qed.

Lemma validate_value_encode (fuel : nat) :
  forall w, well_formed w = true -> (length (encode w) <= fuel)%nat ->
            accepts (validate_value fuel) w.
Proof.
  induction fuel as [|fuel IH]; intros w Hwf Hf;
    [pose proof (length_encode_pos w); lia|].
  intros buffer pre rest Hc Hroom.
  destruct w as [t payload|payload|payload|items|entries].
  - rewrite encode_fixed_eq in *. rewrite length_app, Nat2Z.inj_add in *.
    change (Z.of_nat (length [byte_of (tag_of t)])) with 1 in *.
    destruct (validate_value_tag fuel buffer pre payload rest t Hc Hroom)
      as (H1 & H2 & H3 & Hc1 & Hr1).
    cbn [validate_value]. rewrite H1. cbn [negb]. rewrite H2. cbn [bind]. rewrite H3.
    cbn [well_formed] in Hwf.
    destruct (fixed_width t) as [width|] eqn:Hw; [|discriminate].
    apply Nat.eqb_eq in Hwf.
    destruct t; cbn [fixed_width] in Hw; try discriminate; injection Hw as <-;
      try (rewrite (validate_read_fits (advance buffer 1)) by
              (first [lia | apply (room_weaken _ _ _ Hr1); lia]);
           rewrite advance_advance);
      rewrite Hwf; reflexivity.
  - rewrite encode_string_eq in *. rewrite length_app, Nat2Z.inj_add in *.
    change (Z.of_nat (length [byte_of (tag_of BOS_STRING)])) with 1 in *.
    destruct (validate_value_tag fuel buffer pre _ rest BOS_STRING Hc Hroom)
      as (H1 & H2 & H3 & Hc1 & Hr1).
    cbn [validate_value]. rewrite H1. cbn [negb]. rewrite H2. cbn [bind]. rewrite H3.
    rewrite (validate_string_encode _ _ _ _ Hc1 Hr1), advance_advance. reflexivity.
  - rewrite encode_bytes_eq in *. rewrite length_app, Nat2Z.inj_add in *.
    change (Z.of_nat (length [byte_of (tag_of BOS_BYTES)])) with 1 in *.
    destruct (validate_value_tag fuel buffer pre _ rest BOS_BYTES Hc Hroom)
      as (H1 & H2 & H3 & Hc1 & Hr1).
    cbn [validate_value]. rewrite H1. cbn [negb]. rewrite H2. cbn [bind]. rewrite H3.
    change validate_bytes with validate_string.
    rewrite (validate_string_encode _ _ _ _ Hc1 Hr1), advance_advance. reflexivity.
  - rewrite encode_array_eq in *. rewrite !length_app, !Nat2Z.inj_add in *.
    change (Z.of_nat (length [byte_of (tag_of BOS_ARRAY)])) with 1 in *.
    rewrite <- Nat2Z.inj_add, <- length_app in Hroom.
    destruct (validate_value_tag fuel buffer pre _ rest BOS_ARRAY Hc Hroom)
      as (H1 & H2 & H3 & Hc1 & Hr1).
    cbn [validate_value]. rewrite H1. cbn [negb]. rewrite H2. cbn [bind]. rewrite H3.
    rewrite length_app, Nat2Z.inj_add in Hr1. rewrite <- app_assoc in Hc1.
    pose proof (length_encode_uvarint (Z.of_nat (length items))) as Hlv.
    pose proof (length_concat_ge encode items length_encode_pos) as Hli.
    assert (Hn : 0 <= Z.of_nat (length items) < 2 ^ 64)
      by (destruct Hr1 as (? & ? & ?); lia).
    unfold validate_array.
    rewrite (validate_uvarint_encode _ _ _ _ Hc1 Hn)
      by (apply (room_weaken _ _ _ Hr1); lia).
    cbn [bind].
    cbn [length] in Hf.
    rewrite (validate_array_loop_encode (validate_value fuel) items) with
      (pre := (pre ++ [byte_of (tag_of BOS_ARRAY)])
                ++ encode_uvarint (Z.of_nat (length items))) (rest := rest);
      try lia.
    + rewrite !advance_advance. reflexivity.
    + intros item Hin. apply IH.
      * cbn [well_formed] in Hwf. rewrite forallb_forall in Hwf. apply Hwf, Hin.
      * pose proof (length_in_concat encode item items Hin). lia.
    + apply cursor_at_advance. exact Hc1.
    + apply room_advance; [exact Hr1|lia|lia].
  - rewrite encode_object_eq in *. rewrite !length_app, !Nat2Z.inj_add in *.
    change (Z.of_nat (length [byte_of (tag_of BOS_OBJ)])) with 1 in *.
    rewrite <- Nat2Z.inj_add, <- length_app in Hroom.
    destruct (validate_value_tag fuel buffer pre _ rest BOS_OBJ Hc Hroom)
      as (H1 & H2 & H3 & Hc1 & Hr1).
    cbn [validate_value]. rewrite H1. cbn [negb]. rewrite H2. cbn [bind]. rewrite H3.
    rewrite length_app, Nat2Z.inj_add in Hr1. rewrite <- app_assoc in Hc1.
    pose proof (length_encode_uvarint (Z.of_nat (length entries))) as Hlv.
    assert (Hli : (length entries <= length (concat (map encode_entry entries)))%nat).
    { apply length_concat_ge. intros entry. unfold encode_entry.
      rewrite length_app. pose proof (length_encode_pos (snd entry)). lia. }
    assert (Hn : 0 <= Z.of_nat (length entries) < 2 ^ 64)
      by (destruct Hr1 as (? & ? & ?); lia).
    unfold validate_obj.
    rewrite (validate_uvarint_encode _ _ _ _ Hc1 Hn)
      by (apply (room_weaken _ _ _ Hr1); lia).
    cbn [bind].
    cbn [length] in Hf.
    rewrite (validate_obj_loop_encode (validate_value fuel) entries) with
      (pre := (pre ++ [byte_of (tag_of BOS_OBJ)])
                ++ encode_uvarint (Z.of_nat (length entries))) (rest := rest);
      try lia.
    + rewrite !advance_advance. reflexivity.
    + intros entry Hin. apply IH.
      * cbn [well_formed] in Hwf. rewrite forallb_forall in Hwf. apply (Hwf entry Hin).
      * pose proof (length_in_concat encode_entry entry entries Hin) as Hle.
        unfold encode_entry at 1 in Hle. rewrite length_app in Hle. lia.
    + apply cursor_at_advance. exact Hc1.
    + apply room_advance; [exact Hr1|lia|lia].
Qed.

(** ** The decoder on valid encodings *)

Lemma calm_advance (s : dstate) (n : Z) : calm s -> calm (advance_s s n).
Proof.
  intros [Hh Hr]. split; [exact Hh|]. cbn [advance_s advance buf read].
  apply to_uint32_range.
Qed.

Lemma advance_s_0 (s : dstate) : calm s -> advance_s s 0 = s.
Proof.
  intros [_ Hr]. unfold advance_s. rewrite advance_0 by exact Hr.
  destruct s; reflexivity.
Qed.

Lemma read_data_type_tag (s : dstate) (pre body rest : list byte) (t : bos_data_type) :
  cursor_at (buf s) pre (([byte_of (tag_of t)] ++ body) ++ rest) ->
  read_data_type s = Ret (tag_of t, advance_s s 1) /\
  cursor_at (buf (advance_s s 1)) (pre ++ [byte_of (tag_of t)]) (body ++ rest).
Proof.
  intros Hc. rewrite <- app_assoc in Hc. split.
  - unfold read_data_type, mbind.
    rewrite (read_number_cursor s pre [byte_of (tag_of t)] (body ++ rest) 1 Hc)
      by (reflexivity || lia).
    rewrite le_value_single, byte_val_tag. destruct t; reflexivity.
  - apply (cursor_at_advance (buf s) pre [byte_of (tag_of t)] (body ++ rest) Hc).
Qed.

Lemma in_block_end (len : Z) : in_block len len 1 = false.
Proof.
  unfold in_block.
  replace (len + 1 <=? len) with false by (symmetry; apply Z.leb_gt; lia).
  apply andb_false_r.
Qed.

(** [read_raw_string] never returns a string that has a byte: the terminator
    is written one byte past the block. *)
Lemma read_raw_string_nonempty (s : dstate) (len : Z) (s1 : dstate) :
  read_uvarint s = Ret (len, s1) -> 0 < len ->
  forall r s', read_raw_string s <> Ret (r, s').
Proof.
  intros Hv Hl r s'. unfold read_raw_string. unfold mbind at 1. rewrite Hv.
  replace (0 <? len) with true by (symmetry; apply Z.ltb_lt; exact Hl).
  unfold mbind at 1. destruct (jsonp_malloc s1) as [[[|] s2]| |]; try discriminate.
  unfold mbind. destruct (on_buffer _ s2) as [[bytes s3]| |]; try discriminate.
  rewrite Z.mul_1_l, in_block_end. discriminate.
Qed.

Lemma read_raw_string_encode (s : dstate) (pre rest payload : list byte) :
  cursor_at (buf s) pre (encode_key payload ++ rest) ->
  calm s ->
  Z.of_nat (length (encode_key payload)) < 2 ^ 32 ->
  read_raw_string s
  = match payload with
    | [] => Ret ([x00], advance_s s 1)
    | _ :: _ => Fault
    end.
Proof.
  unfold encode_key. intros Hc Hcalm Hlen.
  rewrite <- app_assoc in Hc. rewrite length_app, Nat2Z.inj_add in *.
  pose proof (length_encode_uvarint (Z.of_nat (length payload))) as Hlv.
  unfold read_raw_string. unfold mbind at 1.
  rewrite (read_uvarint_encode s pre (payload ++ rest) _ Hc) by lia.
  apply (cursor_at_advance (buf s)) in Hc.
  destruct payload as [|b payload]; [reflexivity|].
  replace (0 <? Z.of_nat (length (b :: payload))) with true
    by (symmetry; apply Z.ltb_lt; cbn [length]; lia).
  unfold mbind at 1.
  rewrite jsonp_malloc_ok by (apply calm_advance; exact Hcalm).
  unfold mbind. rewrite Z.mul_1_l.
  unfold on_buffer.
  rewrite (read_buffer_cursor _ _ (b :: payload) rest _ Hc) by (reflexivity || lia).
  rewrite in_block_end. reflexivity.
Qed.

Lemma plain_object_eq (entries : list (list byte * wire)) :
  plain (WObject entries) = forallb plain_entry entries.
Proof. reflexivity. Qed.

Lemma read_array_loop_decodes (read_child : M json_ptr) (items : list wire) :
  (forall item, In item items -> decodes read_child item) ->
  forall fuel i len acc s pre rest,
    cursor_at (buf s) pre (concat (map encode items) ++ rest) ->
    calm s ->
    Z.of_nat (length (concat (map encode items))) < 2 ^ 32 ->
    0 <= i -> len = i + Z.of_nat (length items) -> len < 2 ^ 32 ->
    (length items <= fuel)%nat ->
    read_array_loop read_child fuel i len (Some (JArray acc)) s
    = if forallb plain items
      then Ret (Some (JArray (acc ++ map decoded items)),
                advance_s s (Z.of_nat (length (concat (map encode items)))))
      else Fault.
Proof.
  induction items as [|item items IH];
    intros Hchild fuel i len acc s pre rest Hc Hcalm Hsz Hi Hlen Hmax Hfuel.
  - cbn [length Z.of_nat] in Hlen. cbn [map concat length Z.of_nat forallb].
    rewrite advance_s_0, app_nil_r by exact Hcalm.
    destruct fuel; cbn [read_array_loop];
      replace (i <? len) with false by (symmetry; apply Z.ltb_ge; lia); reflexivity.
  - cbn [length] in Hlen, Hfuel. rewrite Nat2Z.inj_succ in Hlen.
    destruct fuel as [|fuel]; [lia|].
    cbn [map concat forallb] in *. rewrite length_app, Nat2Z.inj_add in *.
    rewrite <- app_assoc in Hc.
    cbn [read_array_loop].
    replace (i <? len) with true by (symmetry; apply Z.ltb_lt; lia).
    rewrite (Hchild item (or_introl eq_refl) s pre _ Hc Hcalm) by lia.
    destruct (plain item); cbn [andb]; [|reflexivity].
    rewrite to_uint32_small by lia. cbn [json_array_append].
    rewrite (IH (fun x Hx => Hchild x (or_intror Hx)) fuel (i + 1) len
               _ _ (pre ++ encode item) rest); try lia.
    + rewrite advance_s_advance_s, <- app_assoc. reflexivity.
    + apply (cursor_at_advance (buf s)). exact Hc.
    + apply calm_advance. exact Hcalm.
Qed.

Lemma read_obj_loop_decodes (read_child : M json_ptr) (entries : list (list byte * wire)) :
  (forall entry, In entry entries -> decodes read_child (snd entry)) ->
  forall fuel i len acc s pre rest,
    cursor_at (buf s) pre (concat (map encode_entry entries) ++ rest) ->
    calm s ->
    Z.of_nat (length (concat (map encode_entry entries))) < 2 ^ 32 ->
    0 <= i -> len = i + Z.of_nat (length entries) -> len < 2 ^ 32 ->
    (length entries <= fuel)%nat ->
    read_obj_loop read_child fuel i len (Some (JObject acc)) s
    = if forallb plain_entry entries
      then Ret (Some (JObject (fold_left set_member (map decoded_entry entries) acc)),
                advance_s s (Z.of_nat (length (concat (map encode_entry entries)))))
      else Fault.
Proof.
  induction entries as [|entry entries IH];
    intros Hchild fuel i len acc s pre rest Hc Hcalm Hsz Hi Hlen Hmax Hfuel.
  - cbn [length Z.of_nat] in Hlen. cbn [map concat length Z.of_nat fold_left forallb].
    rewrite advance_s_0 by exact Hcalm.
    destruct fuel; cbn [read_obj_loop];
      replace (i <? len) with false by (symmetry; apply Z.ltb_ge; lia); reflexivity.
  - cbn [length] in Hlen, Hfuel. rewrite Nat2Z.inj_succ in Hlen.
    destruct fuel as [|fuel]; [lia|].
    cbn [map concat fold_left forallb] in *. unfold encode_entry at 1 in Hc.
    unfold encode_entry at 1 in Hsz. unfold encode_entry at 1.
    rewrite !length_app, !Nat2Z.inj_add in *.
    rewrite <- !app_assoc in Hc.
    cbn [read_obj_loop].
    replace (i <? len) with true by (symmetry; apply Z.ltb_lt; lia).
    rewrite (read_raw_string_encode s pre _ (fst entry) Hc Hcalm) by lia.
    pose proof (cursor_at_advance (buf s) _ _ _ Hc) as Hc1.
    pose proof (Hchild entry (or_introl eq_refl)) as Hentry.
    unfold plain_entry at 1. unfold decoded_entry at 1.
    destruct entry as [key value]. cbn [fst snd] in *.
    destruct key as [|b key]; [|reflexivity].
    change (Z.of_nat (length (encode_key []))) with 1 in *.
    pose proof (calm_advance s 1 Hcalm) as Hcalm1.
    rewrite (Hentry (advance_s s 1) _ _ Hc1 Hcalm1) by lia.
    destruct (plain value); cbn [andb]; [|reflexivity].
    rewrite to_uint32_small by lia.
    change (json_object_set (Some (JObject acc)) [x00] (decoded value))
      with (Some (JObject (members_set [] (decoded value) acc))).
    rewrite (IH (fun x Hx => Hchild x (or_intror Hx)) fuel (i + 1) len
               _ _ ((pre ++ encode_key []) ++ encode value) rest);
      try lia.
    + rewrite !advance_s_advance_s, Z.add_assoc. reflexivity.
    + apply (cursor_at_advance (buf (advance_s s _))). exact Hc1.
    + apply calm_advance. exact Hcalm1.
Qed.

Lemma cursor_at_advance_s (s : dstate) (pre bs rest : list byte) :
  cursor_at (buf s) pre (bs ++ rest) ->
  cursor_at (buf (advance_s s (Z.of_nat (length bs)))) (pre ++ bs) rest.
Proof. apply cursor_at_advance. Qed.

Lemma on_buffer_read_cursor (s : dstate) (pre bs rest : list byte) (w : Z) :
  cursor_at (buf s) pre (bs ++ rest) ->
  Z.of_nat (length bs) = w -> w < 2 ^ 32 ->
  on_buffer (fun buffer => read_buffer buffer w) s = Ret (bs, advance_s s w).
Proof.
  intros Hc Hw Hlt. unfold on_buffer.
  rewrite (read_buffer_cursor _ _ bs rest w Hc Hw Hlt). reflexivity.
Qed.

(** What [read_value] does with the encoding of a well-formed value. *)
Lemma read_value_decodes (fuel : nat) :
  forall w, well_formed w = true -> (length (encode w) <= fuel)%nat ->
            decodes (read_value fuel) w.
Proof.
  induction fuel as [|fuel IH]; intros w Hwf Hf;
    [pose proof (length_encode_pos w); lia|].
  intros s pre rest Hc Hcalm Hsz.
  pose proof (calm_advance s 1 Hcalm) as Hcalm1.
  destruct w as [t payload|payload|payload|items|entries].
  - rewrite encode_fixed_eq in *. rewrite length_app, Nat2Z.inj_add in *.
    change (Z.of_nat (length [byte_of (tag_of t)])) with 1 in *.
    destruct (read_data_type_tag s pre payload rest t Hc) as [Ht Hc1].
    cbn [read_value plain]. unfold mbind at 1. rewrite Ht.
    unfold read_data. rewrite enumerator_tag_of.
    cbn [well_formed] in Hwf.
    destruct (fixed_width t) as [width|] eqn:Hw; [|discriminate].
    apply Nat.eqb_eq in Hwf. cbn [decoded].
    destruct t; cbn [fixed_width] in Hw; try discriminate; injection Hw as <-;
      rewrite Hwf;
      [ reflexivity | .. ];
      unfold read_bool, read_int8, read_int16, read_int32, read_int64,
        read_uint8, read_uint16, read_uint32, read_uint64, read_real32, read_real64,
        mbind;
      rewrite (read_number_cursor (advance_s s 1) _ payload rest _ Hc1)
        by (first [rewrite Hwf; reflexivity | lia]);
      rewrite advance_s_advance_s;
      unfold decoded_fixed, json_integer, json_real, json_true, json_false, ret;
      try (destruct (le_value payload =? 0); reflexivity);
      rewrite json_new_ok by (apply calm_advance; exact Hcalm);
      reflexivity.
  - rewrite encode_string_eq in *. rewrite length_app, Nat2Z.inj_add in *.
    change (Z.of_nat (length [byte_of (tag_of BOS_STRING)])) with 1 in *.
    destruct (read_data_type_tag s pre _ rest BOS_STRING Hc) as [Ht Hc1].
    cbn [read_value plain]. unfold mbind at 1. rewrite Ht.
    unfold read_data. rewrite enumerator_tag_of.
    unfold read_string, mbind.
    rewrite (read_raw_string_encode (advance_s s 1) _ rest payload Hc1 Hcalm1) by lia.
    destruct payload as [|b payload]; [|reflexivity].
    rewrite advance_s_advance_s. unfold json_string.
    change (utf8_check (c_string [x00])) with true. cbn match.
    rewrite json_new_ok by (apply calm_advance; exact Hcalm). reflexivity.
  - rewrite encode_bytes_eq in *. rewrite length_app, Nat2Z.inj_add in *.
    change (Z.of_nat (length [byte_of (tag_of BOS_BYTES)])) with 1 in *.
    destruct (read_data_type_tag s pre _ rest BOS_BYTES Hc) as [Ht Hc1].
    cbn [read_value plain]. unfold mbind at 1. rewrite Ht.
    unfold read_data. rewrite enumerator_tag_of.
    unfold encode_key in *. rewrite length_app, Nat2Z.inj_add in *.
    rewrite <- app_assoc in Hc1.
    pose proof (length_encode_uvarint (Z.of_nat (length payload))) as Hlv.
    unfold read_bytes. unfold mbind at 1.
    rewrite (read_uvarint_encode (advance_s s 1) _ (payload ++ rest) _ Hc1) by lia.
    rewrite advance_s_advance_s. unfold mbind at 1.
    rewrite jsonp_malloc_ok by (apply calm_advance; exact Hcalm).
    cbn [orb]. unfold mbind.
    apply cursor_at_advance_s in Hc1. rewrite advance_s_advance_s in Hc1.
    rewrite (on_buffer_read_cursor _ _ payload rest _ Hc1) by (reflexivity || lia).
    rewrite advance_s_advance_s.
    unfold json_bytes. rewrite Nat2Z.id, firstn_all.
    rewrite json_new_ok by (apply calm_advance; exact Hcalm).
    cbn [decoded]. rewrite Z.add_assoc. reflexivity.
  - rewrite encode_array_eq in *. rewrite !length_app, !Nat2Z.inj_add in *.
    change (Z.of_nat (length [byte_of (tag_of BOS_ARRAY)])) with 1 in *.
    destruct (read_data_type_tag s pre _ rest BOS_ARRAY Hc) as [Ht Hc1].
    cbn [read_value plain]. unfold mbind at 1. rewrite Ht.
    unfold read_data. rewrite enumerator_tag_of.
    rewrite <- app_assoc in Hc1.
    pose proof (length_encode_uvarint (Z.of_nat (length items))) as Hlv.
    pose proof (length_concat_ge encode items length_encode_pos) as Hli.
    unfold read_array. unfold mbind at 1.
    rewrite (read_uvarint_encode (advance_s s 1) _ _ _ Hc1) by lia.
    rewrite advance_s_advance_s. unfold mbind at 1. unfold json_array.
    rewrite json_new_ok by (apply calm_advance; exact Hcalm).
    cbn [length] in Hf.
    apply (cursor_at_advance (buf (advance_s s 1))) in Hc1.
    cbn [advance_s buf] in Hc1. rewrite advance_advance in Hc1.
    rewrite (read_array_loop_decodes (read_value fuel) items) with
      (pre := (pre ++ [byte_of (tag_of BOS_ARRAY)])
                ++ encode_uvarint (Z.of_nat (length items))) (rest := rest);
      try lia.
    + destruct (forallb plain items); [|reflexivity].
      rewrite advance_s_advance_s, Z.add_assoc. reflexivity.
    + intros item Hin. apply IH.
      * cbn [well_formed] in Hwf. rewrite forallb_forall in Hwf. apply Hwf, Hin.
      * pose proof (length_in_concat encode item items Hin). lia.
    + exact Hc1.
    + apply calm_advance. exact Hcalm.
  - rewrite encode_object_eq in *. rewrite !length_app, !Nat2Z.inj_add in *.
    change (Z.of_nat (length [byte_of (tag_of BOS_OBJ)])) with 1 in *.
    destruct (read_data_type_tag s pre _ rest BOS_OBJ Hc) as [Ht Hc1].
    cbn [read_value]. rewrite plain_object_eq. unfold mbind at 1. rewrite Ht.
    unfold read_data. rewrite enumerator_tag_of.
    rewrite <- app_assoc in Hc1.
    pose proof (length_encode_uvarint (Z.of_nat (length entries))) as Hlv.
    assert (Hli : (length entries <= length (concat (map encode_entry entries)))%nat).
    { apply length_concat_ge. intros entry. unfold encode_entry.
      rewrite length_app. pose proof (length_encode_pos (snd entry)). lia. }
    unfold read_obj. unfold mbind at 1.
    rewrite (read_uvarint_encode (advance_s s 1) _ _ _ Hc1) by lia.
    rewrite advance_s_advance_s. unfold mbind at 1. unfold json_object.
    rewrite json_new_ok by (apply calm_advance; exact Hcalm).
    cbn [length] in Hf.
    apply (cursor_at_advance (buf (advance_s s 1))) in Hc1.
    cbn [advance_s buf] in Hc1. rewrite advance_advance in Hc1.
    rewrite (read_obj_loop_decodes (read_value fuel) entries) with
      (pre := (pre ++ [byte_of (tag_of BOS_OBJ)])
                ++ encode_uvarint (Z.of_nat (length entries))) (rest := rest);
      try lia.
    + destruct (forallb plain_entry entries); [|reflexivity].
      rewrite advance_s_advance_s, Z.add_assoc. reflexivity.
    + intros entry Hin. apply IH.
      * cbn [well_formed] in Hwf. rewrite forallb_forall in Hwf. apply (Hwf entry Hin).
      * pose proof (length_in_concat encode_entry entry entries Hin) as Hle.
        unfold encode_entry at 1 in Hle. rewrite length_app in Hle. lia.
    + exact Hc1.
    + apply calm_advance. exact Hcalm.
Qed.

(** A plain value is read whole. *)
Lemma read_value_encode (fuel : nat) :
  forall w, well_formed w = true -> plain w = true ->
            (length (encode w) <= fuel)%nat ->
            reads (read_value fuel) w.
Proof.
  intros w Hwf Hp Hf s pre rest Hc Hcalm Hsz.
  rewrite (read_value_decodes fuel w Hwf Hf s pre rest Hc Hcalm Hsz), Hp.
  reflexivity.
Qed.

(** ** Whole buffers *)

Lemma frame_header (w : wire) :
  4 + Z.of_nat (length (encode w)) < 2 ^ 32 ->
  length (le_bytes 4 (4 + Z.of_nat (length (encode w)))) = 4%nat /\
  le_value (le_bytes 4 (4 + Z.of_nat (length (encode w))))
  = 4 + Z.of_nat (length (encode w)) /\
  Z.of_nat (length (frame w)) = 4 + Z.of_nat (length (encode w)).
Proof.
  intros Hsz. split; [apply length_le_bytes|]. split.
  - apply le_value_le_bytes. change (256 ^ Z.of_nat 4) with (2 ^ 32). lia.
  - unfold frame. rewrite length_app, length_le_bytes. lia.
Qed.

Lemma bos_validate_frame (w : wire) :
  valid_wire w ->
  bos_validate (Some (frame w)) (Z.of_nat (length (frame w))) = Ret TRUE.
Proof.
  intros [Hwf Hsz]. destruct (frame_header w Hsz) as (Hl & Hv & Hf).
  pose proof (length_encode_pos w) as Hpos.
  unfold bos_validate, bos_validate_fuel. cbn [region_length].
  replace (Z.of_nat (length (frame w)) <? 5) with false
    by (symmetry; apply Z.ltb_ge; lia).
  rewrite mem_read_header by lia.
  assert (Hfirst : firstn 4 (frame w) = le_bytes 4 (4 + Z.of_nat (length (encode w)))).
  { unfold frame. rewrite firstn_app, firstn_all2 by lia.
    rewrite Hl. cbn [Nat.sub firstn]. apply app_nil_r. }
  rewrite Hfirst, Hv.
  replace (4 + Z.of_nat (length (encode w)) <? 5) with false
    by (symmetry; apply Z.ltb_ge; lia).
  replace (Z.of_nat (length (frame w)) <? 4 + Z.of_nat (length (encode w))) with false
    by (symmetry; apply Z.ltb_ge; lia).
  cbn [orb]. unfold frame. rewrite (buffer_init_at _ _ Hl). cbn [bind].
  rewrite (validate_value_encode _ w Hwf) with
    (pre := le_bytes 4 (4 + Z.of_nat (length (encode w)))) (rest := []).
  - reflexivity.
  - rewrite length_app. lia.
  - split; cbn [data pos]; [rewrite app_nil_r; reflexivity|rewrite Hl; reflexivity].
  - unfold room. cbn [read size]. lia.
Qed.

Lemma bos_deserialize_frame (w : wire) :
  valid_wire w ->
  bos_deserialize (frame w) []
  = if plain w then Ret (Some (decoded w), None) else Fault.
Proof.
  intros [Hwf Hsz]. destruct (frame_header w Hsz) as (Hl & Hv & Hf).
  pose proof (length_encode_pos w) as Hpos.
  unfold bos_deserialize, frame. rewrite (buffer_init_at _ _ Hl).
  cbn [bind size]. rewrite Hv.
  replace (4 + Z.of_nat (length (encode w)) <? 5) with false
    by (symmetry; apply Z.ltb_ge; lia).
  rewrite (read_value_decodes _ w Hwf) with
    (pre := le_bytes 4 (4 + Z.of_nat (length (encode w)))) (rest := []).
  - destruct (plain w); reflexivity.
  - rewrite length_app. lia.
  - split; cbn [buf data pos]; [rewrite app_nil_r; reflexivity|rewrite Hl; reflexivity].
  - split; cbn [heap buf read]; [reflexivity|lia].
  - lia.
Qed.

(** A string or key that has a byte, whatever the allocator does: the copy
    goes through NULL, or the terminator is written past the block. *)
Lemma read_raw_string_faults (s : dstate) (pre rest payload : list byte) :
  cursor_at (buf s) pre (encode_key payload ++ rest) ->
  payload <> [] -> Z.of_nat (length payload) < 2 ^ 32 ->
  read_raw_string s = Fault.
Proof.
  unfold encode_key. intros Hc Hne Hlen. rewrite <- app_assoc in Hc.
  assert (Hpos : 0 < Z.of_nat (length payload))
    by (destruct payload; [congruence|cbn [length]; lia]).
  unfold read_raw_string. unfold mbind at 1.
  rewrite (read_uvarint_encode s pre _ _ Hc) by lia.
  replace (0 <? Z.of_nat (length payload)) with true by (symmetry; apply Z.ltb_lt; lia).
  apply (cursor_at_advance (buf s)) in Hc.
  unfold mbind at 1. unfold jsonp_malloc.
  destruct (alloc (heap (advance_s s _))) as [[|] heap']; [|reflexivity].
  unfold mbind, on_buffer. cbn [buf advance_s]. rewrite Z.mul_1_l.
  rewrite (read_buffer_cursor _ _ payload rest _ Hc) by (reflexivity || lia).
  rewrite in_block_end. reflexivity.
Qed.

(** C2 fails on the code.  [bos_validate] answers TRUE on every valid
    encoded buffer (the envelope around the encoding of a well-formed wire
    value, of a total size that fits the 32-bit header), but [bos_deserialize],
    the allocations being granted, returns the value only when no string and
    no object key of it has a byte.  [read_raw_string] asks for a block of
    [len] bytes and writes the terminator at index [len], one byte past it:
    on every other valid buffer the decoder writes outside the block, and on a
    string that has a byte whatever the allocator does; whatever the region,
    [read_raw_string] never returns a string of a length above 0.  The string
    "hi" of the third scenario of the specification is such a buffer. *)
Theorem deserialize_writes_past_string_block :
  forall (w : wire),
    valid_wire w ->
    bos_validate (Some (frame w)) (Z.of_nat (length (frame w))) = Ret TRUE /\
    bos_deserialize (frame w) []
    = (if plain w then Ret (Some (decoded w), None) else Fault) /\
    (forall payload heap,
        w = WString payload -> payload <> [] ->
        bos_deserialize (frame w) heap = Fault) /\
    (forall s len s1 r s',
        read_uvarint s = Ret (len, s1) -> 0 < len ->
        read_raw_string s <> Ret (r, s')) /\
    frame (WString [x68; x69]) = [x08; x00; x00; x00; x0c; x02; x68; x69].
Proof.
  intros w Hv.
  split; [exact (bos_validate_frame w Hv)|].
  split; [exact (bos_deserialize_frame w Hv)|].
  split; [|split; [|reflexivity]].
  2: { intros s len s1 r s' Hlen Hpos. exact (read_raw_string_nonempty s len s1 Hlen Hpos r s'). }
  intros payload heap -> Hne. destruct Hv as [_ Hsz].
  destruct (frame_header _ Hsz) as (Hl & Hval & Hf).
  rewrite encode_string_eq, length_app in Hsz. unfold encode_key in Hsz.
  rewrite length_app in Hsz. cbn [length] in Hsz.
  unfold bos_deserialize, frame. rewrite (buffer_init_at _ _ Hl).
  cbn [bind size]. rewrite Hval.
  replace (4 + Z.of_nat (length (encode (WString payload))) <? 5) with false
    by (symmetry; apply Z.ltb_ge; pose proof (length_encode_pos (WString payload)); lia).
  set (s0 := {| buf := _; heap := heap; error := None |}).
  assert (Hc : cursor_at (buf s0)
                 (le_bytes 4 (4 + Z.of_nat (length (encode (WString payload)))))
                 (([byte_of (tag_of BOS_STRING)] ++ encode_key payload) ++ []))
    by (split; cbn [s0 buf data pos];
        [rewrite app_nil_r; reflexivity|rewrite Hl; reflexivity]).
  destruct (read_data_type_tag s0 _ _ [] BOS_STRING Hc) as [Ht Hc1].
  cbn [read_value]. unfold mbind at 1. rewrite Ht.
  unfold read_data. rewrite enumerator_tag_of.
  unfold read_string, mbind.
  rewrite (read_raw_string_faults _ _ _ _ Hc1 Hne) by lia. reflexivity.
Qed.

Lemma bytes_eqb_eq (a b : list byte) : bytes_eqb a b = true <-> a = b.
Proof.
  unfold bytes_eqb. destruct (list_eq_dec Byte.byte_eq_dec a b) as [E|N].
  - split; [intros _; exact E|reflexivity].
  - split; [discriminate|intros E; contradiction].
Qed.

Lemma bytes_eqb_refl (a : list byte) : bytes_eqb a a = true.
Proof. apply bytes_eqb_eq. reflexivity. Qed.

Lemma members_get_set (key k : list byte) (v : json) (members : list (list byte * json)) :
  members_get key (members_set k v members)
  = if bytes_eqb k key then Some v else members_get key members.
Proof.
  induction members as [|[k0 v0] members IH]; cbn [members_set members_get].
  - reflexivity.
  - destruct (bytes_eqb k0 k) eqn:E0; cbn [members_get].
    + apply bytes_eqb_eq in E0. subst k0.
      destruct (bytes_eqb k key); reflexivity.
    + rewrite IH. destruct (bytes_eqb k0 key) eqn:E1; [|reflexivity].
      apply bytes_eqb_eq in E1. subst k0.
      destruct (bytes_eqb k key) eqn:E2; [|reflexivity].
      apply bytes_eqb_eq in E2. subst k. rewrite bytes_eqb_refl in E0. discriminate.
Qed.

Lemma members_set_keys (key k : list byte) (v : json) (members : list (list byte * json)) :
  In key (map fst (members_set k v members)) ->
  key = k \/ In key (map fst members).
Proof.
  induction members as [|[k0 v0] members IH]; cbn [members_set map fst In].
  - intros [H|[]]. left. symmetry. exact H.
  - destruct (bytes_eqb k0 k); cbn [map fst In].
    + intros H. right. exact H.
    + intros [H|H]; [right; left; exact H|].
      destruct (IH H) as [Hk|Hin]; [left; exact Hk|right; right; exact Hin].
Qed.

Lemma members_set_NoDup (k : list byte) (v : json) (members : list (list byte * json)) :
  NoDup (map fst members) -> NoDup (map fst (members_set k v members)).
Proof.
  induction members as [|[k0 v0] members IH]; cbn [members_set map fst]; intros Hnd.
  - constructor; [intros []|constructor].
  - inversion Hnd as [|x xs Hnotin Hrest]; subst.
    destruct (bytes_eqb k0 k) eqn:E; cbn [map fst].
    + constructor; assumption.
    + constructor; [|apply IH; exact Hrest].
      intros Hin. apply members_set_keys in Hin. destruct Hin as [Hk|Hin].
      * subst k0. rewrite bytes_eqb_refl in E. discriminate.
      * exact (Hnotin Hin).
Qed.

Lemma fold_set_member_get (key : list byte) (entries acc : list (list byte * json)) :
  members_get key (fold_left set_member entries acc)
  = fold_left (fun found entry =>
                 if bytes_eqb (fst entry) key then Some (snd entry) else found)
              entries (members_get key acc).
Proof.
  revert acc. induction entries as [|entry entries IH]; intros acc; cbn [fold_left].
  - reflexivity.
  - rewrite IH. unfold set_member. rewrite members_get_set. reflexivity.
Qed.

Lemma fold_set_member_NoDup (entries acc : list (list byte * json)) :
  NoDup (map fst acc) -> NoDup (map fst (fold_left set_member entries acc)).
Proof.
  revert acc. induction entries as [|entry entries IH]; intros acc Hnd; cbn [fold_left].
  - exact Hnd.
  - apply IH. unfold set_member. apply members_set_NoDup. exact Hnd.
Qed.

(** C7 fails on the code.  Neither walk looks at the keys: the validator
    answers TRUE, and [read_obj] performs one set-key per entry in encoded
    order on an object that starts empty, so that the object decoded has
    every key once, bound to the value of the last entry with that key.  But
    the key comes from [read_raw_string], which writes its terminator one
    byte past the block of a key that has a byte: the object is returned only
    when every key is empty (and the values are plain), and with two entries
    of the same key that has a byte the decoder writes outside the block
    before any set-key. *)
Theorem duplicate_keys_write_past_block :
  forall (entries : list (list byte * wire)),
    valid_wire (WObject entries) ->
    let members := fold_left set_member (map decoded_entry entries) [] in
    bos_validate (Some (frame (WObject entries)))
      (Z.of_nat (length (frame (WObject entries)))) = Ret TRUE /\
    bos_deserialize (frame (WObject entries)) []
    = (if forallb plain_entry entries
       then Ret (Some (JObject members), None) else Fault) /\
    NoDup (map fst members) /\
    (forall key,
        members_get key members = last_binding key (map decoded_entry entries)) /\
    (forall key v1 v2,
        key <> [] -> entries = [(key, v1); (key, v2)] ->
        bos_deserialize (frame (WObject entries)) [] = Fault) /\
    (forall v1 v2,
        entries = [([], v1); ([], v2)] -> members = [([], decoded v2)]).
Proof.
  intros entries Hv members.
  pose proof (bos_deserialize_frame _ Hv) as Hd.
  rewrite plain_object_eq in Hd. cbn [decoded] in Hd.
  change (map (fun entry => (c_string (fst entry ++ [x00]), decoded (snd entry))) entries)
    with (map decoded_entry entries) in Hd.
  split; [exact (bos_validate_frame _ Hv)|].
  split; [exact Hd|].
  split; [apply fold_set_member_NoDup; constructor|].
  split; [intros key; apply fold_set_member_get|].
  split.
  - intros key v1 v2 Hne ->. rewrite Hd.
    destruct key as [|b key]; [congruence|reflexivity].
  - intros v1 v2 ->. reflexivity.
Qed.

(** ** Failure of a child read *)

Lemma to_uint32_succ (i : Z) : 0 <= i -> 0 <= to_uint32 (i + 1) <= i + 1.
Proof.
  intros Hi. unfold to_uint32. split.
  - apply Z.mod_pos_bound. lia.
  - apply Z.mod_le; lia.
Qed.

Lemma read_array_loop_fails (read_child : M json_ptr) (len : Z)
    (s : dstate) (done : list json) (t : dstate) :
  reads_children read_child s done t ->
  forall fuel i array t',
    0 <= i -> i + Z.of_nat (length done) < len -> (length done < fuel)%nat ->
    read_child t = Ret (None, t') ->
    read_array_loop read_child fuel i len array s = Ret (None, t').
Proof.
  induction 1 as [s|s s1 s2 entry entries Hentry Hrest IH];
    intros fuel i array t' Hi Hlen Hfuel Hfail;
    cbn [length] in Hlen, Hfuel; (destruct fuel as [|fuel]; [lia|]);
    cbn [read_array_loop].
  - replace (i <? len) with true by (symmetry; apply Z.ltb_lt; lia).
    rewrite Hfail. reflexivity.
  - rewrite Nat2Z.inj_succ in Hlen.
    replace (i <? len) with true by (symmetry; apply Z.ltb_lt; lia).
    rewrite Hentry. pose proof (to_uint32_succ i Hi).
    apply IH; [lia|lia|lia|exact Hfail].
Qed.

Lemma read_obj_loop_fails (read_child : M json_ptr) (len : Z)
    (s : dstate) (done : list (list byte * json)) (t : dstate) :
  reads_entries read_child s done t ->
  forall fuel i object key t0 t',
    0 <= i -> i + Z.of_nat (length done) < len -> (length done < fuel)%nat ->
    read_raw_string t = Ret (key, t0) ->
    read_child t0 = Ret (None, t') ->
    read_obj_loop read_child fuel i len object s = Ret (None, t').
Proof.
  induction 1 as [s|s s0 s1 s2 k entry entries Hkey Hentry Hrest IH];
    intros fuel i object key t0 t' Hi Hlen Hfuel Hk Hfail;
    cbn [length] in Hlen, Hfuel; (destruct fuel as [|fuel]; [lia|]);
    cbn [read_obj_loop].
  - replace (i <? len) with true by (symmetry; apply Z.ltb_lt; lia).
    rewrite Hk, Hfail. reflexivity.
  - rewrite Nat2Z.inj_succ in Hlen.
    replace (i <? len) with true by (symmetry; apply Z.ltb_lt; lia).
    rewrite Hkey, Hentry. pose proof (to_uint32_succ i Hi).
    apply (IH fuel _ _ key t0 t'); [lia|lia|lia|exact Hk|exact Hfail].
Qed.

Lemma json_new_granted (v : json) (s : dstate) (heap' : heap_t) :
  heap s = true :: heap' ->
  json_new v s = Ret (Some v, {| buf := buf s; heap := heap'; error := error s |}).
Proof. intros Hh. unfold json_new. rewrite Hh. reflexivity. Qed.

(** An integer that is refused its allocation under [n] arrays: every one
    of the arrays returns NULL. *)
Lemma nested_failure (n : nat) (b : byte) :
  forall fuel s pre rest,
    cursor_at (buf s) pre (encode (nest n (WFixed BOS_INT8 [b])) ++ rest) ->
    heap s = repeat true n ++ [false] ->
    (n < fuel)%nat ->
    read_value fuel s
    = Ret (None,
           {| buf := advance (buf s)
                       (Z.of_nat (length (encode (nest n (WFixed BOS_INT8 [b])))));
              heap := []; error := error s |}).
Proof.
  induction n as [|n IH]; intros fuel s pre rest Hc Hh Hf;
    (destruct fuel as [|fuel]; [lia|]); cbn [nest] in *.
  - destruct (read_data_type_tag s pre [b] rest BOS_INT8 Hc) as [Ht Hc1].
    cbn [read_value]. unfold mbind at 1. rewrite Ht.
    unfold read_data. rewrite enumerator_tag_of.
    unfold read_int8, mbind.
    rewrite (read_number_cursor (advance_s s 1) _ [b] rest 1 Hc1)
      by (reflexivity || lia).
    unfold json_integer, json_new. cbn [advance_s heap buf error].
    rewrite Hh. cbn [repeat app alloc]. rewrite advance_advance. reflexivity.
  - rewrite encode_array_eq in *.
    destruct (read_data_type_tag s pre _ rest BOS_ARRAY Hc) as [Ht Hc1].
    cbn [read_value]. unfold mbind at 1. rewrite Ht.
    unfold read_data. rewrite enumerator_tag_of.
    rewrite <- app_assoc in Hc1. cbn [length Z.of_nat Pos.of_succ_nat] in Hc1.
    unfold read_array. unfold mbind at 1.
    rewrite (read_uvarint_encode (advance_s s 1) _ _ _ Hc1) by lia.
    apply (cursor_at_advance (buf (advance_s s 1))) in Hc1.
    unfold mbind at 1. unfold json_array.
    erewrite json_new_granted by (cbn [advance_s heap]; rewrite Hh; reflexivity).
    destruct fuel as [|fuel]; [lia|].
    cbn [read_array_loop]. change (0 <? 1) with true. cbn match.
    cbn [map concat advance_s buf error heap] in *.
    destruct Hc1 as [Hd1 Hp1].
    erewrite (IH (S fuel) _ _ rest);
      [|split; [cbn [buf]; rewrite Hd1, app_nil_r; reflexivity|exact Hp1]
       |reflexivity|lia].
    cbn [buf error]. rewrite !advance_advance.
    rewrite app_nil_r, !length_app, !Nat2Z.inj_add. reflexivity.
Qed.

(** C8. When a child read returns NULL, [read_array] and [read_obj] return
    NULL at once: whatever the count [len] read, whatever children were read
    before (the values [done], fewer than [len]) and whatever was built from
    them, the reader returns NULL in the state the failing child left, with no
    further read.  The child reader of a container met by [read_value] is
    [read_value] itself, so a failure climbs every level: an integer refused
    its allocation under [n] arrays makes every one of them, and
    [bos_deserialize], return NULL. *)
Theorem container_fails_with_child :
  forall (read_child : M json_ptr) (fuel : nat) (s s1 : dstate) (len : Z),
    read_uvarint s = Ret (len, s1) ->
    (forall array s2 done t t',
        json_array s1 = Ret (array, s2) ->
        reads_children read_child s2 done t ->
        Z.of_nat (length done) < len -> (length done < fuel)%nat ->
        read_child t = Ret (None, t') ->
        read_array read_child fuel s = Ret (None, t')) /\
    (forall object s2 done t key t0 t',
        json_object s1 = Ret (object, s2) ->
        reads_entries read_child s2 done t ->
        Z.of_nat (length done) < len -> (length done < fuel)%nat ->
        read_raw_string t = Ret (key, t0) ->
        read_child t0 = Ret (None, t') ->
        read_obj read_child fuel s = Ret (None, t')) /\
    (forall n b f s0 pre rest,
        cursor_at (buf s0) pre (encode (nest n (WFixed BOS_INT8 [b])) ++ rest) ->
        heap s0 = repeat true n ++ [false] ->
        (n < f)%nat ->
        read_value f s0
        = Ret (None,
               {| buf := advance (buf s0)
                           (Z.of_nat (length (encode (nest n (WFixed BOS_INT8 [b])))));
                  heap := []; error := error s0 |})) /\
    bos_deserialize nested_array_region [true; true; false] = Ret (None, None).
Proof.
  intros read_child fuel s s1 len Hlen.
  split; [|split; [|split]].
  - intros array s2 done t t' Ha Hdone Hlt Hfuel Hfail.
    unfold read_array. unfold mbind at 1. rewrite Hlen.
    unfold mbind. rewrite Ha.
    apply (read_array_loop_fails read_child len s2 done t Hdone); [lia|lia|exact Hfuel|exact Hfail].
  - intros object s2 done t key t0 t' Ho Hdone Hlt Hfuel Hk Hfail.
    unfold read_obj. unfold mbind at 1. rewrite Hlen.
    unfold mbind. rewrite Ho.
    apply (read_obj_loop_fails read_child len s2 done t Hdone _ _ _ key t0 t');
      [lia|lia|exact Hfuel|exact Hk|exact Hfail].
  - intros n b. apply nested_failure.
  - reflexivity.
Qed.

(** ** The theorems at concrete inputs *)

(** C2 at [sample_wire], which holds the string "hi". *)
Lemma deserialize_writes_past_string_block_witness :
  valid_wire sample_wire /\
  bos_validate (Some (frame sample_wire)) (Z.of_nat (length (frame sample_wire)))
  = Ret TRUE /\
  bos_deserialize (frame sample_wire) [] = Fault.
Proof.
  assert (Hv : valid_wire sample_wire) by (split; reflexivity).
  split; [exact Hv|].
  destruct (deserialize_writes_past_string_block sample_wire Hv) as (H1 & H2 & _).
  split; [exact H1|exact H2].
Defined.

(** C3 at the tag 0x10 on top of a 5-byte buffer. *)
Lemma unknown_tag_asymmetry_witness :
  15 < byte_val x10 /\
  bos_deserialize [x05; x00; x00; x00; x10] [] = Ret (Some JNull, None) /\
  bos_validate (Some [x05; x00; x00; x00; x10]) 5 = Ret FALSE.
Proof.
  assert (Ht : 15 < byte_val x10) by reflexivity.
  split; [exact Ht|].
  destruct (proj2 (unknown_tag_asymmetry x10 Ht) [x05; x00; x00; x00] [] []
              eq_refl ltac:(cbn; lia)) as [Hd Hv].
  split; [exact Hd|exact (Hv 5)].
Defined.

(** C4 at the bytes FD FD 00. *)
Lemma uvarint_decoding_witness :
  read_uvarint varint_state = Ret (253, advance_s varint_state 3) /\
  validate_uvarint (buf varint_state) = Ret (Some 253, advance (buf varint_state) 3).
Proof.
  destruct (uvarint_decoding varint_state [] [xfd; x00] [] xfd eq_refl eq_refl)
    as (_ & H2 & _).
  destruct (H2 eq_refl eq_refl) as (Hr & _ & Hv).
  split; [exact Hr|].
  apply Hv. cbn. lia.
Defined.

(** C5 at a buffer of 4 bytes whose header claims 5. *)
Lemma bos_validate_entry_checks_witness :
  bos_validate (Some [x05; x00; x00; x00]) 4 = Ret FALSE.
Proof.
  refine (proj2 (bos_validate_entry_checks 0 [x05; x00; x00; x00] 4 _)).
  left. lia.
Defined.

(** C6 at the walk of the string "hi". *)
Lemma cursor_invariant_witness :
  cursor_inv hi_buffer /\
  validate_value 1 hi_buffer = Ret (TRUE, advance hi_buffer 4) /\
  cursor_inv (advance hi_buffer 4).
Proof.
  assert (Hi : cursor_inv hi_buffer) by (unfold cursor_inv; cbn; lia).
  assert (Hv : validate_value 1 hi_buffer = Ret (TRUE, advance hi_buffer 4))
    by reflexivity.
  split; [exact Hi|]. split; [exact Hv|].
  exact (proj1 (proj1 (cursor_invariant 1 hi_buffer TRUE _ Hi Hv))).
Defined.

(** C7 at [sample_entries], the key "a" twice. *)
Lemma duplicate_keys_write_past_block_witness :
  valid_wire (WObject sample_entries) /\
  bos_validate (Some (frame (WObject sample_entries)))
    (Z.of_nat (length (frame (WObject sample_entries)))) = Ret TRUE /\
  bos_deserialize (frame (WObject sample_entries)) [] = Fault.
Proof.
  assert (Hv : valid_wire (WObject sample_entries)) by (split; reflexivity).
  split; [exact Hv|].
  destruct (duplicate_keys_write_past_block sample_entries Hv) as (H1 & H2 & _).
  split; [exact H1|exact H2].
Defined.

(** C8 at an array of a Null and an integer and at an object of one entry,
    the integer refused its allocation. *)
Lemma container_fails_with_child_witness :
  read_uvarint failing_element_state = Ret (2, advance_s failing_element_state 1) /\
  read_array (read_value 1) 2 failing_element_state
  = Ret (None, {| buf := advance (buf failing_element_state) 4;
                  heap := []; error := None |}) /\
  read_uvarint failing_entry_state = Ret (1, advance_s failing_entry_state 1) /\
  read_obj (read_value 1) 1 failing_entry_state
  = Ret (None, {| buf := advance (buf failing_entry_state) 4;
                  heap := []; error := None |}).
Proof.
  assert (Ha : read_uvarint failing_element_state
               = Ret (2, advance_s failing_element_state 1)) by reflexivity.
  assert (Ho : read_uvarint failing_entry_state
               = Ret (1, advance_s failing_entry_state 1)) by reflexivity.
  split; [exact Ha|]. split; [|split; [exact Ho|]].
  - eapply (proj1 (container_fails_with_child (read_value 1) 2
                     failing_element_state _ 2 Ha)).
    + reflexivity.
    + eapply children_next; [reflexivity|apply children_none].
    + cbn. lia.
    + cbn. lia.
    + reflexivity.
  - eapply (proj1 (proj2 (container_fails_with_child (read_value 1) 1
                            failing_entry_state _ 1 Ho))).
    + reflexivity.
    + apply entries_none.
    + cbn. lia.
    + cbn. lia.
    + reflexivity.
    + reflexivity.
Defined.

(** C9 at a length byte 0 that ends the region. *)
Lemma empty_string_and_bytes_witness :
  read_uvarint empty_string_state = Ret (0, advance_s empty_string_state 1) /\
  read_raw_string empty_string_state = Ret ([x00], advance_s empty_string_state 1).
Proof.
  assert (Hv : read_uvarint empty_string_state = Ret (0, advance_s empty_string_state 1))
    by reflexivity.
  split; [exact Hv|].
  exact (proj1 (empty_string_and_bytes _ _ Hv)).
Defined.

(** X17 at [wrapping_region]. *)
Lemma validate_terminates_witness :
  bos_validate (Some wrapping_region) 16 <> OutOfFuel /\
  bos_validate_fuel 100 (Some wrapping_region) 16 = bos_validate (Some wrapping_region) 16.
Proof.
  destruct (validate_terminates (Some wrapping_region) 16) as (H1 & H2 & _).
  split; [exact H1|].
  apply H2. cbn. lia.
Defined.

(** * Further properties of the code *)

(** ** Buffers whose declared size is not the size of the value *)

Lemma envelope_header (h : Z) (body : list byte) :
  0 <= h < 2 ^ 32 ->
  length (le_bytes 4 h) = 4%nat /\ le_value (le_bytes 4 h) = h /\
  firstn 4 (envelope h body) = le_bytes 4 h /\
  (4 <= length (envelope h body))%nat.
Proof.
  intros Hh. pose proof (length_le_bytes 4 h) as Hl.
  split; [exact Hl|]. split.
  - apply le_value_le_bytes. change (256 ^ Z.of_nat 4) with (2 ^ 32). exact Hh.
  - unfold envelope. split.
    + rewrite firstn_app, firstn_all2 by lia.
      rewrite Hl. cbn [Nat.sub firstn]. apply app_nil_r.
    + rewrite length_app. lia.
Qed.

Lemma bos_validate_envelope (w : wire) (h given : Z) (rest : list byte) :
  well_formed w = true ->
  4 + Z.of_nat (length (encode w)) <= h -> h < 2 ^ 32 -> h <= given ->
  bos_validate (Some (envelope h (encode w ++ rest))) given = Ret TRUE.
Proof.
  intros Hwf Hfit Hh Hsize.
  pose proof (length_encode_pos w) as Hpos.
  destruct (envelope_header h (encode w ++ rest)) as (Hl & Hv & Hfirst & Hlen); [lia|].
  unfold bos_validate, bos_validate_fuel. cbn [region_length].
  replace (given <? 5) with false by (symmetry; apply Z.ltb_ge; lia).
  rewrite mem_read_header by exact Hlen.
  rewrite Hfirst, Hv.
  replace (h <? 5) with false by (symmetry; apply Z.ltb_ge; lia).
  replace (given <? h) with false by (symmetry; apply Z.ltb_ge; lia).
  cbn [orb]. unfold envelope. rewrite (buffer_init_at _ _ Hl). cbn [bind].
  rewrite (validate_value_encode _ w Hwf) with (pre := le_bytes 4 h) (rest := rest).
  - reflexivity.
  - rewrite !length_app. lia.
  - split; cbn [data pos]; [reflexivity|rewrite Hl; reflexivity].
  - unfold room. cbn [read size]. rewrite Hv. lia.
Qed.

Lemma bos_deserialize_envelope (w : wire) (h : Z) (rest : list byte) :
  well_formed w = true ->
  5 <= h < 2 ^ 32 -> Z.of_nat (length (encode w)) < 2 ^ 32 ->
  bos_deserialize (envelope h (encode w ++ rest)) []
  = if plain w then Ret (Some (decoded w), None) else Fault.
Proof.
  intros Hwf Hh Hsz.
  destruct (envelope_header h (encode w ++ rest)) as (Hl & Hv & _ & _); [lia|].
  unfold bos_deserialize, envelope. rewrite (buffer_init_at _ _ Hl).
  cbn [bind size]. rewrite Hv.
  replace (h <? 5) with false by (symmetry; apply Z.ltb_ge; lia).
  rewrite (read_value_decodes _ w Hwf) with (pre := le_bytes 4 h) (rest := rest).
  - destruct (plain w); reflexivity.
  - rewrite !length_app. lia.
  - split; cbn [buf data pos]; [reflexivity|rewrite Hl; reflexivity].
  - split; cbn [heap buf read]; [reflexivity|lia].
  - exact Hsz.
Qed.

(** X1. Neither walk requires the value to end where the declared size
    ends: a well-formed value followed by any trailing bytes, all of them
    inside the declared size, is accepted by [bos_validate], and
    [bos_deserialize] does with it what it does without the trailing bytes,
    which it leaves unread: it returns the value when no string and no key of
    it has a byte, and writes past the block of one that has. *)
Theorem trailing_bytes_accepted :
  forall (w : wire) (trailing : list byte),
    well_formed w = true ->
    4 + Z.of_nat (length (encode w)) + Z.of_nat (length trailing) < 2 ^ 32 ->
    let h := 4 + Z.of_nat (length (encode w)) + Z.of_nat (length trailing) in
    let region := envelope h (encode w ++ trailing) in
    Z.of_nat (length region) = h /\
    bos_validate (Some region) (Z.of_nat (length region)) = Ret TRUE /\
    bos_deserialize region []
    = (if plain w then Ret (Some (decoded w), None) else Fault) /\
    bos_deserialize region [] = bos_deserialize (frame w) [].
Proof.
  intros w trailing Hwf Hsz h region.
  pose proof (length_encode_pos w) as Hpos.
  assert (Hlen : Z.of_nat (length region) = h).
  { unfold region, envelope. rewrite !length_app, length_le_bytes. lia. }
  assert (Hd : bos_deserialize region []
               = if plain w then Ret (Some (decoded w), None) else Fault)
    by (apply bos_deserialize_envelope; [exact Hwf|lia|lia]).
  split; [exact Hlen|]. split; [|split; [exact Hd|]].
  - rewrite Hlen. apply bos_validate_envelope; [exact Hwf|lia|lia|lia].
  - rewrite Hd. symmetry. apply bos_deserialize_frame. split; [exact Hwf|lia].
Qed.

(** ** The envelope accessor *)

(** X2. [bos_sizeof] returns the header value, which for a framed value is
    the length of the buffer; and whenever [bos_validate] accepts a buffer,
    [bos_sizeof] of it lies between 5 and the byte count the caller gave. *)
Theorem bos_sizeof_of_validated :
  forall (data : option (list byte)) (given : Z),
    bos_validate data given = Ret TRUE ->
    (exists n, bos_sizeof data = Ret n /\ 5 <= n <= given /\ n < 2 ^ 32) /\
    (forall w, valid_wire w ->
               bos_sizeof (Some (frame w)) = Ret (Z.of_nat (length (frame w)))).
Proof.
  intros data given Hv. split.
  - unfold bos_validate, bos_validate_fuel in Hv. unfold bos_sizeof.
    destruct data as [region|]; [|discriminate].
    destruct (given <? 5) eqn:E5; [discriminate|].
    destruct (mem_read region 0 4) as [hdr|] eqn:Hm; [|discriminate].
    destruct (le_value hdr <? 5) eqn:Eh; [discriminate|].
    destruct (given <? le_value hdr) eqn:Eg; [discriminate|].
    apply Z.ltb_ge in Eh, Eg.
    apply mem_read_Some in Hm. destruct Hm as (_ & _ & _ & Hl).
    pose proof (le_value_range hdr) as Hr. rewrite Hl in Hr.
    exists (le_value hdr). split; [reflexivity|]. lia.
  - intros w [_ Hsz]. destruct (frame_header w Hsz) as (Hl & Hval & Hf).
    unfold bos_sizeof.
    destruct (envelope_header (4 + Z.of_nat (length (encode w))) (encode w))
      as (_ & _ & Hfirst & Hlen); [lia|].
    change (envelope (4 + Z.of_nat (length (encode w))) (encode w)) with (frame w)
      in Hfirst, Hlen.
    rewrite mem_read_header by exact Hlen.
    rewrite Hfirst, Hval, Hf. reflexivity.
Qed.

(** ** Varints *)

(** X3. Round trip of the varint: for every 64-bit value the shortest form
    (1 byte up to 252, 3 up to 65535, 5 up to [2^32 - 1], 9 above) is read
    back by [read_uvarint] as that value, with exactly the bytes of the form
    consumed, and by [validate_uvarint] too where the form fits under the
    declared size. *)
Theorem uvarint_round_trip :
  forall (n : Z) (s : dstate) (pre rest : list byte),
    0 <= n < 2 ^ 64 ->
    cursor_at (buf s) pre (encode_uvarint n ++ rest) ->
    let len := Z.of_nat (length (encode_uvarint n)) in
    read_uvarint s = Ret (n, advance_s s len) /\
    (room (buf s) len ->
     validate_uvarint (buf s) = Ret (Some n, advance (buf s) len)) /\
    len = (if n <=? 252 then 1 else if n <=? 65535 then 3
           else if n <=? 4294967295 then 5 else 9).
Proof.
  intros n s pre rest Hn Hc len. split; [|split].
  - apply (read_uvarint_encode s pre rest n Hc Hn).
  - intros Hroom. apply (validate_uvarint_encode (buf s) pre rest n Hc Hn Hroom).
  - unfold len, encode_uvarint.
    destruct (n <=? 252); [reflexivity|].
    destruct (n <=? 65535); [reflexivity|].
    destruct (n <=? 4294967295); reflexivity.
Qed.

(** X4. The decoders do not insist on the shortest form: a value written in
    any of the 2, 4 or 8 byte forms wide enough to hold it is read as that
    value, so 5 is read from 05 and also from FD 05 00. *)
Theorem uvarint_wider_forms_accepted :
  forall (n : Z) (flag : byte) (w : nat) (s : dstate) (pre rest : list byte),
    (byte_val flag = 253 /\ w = 2%nat) \/ (byte_val flag = 254 /\ w = 4%nat) \/
    (byte_val flag = 255 /\ w = 8%nat) ->
    0 <= n < 256 ^ Z.of_nat w ->
    cursor_at (buf s) pre ((flag :: le_bytes w n) ++ rest) ->
    read_uvarint s = Ret (n, advance_s s (1 + Z.of_nat w)) /\
    (room (buf s) (1 + Z.of_nat w) ->
     validate_uvarint (buf s) = Ret (Some n, advance (buf s) (1 + Z.of_nat w))) /\
    decode_uvarint [x05] = Ret (5, 1) /\
    decode_uvarint [xfd; x05; x00] = Ret (5, 3).
Proof.
  intros n flag w s pre rest Hcase Hn [Hd Hp].
  assert (Hcase' : (byte_val flag = 253 /\ Z.of_nat w = 2) \/
                   (byte_val flag = 254 /\ Z.of_nat w = 4) \/
                   (byte_val flag = 255 /\ Z.of_nat w = 8))
    by (destruct Hcase as [[? ->]|[[? ->]|[? ->]]]; cbn; tauto).
  split; [|split; [|split; reflexivity]].
  - rewrite (read_uvarint_wide s pre (le_bytes w n) rest flag (Z.of_nat w) Hd Hp);
      [|rewrite length_le_bytes; reflexivity|exact Hcase'].
    rewrite le_value_le_bytes by exact Hn. reflexivity.
  - intros (Hr & Hle & Hs).
    rewrite (validate_uvarint_wide (buf s) pre (le_bytes w n) rest flag (Z.of_nat w) Hd Hp);
      [|rewrite length_le_bytes; reflexivity|exact Hcase'|exact Hr|exact Hs|lia].
    rewrite le_value_le_bytes by exact Hn. reflexivity.
Qed.

(** ** Fixed-width integers *)

Lemma to_signed_mod (bits v : Z) :
  0 < bits -> - 2 ^ (bits - 1) <= v < 2 ^ (bits - 1) ->
  to_signed bits (v mod 2 ^ bits) = v.
Proof.
  intros Hb Hv. unfold to_signed.
  assert (Hpow : 2 ^ bits = 2 * 2 ^ (bits - 1)).
  { replace bits with (Z.succ (bits - 1)) at 1 by lia. apply Z.pow_succ_r. lia. }
  assert (Hpos : 0 < 2 ^ (bits - 1)) by (apply Z.pow_pos_nonneg; lia).
  rewrite Z.mod_mod by lia.
  destruct (Z_lt_le_dec v 0) as [Hneg|Hnn].
  - assert (Hm : v mod 2 ^ bits = v + 2 ^ bits).
    { symmetry. apply (Z.mod_unique_pos v (2 ^ bits) (-1)); lia. }
    rewrite Hm.
    replace (v + 2 ^ bits <? 2 ^ (bits - 1)) with false
      by (symmetry; apply Z.ltb_ge; lia).
    lia.
  - rewrite Z.mod_small by lia.
    replace (v <? 2 ^ (bits - 1)) with true by (symmetry; apply Z.ltb_lt; lia).
    reflexivity.
Qed.

Lemma valid_fixed (t : bos_data_type) (w : nat) (payload : list byte) :
  fixed_width t = Some w -> length payload = w -> (w <= 8)%nat ->
  valid_wire (WFixed t payload).
Proof.
  intros Hw Hl Hle. split.
  - cbn [well_formed]. rewrite Hw. apply Nat.eqb_eq. exact Hl.
  - cbn [encode length]. lia.
Qed.

(** X5. Round trip of the integers: for every integer tag and every integer
    of the range of the C type its reader uses, the little-endian two's
    complement payload is accepted by the validator and decoded to that
    integer. *)
Theorem integer_round_trip :
  forall (t : bos_data_type) (w : nat) (lo hi v : Z),
    int_range t = Some (w, lo, hi) ->
    lo <= v <= hi ->
    let buffer := frame (WFixed t (le_bytes w (v mod 256 ^ Z.of_nat w))) in
    bos_validate (Some buffer) (Z.of_nat (length buffer)) = Ret TRUE /\
    bos_deserialize buffer [] = Ret (Some (JInteger v), None).
Proof.
  intros t w lo hi v Hr Hv buffer.
  assert (Hval : valid_wire (WFixed t (le_bytes w (v mod 256 ^ Z.of_nat w)))).
  { destruct t; cbn [int_range] in Hr; try discriminate; injection Hr as <- <- <-;
      (eapply valid_fixed; [reflexivity|apply length_le_bytes|lia]). }
  split; [apply (bos_validate_frame _ Hval)|].
  unfold buffer. rewrite (bos_deserialize_frame _ Hval).
  cbn [decoded]. unfold decoded_fixed.
  rewrite le_value_le_bytes by (apply Z.mod_pos_bound; apply Z.pow_pos_nonneg; lia).
  destruct t; cbn [int_range] in Hr; try discriminate; injection Hr as <- <- <-;
    first
      [ change (256 ^ Z.of_nat 1) with (2 ^ 8); rewrite to_signed_mod by lia; reflexivity
      | change (256 ^ Z.of_nat 2) with (2 ^ 16); rewrite to_signed_mod by lia; reflexivity
      | change (256 ^ Z.of_nat 4) with (2 ^ 32); rewrite to_signed_mod by lia; reflexivity
      | change (256 ^ Z.of_nat 8) with (2 ^ 64); rewrite to_signed_mod by lia; reflexivity
      | rewrite Z.mod_small by (cbn; lia); reflexivity ].
Qed.

(** X6. An unsigned 64-bit field is copied into an [int64_t]: a value of
    [2^63] or more is decoded as that value minus [2^64], a negative integer,
    and the tags UInt64 and Int64 decode the same payload to the same
    integer. *)
Theorem uint64_folds_into_signed :
  forall (u : Z),
    2 ^ 63 <= u < 2 ^ 64 ->
    bos_deserialize (frame (WFixed BOS_UINT64 (le_bytes 8 u))) []
    = Ret (Some (JInteger (u - 2 ^ 64)), None) /\
    bos_deserialize (frame (WFixed BOS_INT64 (le_bytes 8 u))) []
    = Ret (Some (JInteger (u - 2 ^ 64)), None) /\
    bos_validate (Some (frame (WFixed BOS_UINT64 (le_bytes 8 u)))) 13 = Ret TRUE.
Proof.
  intros u Hu.
  assert (H1 : valid_wire (WFixed BOS_UINT64 (le_bytes 8 u)))
    by (eapply valid_fixed; [reflexivity|apply length_le_bytes|lia]).
  assert (H2 : valid_wire (WFixed BOS_INT64 (le_bytes 8 u)))
    by (eapply valid_fixed; [reflexivity|apply length_le_bytes|lia]).
  assert (Hs : to_signed 64 (le_value (le_bytes 8 u)) = u - 2 ^ 64).
  { rewrite le_value_le_bytes by (change (256 ^ Z.of_nat 8) with (2 ^ 64); lia).
    unfold to_signed. rewrite Z.mod_small by lia.
    replace (u <? 2 ^ (64 - 1)) with false by (symmetry; apply Z.ltb_ge; cbn; lia).
    reflexivity. }
  split; [|split].
  - rewrite (bos_deserialize_frame _ H1). cbn [decoded]. unfold decoded_fixed.
    rewrite Hs. reflexivity.
  - rewrite (bos_deserialize_frame _ H2). cbn [decoded]. unfold decoded_fixed.
    rewrite Hs. reflexivity.
  - pose proof (bos_validate_frame _ H1) as Hv.
    replace (Z.of_nat (length (frame (WFixed BOS_UINT64 (le_bytes 8 u))))) with 13 in Hv.
    + exact Hv.
    + unfold frame. cbn [encode]. rewrite length_app, !length_le_bytes.
      cbn [length]. rewrite length_le_bytes. reflexivity.
Qed.

(** ** The error object *)

Lemma quiet_ret {A : Type} (a : A) : quiet (ret a).
Proof. intros s a' s' H. injection H as _ <-. reflexivity. Qed.

Lemma quiet_fault {A : Type} : quiet (fun _ : dstate => @Fault (A * dstate)).
Proof. intros s a s' H. discriminate. Qed.

(** Sequencing, when the continuation is quiet on what the first step can
    return. *)
Lemma quiet_bind_on {A B : Type} (P : A -> Prop) (m : M A) (k : A -> M B) :
  (forall s a s', m s = Ret (a, s') -> P a) ->
  quiet m -> (forall a, P a -> quiet (k a)) -> quiet (mbind m k).
Proof.
  intros HP Hm Hk s b s'. unfold mbind.
  destruct (m s) as [[a s1]| |] eqn:E; try discriminate.
  intros H. rewrite (Hk a (HP _ _ _ E) _ _ _ H). apply (Hm _ _ _ E).
Qed.

Lemma quiet_bind {A B : Type} (m : M A) (k : A -> M B) :
  quiet m -> (forall a, quiet (k a)) -> quiet (mbind m k).
Proof.
  intros Hm Hk. apply (quiet_bind_on (fun _ => True)); auto.
Qed.

Lemma quiet_on_buffer {A : Type} (f : buffer_t -> outcome (A * buffer_t)) :
  quiet (on_buffer f).
Proof.
  intros s a s'. unfold on_buffer.
  destruct (f (buf s)) as [[x b]| |]; try discriminate.
  intros H. injection H as _ <-. reflexivity.
Qed.

Lemma quiet_json_new (v : json) : quiet (json_new v).
Proof.
  intros s a s'. unfold json_new. destruct (alloc (heap s)) as [ok h].
  intros H. injection H as _ <-. reflexivity.
Qed.

Lemma quiet_jsonp_malloc : quiet jsonp_malloc.
Proof.
  intros s a s'. unfold jsonp_malloc. destruct (alloc (heap s)) as [ok h].
  intros H. injection H as _ <-. reflexivity.
Qed.

Lemma quiet_read_number (w : Z) : quiet (read_number w).
Proof.
  unfold read_number. apply quiet_bind; [apply quiet_on_buffer|intros; apply quiet_ret].
Qed.

Lemma quiet_read_uvarint : quiet read_uvarint.
Proof.
  unfold read_uvarint. apply quiet_bind; [apply quiet_read_number|]. intros flag.
  repeat match goal with
         | |- quiet (if ?c then _ else _) => destruct c
         end;
    first [apply quiet_ret
          | apply quiet_bind; [apply quiet_read_number|intros; apply quiet_ret]].
Qed.

Lemma quiet_read_raw_string : quiet read_raw_string.
Proof.
  unfold read_raw_string. apply quiet_bind; [apply quiet_read_uvarint|]. intros len.
  destruct (0 <? len); [|apply quiet_ret].
  apply quiet_bind; [apply quiet_jsonp_malloc|]. intros [|]; [|apply quiet_fault].
  apply quiet_bind; [apply quiet_on_buffer|]. intros bytes.
  destruct (in_block (1 * len) len 1); [apply quiet_ret|apply quiet_fault].
Qed.

Lemma quiet_read_string : quiet read_string.
Proof.
  unfold read_string. apply quiet_bind; [apply quiet_read_raw_string|].
  intros raw. unfold json_string.
  destruct (utf8_check (c_string raw)); [apply quiet_json_new|apply quiet_ret].
Qed.

Lemma quiet_read_bytes : quiet read_bytes.
Proof.
  unfold read_bytes. apply quiet_bind; [apply quiet_read_uvarint|]. intros len.
  apply quiet_bind; [apply quiet_jsonp_malloc|]. intros block.
  destruct (block || (len =? 0)); [|apply quiet_fault].
  apply quiet_bind; [apply quiet_on_buffer|intros; apply quiet_json_new].
Qed.

Lemma quiet_read_array_loop (read_child : M json_ptr) :
  quiet read_child ->
  forall fuel i len array, quiet (read_array_loop read_child fuel i len array).
Proof.
  intros Hc fuel. induction fuel as [|fuel IH]; intros i len array s a s';
    cbn [read_array_loop]; destruct (i <? len);
    try discriminate; try (intros H; injection H as _ <-; reflexivity).
  destruct (read_child s) as [[[entry|] s1]| |] eqn:E; try discriminate.
  - intros H. rewrite (IH _ _ _ _ _ _ H). apply (Hc _ _ _ E).
  - intros H. injection H as _ <-. apply (Hc _ _ _ E).
Qed.

Lemma quiet_read_obj_loop (read_child : M json_ptr) :
  quiet read_child ->
  forall fuel i len object, quiet (read_obj_loop read_child fuel i len object).
Proof.
  intros Hc fuel. induction fuel as [|fuel IH]; intros i len object s a s';
    cbn [read_obj_loop]; destruct (i <? len);
    try discriminate; try (intros H; injection H as _ <-; reflexivity).
  destruct (read_raw_string s) as [[key s0]| |] eqn:Ek; try discriminate.
  pose proof (quiet_read_raw_string _ _ _ Ek) as H0.
  destruct (read_child s0) as [[[entry|] s1]| |] eqn:E; try discriminate.
  - intros H. rewrite (IH _ _ _ _ _ _ H), (Hc _ _ _ E). exact H0.
  - intros H. injection H as _ <-. rewrite (Hc _ _ _ E). exact H0.
Qed.

Lemma read_data_type_range (s : dstate) (data_type : Z) (s' : dstate) :
  read_data_type s = Ret (data_type, s') -> 0 <= data_type <= 15.
Proof.
  unfold read_data_type. unfold mbind.
  destruct (read_number 1 s) as [[type s1]| |] eqn:E; try discriminate.
  apply read_number_Ret in E. destruct E as (bs & _ & -> & _).
  pose proof (le_value_range bs) as Hr.
  destruct (15 <? le_value bs) eqn:E15; unfold ret; intros H; injection H as <- _.
  - cbn. lia.
  - apply Z.ltb_ge in E15. lia.
Qed.

Lemma enumerator_in_range (v : Z) :
  0 <= v <= 15 -> exists t, enumerator v = Some t.
Proof.
  intros Hv. destruct v as [|p|p]; [eexists; reflexivity| |lia].
  do 4 (try destruct p as [p|p|]; try lia); eexists; reflexivity.
Qed.

Lemma quiet_read_value (fuel : nat) : quiet (read_value fuel).
Proof.
  induction fuel as [|fuel IH]; cbn [read_value]; [intros s a s' H; discriminate|].
  apply (quiet_bind_on (fun data_type => 0 <= data_type <= 15)).
  - intros s a s' H. apply (read_data_type_range _ _ _ H).
  - unfold read_data_type. apply quiet_bind; [apply quiet_read_number|].
    intros type. destruct (15 <? type); apply quiet_ret.
  - intros data_type Hr. unfold read_data.
    destruct (enumerator_in_range data_type Hr) as [t ->].
    destruct t;
      unfold json_null, read_bool, read_int8, read_int16, read_int32, read_int64,
        read_uint8, read_uint16, read_uint32, read_uint64, read_real32, read_real64,
        json_integer, json_real, json_true, json_false;
      try apply quiet_ret;
      try (apply quiet_bind; [apply quiet_read_number|];
           intros number; try destruct (number =? 0);
           first [apply quiet_ret | apply quiet_json_new]).
    + apply quiet_read_string.
    + apply quiet_read_bytes.
    + unfold read_array. apply quiet_bind; [apply quiet_read_uvarint|]. intros len.
      apply quiet_bind; [apply quiet_json_new|]. intros array.
      apply quiet_read_array_loop. exact IH.
    + unfold read_obj. apply quiet_bind; [apply quiet_read_uvarint|]. intros len.
      apply quiet_bind; [apply quiet_json_new|]. intros object.
      apply quiet_read_obj_loop. exact IH.
Qed.

Lemma buffer_init_region (region : list byte) :
  (4 <= length region)%nat ->
  buffer_init region
  = Ret {| data := region; pos := 4; read := 4; size := le_value (firstn 4 region) |}.
Proof.
  intros Hl.
  pose proof (buffer_init_at (firstn 4 region) (skipn 4 region)) as H.
  rewrite firstn_skipn in H. apply H. rewrite length_firstn. lia.
Qed.

(** X8. The only error [bos_deserialize] reports is a header below 5: then
    it returns NULL with the code [json_error_invalid_format] and the message
    "size too small to be valid", whatever follows the header.  With a header
    of 5 or more the error object is left unset whatever is returned; in
    particular a NULL caused by a failed allocation carries no error, and the
    "invalid data_type" arm of [read_data] is never taken, since
    [read_data_type] only returns 0 to 15. *)
Theorem deserialize_error_object :
  forall (region : list byte) (heap : heap_t),
    (4 <= length region)%nat ->
    (le_value (firstn 4 region) < 5 ->
     bos_deserialize region heap
     = Ret (None, Some (json_error_invalid_format, "size too small to be valid"%string))) /\
    (5 <= le_value (firstn 4 region) ->
     forall r e, bos_deserialize region heap = Ret (r, e) -> e = None) /\
    (forall fuel s r s', read_value fuel s = Ret (r, s') -> error s' = error s) /\
    (forall s data_type s', read_data_type s = Ret (data_type, s') ->
                            exists t, enumerator data_type = Some t).
Proof.
  intros region heap Hl. split; [|split; [|split]].
  - intros Hh. unfold bos_deserialize. rewrite (buffer_init_region region Hl).
    cbn [bind size].
    replace (le_value (firstn 4 region) <? 5) with true
      by (symmetry; apply Z.ltb_lt; exact Hh).
    reflexivity.
  - intros Hh r e. unfold bos_deserialize. rewrite (buffer_init_region region Hl).
    cbn [bind size].
    replace (le_value (firstn 4 region) <? 5) with false
      by (symmetry; apply Z.ltb_ge; exact Hh).
    destruct (read_value _ _) as [[v s']| |] eqn:E; cbn [bind]; try discriminate.
    intros H. injection H as _ <-.
    apply (quiet_read_value _ _ _ _ E).
  - intros fuel s r s' H. apply (quiet_read_value _ _ _ _ H).
  - intros s data_type s' H. apply enumerator_in_range.
    apply (read_data_type_range _ _ _ H).
Qed.

(** ** Counts of elements *)

Lemma validate_uvarint_value (buffer : buffer_t) (n : Z) (buffer' : buffer_t) :
  validate_uvarint buffer = Ret (Some n, buffer') -> 0 <= n < 2 ^ 64.
Proof.
  unfold validate_uvarint.
  destruct (validate_read_only buffer 1); cbn [negb]; [|discriminate].
  destruct (read_buffer buffer 1) as [[bs b1]| |] eqn:R1; cbn [bind]; try discriminate.
  apply read_buffer_Ret in R1. destruct R1 as [Hm1 _]. apply mem_read_Some in Hm1.
  pose proof (le_value_range bs) as Hr1.
  replace (Z.of_nat (length bs)) with 1 in Hr1 by lia.
  assert (Hwide : forall w, 0 <= w <= 8 ->
            (if negb (validate_read_only b1 w) then Ret (None, b1)
             else '(bytes, buffer0) <- read_buffer b1 w ;;
                  Ret (Some (le_value bytes), buffer0)) = Ret (Some n, buffer') ->
            0 <= n < 2 ^ 64).
  { intros w Hw. destruct (validate_read_only b1 w); cbn [negb]; [|discriminate].
    destruct (read_buffer b1 w) as [[bs2 b2]| |] eqn:R2; cbn [bind]; try discriminate.
    intros H. injection H as <- _.
    apply read_buffer_Ret in R2. destruct R2 as [Hm2 _]. apply mem_read_Some in Hm2.
    pose proof (le_value_range bs2) as Hr2.
    destruct Hm2 as (_ & _ & _ & Hl). rewrite Hl in Hr2.
    assert (256 ^ w <= 256 ^ 8) by (apply Z.pow_le_mono_r; lia).
    change (256 ^ 8) with (2 ^ 64) in *. lia. }
  destruct (le_value bs =? 255); [apply Hwide; lia|].
  destruct (le_value bs =? 254); [apply Hwide; lia|].
  destruct (le_value bs =? 253); [apply Hwide; lia|].
  intros H. injection H as <- _. change (256 ^ 1) with 256 in Hr1. lia.
Qed.

Lemma validate_array_loop_count (step : validator) :
  progress step ->
  forall fuel i len b b',
    0 <= i -> len < 2 ^ 64 ->
    validate_array_loop step fuel i len b = Ret (TRUE, b') ->
    len - i <= Z.of_nat (remaining b) - Z.of_nat (remaining b').
Proof.
  intros Hprog fuel. induction fuel as [|fuel IH]; intros i len b b' Hi Hmax;
    cbn [validate_array_loop]; destruct (i <? len) eqn:E;
    try discriminate;
    try (intros H; injection H as <-; apply Z.ltb_ge in E; lia).
  apply Z.ltb_lt in E.
  destruct (step b) as [[ok b1]| |] eqn:Hs; cbn [bind]; try discriminate.
  destruct (Hprog _ _ _ Hs) as (_ & _ & Hr).
  destruct ok; cbn [negb]; [|discriminate].
  specialize (Hr eq_refl). rewrite to_uint64_small by lia.
  intros H. apply IH in H; lia.
Qed.

Lemma validate_obj_loop_count (step : validator) :
  progress step ->
  forall fuel i len b b',
    0 <= i -> len < 2 ^ 64 ->
    validate_obj_loop step fuel i len b = Ret (TRUE, b') ->
    len - i <= Z.of_nat (remaining b) - Z.of_nat (remaining b').
Proof.
  intros Hprog fuel. induction fuel as [|fuel IH]; intros i len b b' Hi Hmax;
    cbn [validate_obj_loop]; destruct (i <? len) eqn:E;
    try discriminate;
    try (intros H; injection H as <-; apply Z.ltb_ge in E; lia).
  apply Z.ltb_lt in E.
  destruct (validate_string b) as [[ok0 b0]| |] eqn:Hk; cbn [bind]; try discriminate.
  destruct (validate_string_steady _ _ _ Hk) as [Hd0 Hp0].
  pose proof (steady_remaining _ _ Hd0 Hp0) as Hr0.
  destruct ok0; cbn [negb]; [|discriminate].
  destruct (step b0) as [[ok b1]| |] eqn:Hs; cbn [bind]; try discriminate.
  destruct (Hprog _ _ _ Hs) as (_ & _ & Hr).
  destruct ok; cbn [negb]; [|discriminate].
  specialize (Hr eq_refl). rewrite to_uint64_small by lia.
  intros H. apply IH in H; lia.
Qed.

(** X9. The validator never accepts a container that declares more
    elements than bytes are left in the buffer: when [validate_array] or
    [validate_obj] answers TRUE, the count decoded is at most the number of
    bytes of the region that follow the count. *)
Theorem accepted_count_bounded :
  forall (fuel loop_fuel : nat) (buffer : buffer_t) (n : Z) (b1 b' : buffer_t),
    validate_uvarint buffer = Ret (Some n, b1) ->
    validate_array (validate_value fuel) loop_fuel buffer = Ret (TRUE, b') \/
    validate_obj (validate_value fuel) loop_fuel buffer = Ret (TRUE, b') ->
    n <= Z.of_nat (remaining b1) /\
    Z.of_nat (remaining b1) <= Z.of_nat (length (data buffer)).
Proof.
  intros fuel loop_fuel buffer n b1 b' Hv Hacc.
  pose proof (validate_uvarint_value _ _ _ Hv) as Hn.
  destruct (validate_uvarint_steady _ _ _ Hv) as [Hd1 Hp1].
  split.
  - destruct Hacc as [H|H].
    + unfold validate_array in H. rewrite Hv in H. cbn [bind] in H.
      apply (validate_array_loop_count _ (validate_value_progress fuel)) in H; lia.
    + unfold validate_obj in H. rewrite Hv in H. cbn [bind] in H.
      apply (validate_obj_loop_count _ (validate_value_progress fuel)) in H; lia.
  - unfold remaining. rewrite Hd1.
    destruct (Z_lt_le_dec (pos b1) 0); [|lia].
    exfalso.
    unfold validate_uvarint in Hv.
    destruct (validate_read_only buffer 1); cbn [negb] in Hv; [|discriminate].
    destruct (read_buffer buffer 1) as [[bs b0]| |] eqn:R1; cbn [bind] in Hv;
      try discriminate.
    apply read_buffer_Ret in R1. destruct R1 as [Hm _]. apply mem_read_Some in Hm. lia.
Qed.

Lemma read_array_loop_huge (read_child : M json_ptr) :
  forall fuel i len array s v s',
    0 <= i < 2 ^ 32 -> 2 ^ 32 <= len ->
    read_array_loop read_child fuel i len array s <> Ret (Some v, s').
Proof.
  intros fuel. induction fuel as [|fuel IH]; intros i len array s v s' Hi Hlen;
    cbn [read_array_loop];
    replace (i <? len) with true by (symmetry; apply Z.ltb_lt; lia);
    [discriminate|].
  destruct (read_child s) as [[[entry|] s1]| |]; try discriminate.
  apply IH; [apply to_uint32_range|exact Hlen].
Qed.

Lemma read_obj_loop_huge (read_child : M json_ptr) :
  forall fuel i len object s v s',
    0 <= i < 2 ^ 32 -> 2 ^ 32 <= len ->
    read_obj_loop read_child fuel i len object s <> Ret (Some v, s').
Proof.
  intros fuel. induction fuel as [|fuel IH]; intros i len object s v s' Hi Hlen;
    cbn [read_obj_loop];
    replace (i <? len) with true by (symmetry; apply Z.ltb_lt; lia);
    [discriminate|].
  destruct (read_raw_string s) as [[key s0]| |]; try discriminate.
  destruct (read_child s0) as [[[entry|] s1]| |]; try discriminate.
  apply IH; [apply to_uint32_range|exact Hlen].
Qed.

(** X10. The loops of [read_array] and [read_obj] count in an
    [unsigned int] against a [size_t]: with a count of [2^32] or more the
    test [i < len] never fails, so whatever the children are the reader never
    returns a container; it ends with NULL from a child or with a read outside
    the buffer. *)
Theorem huge_count_never_decodes :
  forall (read_child : M json_ptr) (fuel : nat) (s : dstate) (len : Z) (s1 : dstate),
    read_uvarint s = Ret (len, s1) ->
    2 ^ 32 <= len ->
    forall v s',
      read_array read_child fuel s <> Ret (Some v, s') /\
      read_obj read_child fuel s <> Ret (Some v, s').
Proof.
  intros read_child fuel s len s1 Hv Hlen v s'. split.
  - unfold read_array. unfold mbind at 1. rewrite Hv. unfold mbind.
    destruct (json_array s1) as [[array s2]| |]; try discriminate.
    apply read_array_loop_huge; lia.
  - unfold read_obj. unfold mbind at 1. rewrite Hv. unfold mbind.
    destruct (json_object s1) as [[object s2]| |]; try discriminate.
    apply read_obj_loop_huge; lia.
Qed.

(** ** A container whose own allocation fails *)

Lemma json_new_refused (v : json) (s : dstate) :
  heap s = [false] ->
  json_new v s = Ret (None, {| buf := buf s; heap := []; error := error s |}).
Proof. intros Hh. unfold json_new. rewrite Hh. reflexivity. Qed.

Lemma read_array_loop_null (read_child : M json_ptr) (items : list wire) :
  (forall item, In item items -> reads read_child item) ->
  forall fuel i len s pre rest,
    cursor_at (buf s) pre (concat (map encode items) ++ rest) ->
    calm s ->
    Z.of_nat (length (concat (map encode items))) < 2 ^ 32 ->
    0 <= i -> len = i + Z.of_nat (length items) -> len < 2 ^ 32 ->
    (length items <= fuel)%nat ->
    read_array_loop read_child fuel i len None s
    = Ret (None, advance_s s (Z.of_nat (length (concat (map encode items))))).
Proof.
  induction items as [|item items IH];
    intros Hchild fuel i len s pre rest Hc Hcalm Hsz Hi Hlen Hmax Hfuel.
  - cbn [length Z.of_nat] in Hlen. cbn [map concat length Z.of_nat].
    rewrite advance_s_0 by exact Hcalm.
    destruct fuel; cbn [read_array_loop];
      replace (i <? len) with false by (symmetry; apply Z.ltb_ge; lia); reflexivity.
  - cbn [length] in Hlen, Hfuel. rewrite Nat2Z.inj_succ in Hlen.
    destruct fuel as [|fuel]; [lia|].
    cbn [map concat] in *. rewrite length_app, Nat2Z.inj_add in *.
    rewrite <- app_assoc in Hc.
    cbn [read_array_loop].
    replace (i <? len) with true by (symmetry; apply Z.ltb_lt; lia).
    rewrite (Hchild item (or_introl eq_refl) s pre _ Hc Hcalm) by lia.
    rewrite to_uint32_small by lia. cbn [json_array_append].
    rewrite (IH (fun x Hx => Hchild x (or_intror Hx)) fuel (i + 1) len
               _ (pre ++ encode item) rest); try lia.
    + rewrite advance_s_advance_s. reflexivity.
    + apply (cursor_at_advance (buf s)). exact Hc.
    + apply calm_advance. exact Hcalm.
Qed.

Lemma read_obj_loop_null (read_child : M json_ptr) (entries : list (list byte * wire)) :
  (forall entry, In entry entries -> fst entry = [] /\ reads read_child (snd entry)) ->
  forall fuel i len s pre rest,
    cursor_at (buf s) pre (concat (map encode_entry entries) ++ rest) ->
    calm s ->
    Z.of_nat (length (concat (map encode_entry entries))) < 2 ^ 32 ->
    0 <= i -> len = i + Z.of_nat (length entries) -> len < 2 ^ 32 ->
    (length entries <= fuel)%nat ->
    read_obj_loop read_child fuel i len None s
    = Ret (None, advance_s s (Z.of_nat (length (concat (map encode_entry entries))))).
Proof.
  induction entries as [|entry entries IH];
    intros Hchild fuel i len s pre rest Hc Hcalm Hsz Hi Hlen Hmax Hfuel.
  - cbn [length Z.of_nat] in Hlen. cbn [map concat length Z.of_nat].
    rewrite advance_s_0 by exact Hcalm.
    destruct fuel; cbn [read_obj_loop];
      replace (i <? len) with false by (symmetry; apply Z.ltb_ge; lia); reflexivity.
  - cbn [length] in Hlen, Hfuel. rewrite Nat2Z.inj_succ in Hlen.
    destruct fuel as [|fuel]; [lia|].
    cbn [map concat] in *. unfold encode_entry at 1 in Hc.
    unfold encode_entry at 1 in Hsz. unfold encode_entry at 1.
    rewrite !length_app, !Nat2Z.inj_add in *.
    rewrite <- !app_assoc in Hc.
    cbn [read_obj_loop].
    replace (i <? len) with true by (symmetry; apply Z.ltb_lt; lia).
    rewrite (read_raw_string_encode s pre _ (fst entry) Hc Hcalm) by lia.
    pose proof (cursor_at_advance (buf s) _ _ _ Hc) as Hc1.
    destruct (Hchild entry (or_introl eq_refl)) as [Hkey Hentry].
    rewrite Hkey in *.
    change (Z.of_nat (length (encode_key []))) with 1 in *.
    pose proof (calm_advance s 1 Hcalm) as Hcalm1.
    rewrite (Hentry (advance_s s 1) _ _ Hc1 Hcalm1) by lia.
    rewrite to_uint32_small by lia. cbn [json_object_set].
    rewrite (IH (fun x Hx => Hchild x (or_intror Hx)) fuel (i + 1) len
               _ ((pre ++ encode_key []) ++ encode (snd entry)) rest);
      try lia.
    + rewrite !advance_s_advance_s, Z.add_assoc. reflexivity.
    + apply (cursor_at_advance (buf (advance_s s _))). exact Hc1.
    + apply calm_advance. exact Hcalm1.
Qed.

(** X11. [read_array] and [read_obj] do not test what [json_array] and
    [json_object] return: when the container's own allocation fails (and the
    later ones succeed) the reader still reads every child of a well-formed
    container none of whose strings and keys has a byte, moving the cursor
    over the whole encoding, and only then returns NULL; [bos_deserialize]
    returns NULL without an error. *)
Theorem container_allocation_failure :
  forall (w : wire) (fuel : nat) (s : dstate) (pre rest : list byte),
    is_container w = true ->
    well_formed w = true ->
    plain w = true ->
    cursor_at (buf s) pre (encode w ++ rest) ->
    heap s = [false] ->
    0 <= read (buf s) < 2 ^ 32 ->
    Z.of_nat (length (encode w)) < 2 ^ 32 ->
    (length (encode w) <= fuel)%nat ->
    read_value fuel s
    = Ret (None, {| buf := advance (buf s) (Z.of_nat (length (encode w)));
                    heap := []; error := error s |}) /\
    (4 + Z.of_nat (length (encode w)) < 2 ^ 32 ->
     bos_deserialize (frame w) [false] = Ret (None, None)).
Proof.
  assert (Hmain : forall w fuel s pre rest,
             is_container w = true -> well_formed w = true -> plain w = true ->
             cursor_at (buf s) pre (encode w ++ rest) ->
             heap s = [false] -> 0 <= read (buf s) < 2 ^ 32 ->
             Z.of_nat (length (encode w)) < 2 ^ 32 ->
             (length (encode w) <= fuel)%nat ->
             read_value fuel s
             = Ret (None, {| buf := advance (buf s) (Z.of_nat (length (encode w)));
                             heap := []; error := error s |})).
  { intros w fuel s pre rest Hcont Hwf Hplain Hc Hheap Hread Hsz Hf.
    destruct fuel as [|fuel]; [pose proof (length_encode_pos w); lia|].
    set (s2 := fun n => {| buf := advance (buf s) n; heap := []; error := error s |}).
    assert (Hcalm2 : forall n, calm (s2 n))
      by (intros n; split; [reflexivity|apply to_uint32_range]).
    destruct w as [t payload|payload|payload|items|entries]; try discriminate.
    - rewrite encode_array_eq in *. rewrite !length_app, !Nat2Z.inj_add in *.
      change (Z.of_nat (length [byte_of (tag_of BOS_ARRAY)])) with 1 in *.
      destruct (read_data_type_tag s pre _ rest BOS_ARRAY Hc) as [Ht Hc1].
      cbn [read_value]. unfold mbind at 1. rewrite Ht.
      unfold read_data. rewrite enumerator_tag_of.
      rewrite <- app_assoc in Hc1.
      pose proof (length_encode_uvarint (Z.of_nat (length items))) as Hlv.
      pose proof (length_concat_ge encode items length_encode_pos) as Hli.
      unfold read_array. unfold mbind at 1.
      rewrite (read_uvarint_encode (advance_s s 1) _ _ _ Hc1) by lia.
      rewrite advance_s_advance_s. unfold mbind at 1. unfold json_array.
      rewrite json_new_refused by exact Hheap.
      cbn [length] in Hf.
      apply (cursor_at_advance (buf (advance_s s 1))) in Hc1.
      cbn [advance_s buf] in Hc1. rewrite advance_advance in Hc1.
      cbn [advance_s buf error].
      change {| buf := advance (buf s) (1 + Z.of_nat (length (encode_uvarint (Z.of_nat (length items)))));
                heap := []; error := error s |}
        with (s2 (1 + Z.of_nat (length (encode_uvarint (Z.of_nat (length items)))))).
      rewrite (read_array_loop_null (read_value fuel) items) with
        (pre := (pre ++ [byte_of (tag_of BOS_ARRAY)])
                  ++ encode_uvarint (Z.of_nat (length items))) (rest := rest);
        try lia.
      + unfold s2, advance_s. cbn [buf heap error].
        rewrite advance_advance, Z.add_assoc. reflexivity.
      + intros item Hin. apply read_value_encode.
        * cbn [well_formed] in Hwf. rewrite forallb_forall in Hwf. apply Hwf, Hin.
        * cbn [plain] in Hplain. rewrite forallb_forall in Hplain. apply Hplain, Hin.
        * pose proof (length_in_concat encode item items Hin). lia.
      + exact Hc1.
      + apply Hcalm2.
    - rewrite encode_object_eq in *. rewrite !length_app, !Nat2Z.inj_add in *.
      change (Z.of_nat (length [byte_of (tag_of BOS_OBJ)])) with 1 in *.
      destruct (read_data_type_tag s pre _ rest BOS_OBJ Hc) as [Ht Hc1].
      cbn [read_value]. unfold mbind at 1. rewrite Ht.
      unfold read_data. rewrite enumerator_tag_of.
      rewrite <- app_assoc in Hc1.
      pose proof (length_encode_uvarint (Z.of_nat (length entries))) as Hlv.
      assert (Hli : (length entries <= length (concat (map encode_entry entries)))%nat).
      { apply length_concat_ge. intros entry. unfold encode_entry.
        rewrite length_app. pose proof (length_encode_pos (snd entry)). lia. }
      unfold read_obj. unfold mbind at 1.
      rewrite (read_uvarint_encode (advance_s s 1) _ _ _ Hc1) by lia.
      rewrite advance_s_advance_s. unfold mbind at 1. unfold json_object.
      rewrite json_new_refused by exact Hheap.
      cbn [length] in Hf.
      apply (cursor_at_advance (buf (advance_s s 1))) in Hc1.
      cbn [advance_s buf] in Hc1. rewrite advance_advance in Hc1.
      cbn [advance_s buf error].
      change {| buf := advance (buf s) (1 + Z.of_nat (length (encode_uvarint (Z.of_nat (length entries)))));
                heap := []; error := error s |}
        with (s2 (1 + Z.of_nat (length (encode_uvarint (Z.of_nat (length entries)))))).
      rewrite (read_obj_loop_null (read_value fuel) entries) with
        (pre := (pre ++ [byte_of (tag_of BOS_OBJ)])
                  ++ encode_uvarint (Z.of_nat (length entries))) (rest := rest);
        try lia.
      + unfold s2, advance_s. cbn [buf heap error].
        rewrite advance_advance, Z.add_assoc. reflexivity.
      + intros entry Hin.
        rewrite plain_object_eq, forallb_forall in Hplain.
        specialize (Hplain entry Hin). unfold plain_entry in Hplain.
        destruct (fst entry) as [|b key] eqn:Hkey; [|discriminate].
        split; [reflexivity|]. apply read_value_encode.
        * cbn [well_formed] in Hwf. rewrite forallb_forall in Hwf. apply (Hwf entry Hin).
        * exact Hplain.
        * pose proof (length_in_concat encode_entry entry entries Hin) as Hle.
          unfold encode_entry at 1 in Hle. rewrite length_app in Hle. lia.
      + exact Hc1.
      + apply Hcalm2. }
  intros w fuel s pre rest Hcont Hwf Hplain Hc Hheap Hread Hsz Hf.
  split; [apply (Hmain w fuel s pre rest); assumption|].
  intros Htot. destruct (frame_header w Htot) as (Hl & Hv & Hfr).
  pose proof (length_encode_pos w) as Hpos.
  unfold bos_deserialize, frame. rewrite (buffer_init_at _ _ Hl).
  cbn [bind size]. rewrite Hv.
  replace (4 + Z.of_nat (length (encode w)) <? 5) with false
    by (symmetry; apply Z.ltb_ge; lia).
  rewrite (Hmain w _ _ (le_bytes 4 (4 + Z.of_nat (length (encode w)))) []);
    try assumption; try reflexivity.
  - split; cbn [buf data pos]; [rewrite app_nil_r; reflexivity|rewrite Hl; reflexivity].
  - cbn [buf read]. lia.
  - rewrite length_app. lia.
Qed.

(** ** A declared size that ends inside the value *)

Lemma validate_read_only_false (buffer : buffer_t) (n : Z) :
  0 <= read buffer -> 0 <= n ->
  size buffer < read buffer + n -> read buffer + n < 2 ^ 32 ->
  validate_read_only buffer n = FALSE.
Proof.
  intros Hr Hn Hlt Hs. unfold validate_read_only.
  rewrite (to_uint32_small n) by lia. rewrite to_uint32_small by lia.
  replace (read buffer + n <=? size buffer) with false
    by (symmetry; apply Z.leb_gt; lia).
  reflexivity.
Qed.

Lemma validate_read_short (buffer : buffer_t) (n : Z) :
  0 <= read buffer -> 0 <= n ->
  size buffer < read buffer + n -> read buffer + n < 2 ^ 32 ->
  validate_read buffer n = (FALSE, buffer).
Proof.
  intros Hr Hn Hlt Hs. unfold validate_read.
  rewrite (to_uint32_small n) by lia. rewrite to_uint32_small by lia.
  replace (read buffer + n <=? size buffer) with false
    by (symmetry; apply Z.leb_gt; lia).
  reflexivity.
Qed.

Lemma read_advance (buffer : buffer_t) (n : Z) :
  0 <= read buffer -> 0 <= n -> read buffer + n < 2 ^ 32 ->
  read (advance buffer n) = read buffer + n.
Proof. intros Hr Hn Hs. cbn [advance read]. apply to_uint32_small. lia. Qed.

Lemma validate_uvarint_tight (buffer : buffer_t) (pre rest : list byte) (n : Z) :
  cursor_at buffer pre (encode_uvarint n ++ rest) ->
  0 <= n < 2 ^ 64 -> 0 <= read buffer ->
  size buffer < read buffer + Z.of_nat (length (encode_uvarint n)) ->
  read buffer + Z.of_nat (length (encode_uvarint n)) < 2 ^ 32 ->
  exists buffer', validate_uvarint buffer = Ret (None, buffer').
Proof.
  intros [Hd Hp] Hn Hr Hlt Hs. unfold validate_uvarint.
  pose proof (length_encode_uvarint n) as Hlen.
  destruct (Z_le_gt_dec (read buffer + 1) (size buffer)) as [Hfit|Hno].
  2: { rewrite validate_read_only_false by lia. cbn [negb]. eexists; reflexivity. }
  rewrite validate_read_only_true by lia. cbn [negb].
  destruct (encode_uvarint_cases n Hn) as [[Hsm E]|(t & w & E & Hw & Hc)]; rewrite E in *.
  - cbn [length] in Hlt. lia.
  - cbn [length] in Hlt, Hs. rewrite length_le_bytes in *.
    assert (Hd1 : data buffer = pre ++ [t] ++ (le_bytes w n ++ rest))
      by (rewrite Hd; reflexivity).
    rewrite (read_buffer_at buffer pre [t] _ 1 Hd1 Hp) by (reflexivity || lia).
    cbn [bind]. rewrite le_value_single.
    assert (Hro : forall k, k = Z.of_nat w ->
                            validate_read_only (advance buffer 1) k = FALSE).
    { intros k ->. apply validate_read_only_false;
        rewrite ?read_advance by lia; cbn [advance size]; lia. }
    destruct Hc as [[Ht ->]|[[Ht ->]|[Ht ->]]]; rewrite Ht; cbn [Z.eqb Pos.eqb];
      [rewrite (Hro 2 eq_refl)|rewrite (Hro 4 eq_refl)|rewrite (Hro 8 eq_refl)];
      cbn [negb]; eexists; reflexivity.
Qed.

Lemma validate_string_tight (buffer : buffer_t) (pre rest payload : list byte) :
  cursor_at buffer pre (encode_key payload ++ rest) ->
  0 <= read buffer ->
  size buffer < read buffer + Z.of_nat (length (encode_key payload)) ->
  read buffer + Z.of_nat (length (encode_key payload)) < 2 ^ 32 ->
  exists buffer', validate_string buffer = Ret (FALSE, buffer').
Proof.
  unfold encode_key. intros Hc Hr Hlt Hs.
  rewrite <- app_assoc in Hc. rewrite length_app, Nat2Z.inj_add in *.
  pose proof (length_encode_uvarint (Z.of_nat (length payload))) as Hlen.
  assert (Hn : 0 <= Z.of_nat (length payload) < 2 ^ 64) by lia.
  unfold validate_string.
  destruct (Z_le_gt_dec
              (read buffer
               + Z.of_nat (length (encode_uvarint (Z.of_nat (length payload)))))
              (size buffer)) as [Hfit|Hno].
  - rewrite (validate_uvarint_encode buffer pre (payload ++ rest) _ Hc Hn)
      by (unfold room; lia).
    cbn [bind].
    replace (0 <? Z.of_nat (length payload)) with true
      by (symmetry; apply Z.ltb_lt; lia).
    rewrite Z.mul_1_l, to_uint64_small by lia.
    rewrite validate_read_short
      by (rewrite ?read_advance by lia; cbn [advance size]; lia).
    eexists; reflexivity.
  - destruct (validate_uvarint_tight buffer pre (payload ++ rest) _ Hc Hn Hr)
      as [b' Hb']; [lia|lia|].
    rewrite Hb'. cbn [bind]. eexists; reflexivity.
Qed.

Lemma validate_array_loop_tight (step : validator) (items : list wire) :
  (forall item, In item items -> accepts step item /\ rejects step item) ->
  forall fuel i len buffer pre rest,
    cursor_at buffer pre (concat (map encode items) ++ rest) ->
    0 <= read buffer <= size buffer ->
    size buffer < read buffer + Z.of_nat (length (concat (map encode items))) ->
    read buffer + Z.of_nat (length (concat (map encode items))) < 2 ^ 32 ->
    0 <= i -> len = i + Z.of_nat (length items) -> len < 2 ^ 64 ->
    (length items <= fuel)%nat ->
    exists buffer', validate_array_loop step fuel i len buffer = Ret (FALSE, buffer').
Proof.
  induction items as [|item items IH];
    intros Hstep fuel i len buffer pre rest Hc Hr Hlt Hs Hi Hlen Hmax Hfuel.
  - cbn [map concat length Z.of_nat] in Hlt. lia.
  - cbn [length] in Hlen, Hfuel. rewrite Nat2Z.inj_succ in Hlen.
    destruct fuel as [|fuel]; [lia|].
    cbn [map concat] in *. rewrite length_app, Nat2Z.inj_add in *.
    rewrite <- app_assoc in Hc.
    cbn [validate_array_loop].
    replace (i <? len) with true by (symmetry; apply Z.ltb_lt; lia).
    destruct (Hstep item (or_introl eq_refl)) as [Hacc Hrej].
    destruct (Z_le_gt_dec (read buffer + Z.of_nat (length (encode item))) (size buffer))
      as [Hfit|Hno].
    + rewrite (Hacc buffer pre _ Hc) by (unfold room; lia).
      cbn [bind negb]. rewrite to_uint64_small by lia.
      apply (IH (fun x Hx => Hstep x (or_intror Hx)) fuel (i + 1) len
                _ (pre ++ encode item) rest);
        rewrite ?read_advance by lia; cbn [advance size]; try lia.
      apply cursor_at_advance. exact Hc.
    + destruct (Hrej buffer pre _ Hc) as [b' Hb']; [lia|lia|lia|].
      rewrite Hb'. cbn [bind negb]. eexists; reflexivity.
Qed.

Lemma validate_obj_loop_tight (step : validator) (entries : list (list byte * wire)) :
  (forall entry, In entry entries ->
                 accepts step (snd entry) /\ rejects step (snd entry)) ->
  forall fuel i len buffer pre rest,
    cursor_at buffer pre (concat (map encode_entry entries) ++ rest) ->
    0 <= read buffer <= size buffer ->
    size buffer < read buffer + Z.of_nat (length (concat (map encode_entry entries))) ->
    read buffer + Z.of_nat (length (concat (map encode_entry entries))) < 2 ^ 32 ->
    0 <= i -> len = i + Z.of_nat (length entries) -> len < 2 ^ 64 ->
    (length entries <= fuel)%nat ->
    exists buffer', validate_obj_loop step fuel i len buffer = Ret (FALSE, buffer').
Proof.
  induction entries as [|entry entries IH];
    intros Hstep fuel i len buffer pre rest Hc Hr Hlt Hs Hi Hlen Hmax Hfuel.
  - cbn [map concat length Z.of_nat] in Hlt. lia.
  - cbn [length] in Hlen, Hfuel. rewrite Nat2Z.inj_succ in Hlen.
    destruct fuel as [|fuel]; [lia|].
    cbn [map concat] in *. unfold encode_entry at 1 in Hc.
    unfold encode_entry at 1 in Hlt. unfold encode_entry at 1 in Hs.
    rewrite !length_app, !Nat2Z.inj_add in *.
    rewrite <- !app_assoc in Hc.
    cbn [validate_obj_loop].
    replace (i <? len) with true by (symmetry; apply Z.ltb_lt; lia).
    destruct (Hstep entry (or_introl eq_refl)) as [Hacc Hrej].
    destruct (Z_le_gt_dec
                (read buffer + Z.of_nat (length (encode_key (fst entry))))
                (size buffer)) as [Hfit|Hno].
    2: { destruct (validate_string_tight buffer pre _ (fst entry) Hc) as [b' Hb'];
           [lia|lia|lia|].
         rewrite Hb'. cbn [bind negb]. eexists; reflexivity. }
    rewrite (validate_string_encode buffer pre _ (fst entry) Hc) by (unfold room; lia).
    cbn [bind negb].
    pose proof (cursor_at_advance _ _ _ _ Hc) as Hc1.
    set (b1 := advance buffer (Z.of_nat (length (encode_key (fst entry))))) in *.
    assert (Hr1 : read b1 = read buffer + Z.of_nat (length (encode_key (fst entry))))
      by (apply read_advance; lia).
    assert (Hs1 : size b1 = size buffer) by reflexivity.
    destruct (Z_le_gt_dec (read b1 + Z.of_nat (length (encode (snd entry)))) (size b1))
      as [Hfit2|Hno2].
    2: { destruct (Hrej b1 _ _ Hc1) as [b' Hb']; [lia|lia|lia|].
         rewrite Hb'. cbn [bind negb]. eexists; reflexivity. }
    rewrite (Hacc b1 _ _ Hc1) by (unfold room; lia).
    cbn [bind negb]. rewrite to_uint64_small by lia.
    apply (IH (fun x Hx => Hstep x (or_intror Hx)) fuel (i + 1) len
              _ ((pre ++ encode_key (fst entry)) ++ encode (snd entry)) rest);
      rewrite ?read_advance by lia; cbn [advance size]; try lia.
    apply cursor_at_advance. exact Hc1.
Qed.

Lemma validate_value_rejects (fuel : nat) :
  forall w, well_formed w = true -> (length (encode w) <= fuel)%nat ->
            rejects (validate_value fuel) w.
Proof.
  induction fuel as [|fuel IH]; intros w Hwf Hf;
    [pose proof (length_encode_pos w); lia|].
  intros buffer pre rest Hc Hr Hlt Hs.
  pose proof (length_encode_pos w) as Hpos.
  destruct (Z_le_gt_dec (read buffer + 1) (size buffer)) as [Hfit|Hno].
  2: { cbn [validate_value]. rewrite validate_read_only_false by lia.
       cbn [negb]. eexists; reflexivity. }
  assert (Htag : forall t body,
             encode w = [byte_of (tag_of t)] ++ body ->
             validate_read_only buffer 1 = TRUE /\
             read_buffer buffer 1 = Ret ([byte_of (tag_of t)], advance buffer 1) /\
             enumerator (le_value [byte_of (tag_of t)]) = Some t /\
             cursor_at (advance buffer 1) (pre ++ [byte_of (tag_of t)]) (body ++ rest)).
  { intros t body E. rewrite E in Hc.
    destruct (validate_value_tag fuel buffer pre [] (body ++ rest) t) as (H1 & H2 & H3 & Hc1 & _).
    - exact Hc.
    - unfold room. cbn [length Z.of_nat]. lia.
    - split; [exact H1|split; [exact H2|split; [exact H3|exact Hc1]]]. }
  assert (Hr1 : read (advance buffer 1) = read buffer + 1)
    by (apply read_advance; lia).
  assert (Hs1 : size (advance buffer 1) = size buffer) by reflexivity.
  destruct w as [t payload|payload|payload|items|entries].
  - destruct (Htag t payload eq_refl) as (H1 & H2 & H3 & Hc1).
    rewrite encode_fixed_eq in *. rewrite length_app, Nat2Z.inj_add in *.
    change (Z.of_nat (length [byte_of (tag_of t)])) with 1 in *.
    cbn [validate_value]. rewrite H1. cbn [negb]. rewrite H2. cbn [bind]. rewrite H3.
    cbn [well_formed] in Hwf.
    destruct (fixed_width t) as [width|] eqn:Hw; [|discriminate].
    apply Nat.eqb_eq in Hwf. rewrite Hwf in *.
    destruct t; cbn [fixed_width] in Hw; try discriminate; injection Hw as <-;
      first [lia | rewrite validate_read_short by lia; eexists; reflexivity].
  - destruct (Htag BOS_STRING (encode_key payload) eq_refl) as (H1 & H2 & H3 & Hc1).
    rewrite encode_string_eq in *. rewrite length_app, Nat2Z.inj_add in *.
    change (Z.of_nat (length [byte_of (tag_of BOS_STRING)])) with 1 in *.
    cbn [validate_value]. rewrite H1. cbn [negb]. rewrite H2. cbn [bind]. rewrite H3.
    apply (validate_string_tight _ _ _ _ Hc1); lia.
  - destruct (Htag BOS_BYTES (encode_key payload) eq_refl) as (H1 & H2 & H3 & Hc1).
    rewrite encode_bytes_eq in *. rewrite length_app, Nat2Z.inj_add in *.
    change (Z.of_nat (length [byte_of (tag_of BOS_BYTES)])) with 1 in *.
    cbn [validate_value]. rewrite H1. cbn [negb]. rewrite H2. cbn [bind]. rewrite H3.
    change validate_bytes with validate_string.
    apply (validate_string_tight _ _ _ _ Hc1); lia.
  - destruct (Htag BOS_ARRAY _ (encode_array_eq items)) as (H1 & H2 & H3 & Hc1).
    rewrite encode_array_eq in *. rewrite !length_app, !Nat2Z.inj_add in *.
    change (Z.of_nat (length [byte_of (tag_of BOS_ARRAY)])) with 1 in *.
    cbn [validate_value]. rewrite H1. cbn [negb]. rewrite H2. cbn [bind]. rewrite H3.
    rewrite <- app_assoc in Hc1.
    pose proof (length_encode_uvarint (Z.of_nat (length items))) as Hlv.
    pose proof (length_concat_ge encode items length_encode_pos) as Hli.
    assert (Hn : 0 <= Z.of_nat (length items) < 2 ^ 64) by lia.
    cbn [length] in Hf.
    unfold validate_array.
    destruct (Z_le_gt_dec
                (read (advance buffer 1)
                 + Z.of_nat (length (encode_uvarint (Z.of_nat (length items)))))
                (size buffer)) as [Hfit2|Hno2].
    2: { destruct (validate_uvarint_tight _ _ _ _ Hc1 Hn) as [b' Hb']; [lia|lia|lia|].
         rewrite Hb'. cbn [bind]. eexists; reflexivity. }
    rewrite (validate_uvarint_encode _ _ _ _ Hc1 Hn) by (unfold room; lia).
    cbn [bind].
    apply cursor_at_advance in Hc1.
    apply (validate_array_loop_tight (validate_value fuel) items) with
      (pre := (pre ++ [byte_of (tag_of BOS_ARRAY)])
                ++ encode_uvarint (Z.of_nat (length items))) (rest := rest);
      rewrite ?read_advance by lia; cbn [advance size]; try lia.
    + intros item Hin.
      assert (Hwi : well_formed item = true)
        by (cbn [well_formed] in Hwf; rewrite forallb_forall in Hwf; apply Hwf, Hin).
      pose proof (length_in_concat encode item items Hin) as Hle.
      split; [apply validate_value_encode|apply IH]; first [exact Hwi | lia].
    + exact Hc1.
  - destruct (Htag BOS_OBJ _ (encode_object_eq entries)) as (H1 & H2 & H3 & Hc1).
    rewrite encode_object_eq in *. rewrite !length_app, !Nat2Z.inj_add in *.
    change (Z.of_nat (length [byte_of (tag_of BOS_OBJ)])) with 1 in *.
    cbn [validate_value]. rewrite H1. cbn [negb]. rewrite H2. cbn [bind]. rewrite H3.
    rewrite <- app_assoc in Hc1.
    pose proof (length_encode_uvarint (Z.of_nat (length entries))) as Hlv.
    assert (Hli : (length entries <= length (concat (map encode_entry entries)))%nat).
    { apply length_concat_ge. intros entry. unfold encode_entry.
      rewrite length_app. pose proof (length_encode_pos (snd entry)). lia. }
    assert (Hn : 0 <= Z.of_nat (length entries) < 2 ^ 64) by lia.
    cbn [length] in Hf.
    unfold validate_obj.
    destruct (Z_le_gt_dec
                (read (advance buffer 1)
                 + Z.of_nat (length (encode_uvarint (Z.of_nat (length entries)))))
                (size buffer)) as [Hfit2|Hno2].
    2: { destruct (validate_uvarint_tight _ _ _ _ Hc1 Hn) as [b' Hb']; [lia|lia|lia|].
         rewrite Hb'. cbn [bind]. eexists; reflexivity. }
    rewrite (validate_uvarint_encode _ _ _ _ Hc1 Hn) by (unfold room; lia).
    cbn [bind].
    apply cursor_at_advance in Hc1.
    apply (validate_obj_loop_tight (validate_value fuel) entries) with
      (pre := (pre ++ [byte_of (tag_of BOS_OBJ)])
                ++ encode_uvarint (Z.of_nat (length entries))) (rest := rest);
      rewrite ?read_advance by lia; cbn [advance size]; try lia.
    + intros entry Hin.
      assert (Hwi : well_formed (snd entry) = true)
        by (cbn [well_formed] in Hwf; rewrite forallb_forall in Hwf; apply (Hwf entry Hin)).
      pose proof (length_in_concat encode_entry entry entries Hin) as Hle.
      unfold encode_entry at 1 in Hle. rewrite length_app in Hle.
      split; [apply validate_value_encode|apply IH]; first [exact Hwi | lia].
    + exact Hc1.
Qed.

(** X12. The two walks treat the declared size differently.  When the header
    of a well-formed value declares at least 5 bytes but fewer than the
    envelope and the value take, [bos_validate] answers FALSE, whatever byte
    count the caller gives, while [bos_deserialize], which compares the
    declared size with 5 only, still walks the whole value: it returns it when
    no string and no key of it has a byte, and writes past the block of one
    that has. *)
Theorem declared_size_too_small :
  forall (w : wire) (h given : Z) (rest : list byte),
    well_formed w = true ->
    5 <= h -> h < 4 + Z.of_nat (length (encode w)) ->
    4 + Z.of_nat (length (encode w)) < 2 ^ 32 ->
    bos_validate (Some (envelope h (encode w ++ rest))) given = Ret FALSE /\
    bos_deserialize (envelope h (encode w ++ rest)) []
    = (if plain w then Ret (Some (decoded w), None) else Fault).
Proof.
  intros w h given rest Hwf H5 Hh Hsz. split.
  - destruct (envelope_header h (encode w ++ rest)) as (Hl & Hv & Hfirst & Hlen); [lia|].
    unfold bos_validate, bos_validate_fuel. cbn [region_length].
    destruct (given <? 5); [reflexivity|].
    rewrite mem_read_header by exact Hlen.
    rewrite Hfirst, Hv.
    replace (h <? 5) with false by (symmetry; apply Z.ltb_ge; lia).
    destruct (given <? h); [reflexivity|].
    cbn [orb]. unfold envelope. rewrite (buffer_init_at _ _ Hl). cbn [bind].
    destruct (validate_value_rejects
                (S (length (le_bytes 4 h ++ encode w ++ rest))) w Hwf)
      with (buffer := {| data := le_bytes 4 h ++ encode w ++ rest; pos := 4;
                         read := 4; size := le_value (le_bytes 4 h) |})
           (pre := le_bytes 4 h) (rest := rest) as [b' Hb'].
    + rewrite !length_app. lia.
    + split; cbn [data pos]; [reflexivity|rewrite Hl; reflexivity].
    + cbn [read]. lia.
    + cbn [read size]. rewrite Hv. lia.
    + cbn [read]. lia.
    + rewrite Hb'. reflexivity.
  - apply bos_deserialize_envelope; [exact Hwf|lia|lia].
Qed.

(** ** Termination of the decoder *)

Lemma forward_ret {A : Type} (a : A) : forward (ret a).
Proof. intros s a' s' H. injection H as _ <-. split; [reflexivity|lia]. Qed.

Lemma forward_fault {A : Type} : forward (fun _ : dstate => @Fault (A * dstate)).
Proof. intros s a s' H. discriminate. Qed.

Lemma forward_bind {A B : Type} (m : M A) (k : A -> M B) :
  forward m -> (forall a, forward (k a)) -> forward (mbind m k).
Proof.
  intros Hm Hk s b s'. unfold mbind.
  destruct (m s) as [[a s1]| |] eqn:E; try discriminate.
  intros H. destruct (Hm _ _ _ E) as [Hd1 Hp1]. destruct (Hk a _ _ _ H) as [Hd2 Hp2].
  split; [congruence|lia].
Qed.

Lemma forward_read_buffer (w : Z) :
  forward (on_buffer (fun buffer => read_buffer buffer w)).
Proof.
  intros s a s'. unfold on_buffer.
  destruct (read_buffer (buf s) w) as [[x b]| |] eqn:E; try discriminate.
  intros H. injection H as _ <-. cbn [buf].
  apply (read_buffer_steady _ _ _ _ E).
Qed.

Lemma forward_json_new (v : json) : forward (json_new v).
Proof.
  intros s a s'. unfold json_new. destruct (alloc (heap s)) as [ok h].
  intros H. injection H as _ <-. split; [reflexivity|cbn [buf]; lia].
Qed.

Lemma forward_jsonp_malloc : forward jsonp_malloc.
Proof.
  intros s a s'. unfold jsonp_malloc. destruct (alloc (heap s)) as [ok h].
  intros H. injection H as _ <-. split; [reflexivity|cbn [buf]; lia].
Qed.

Lemma forward_read_number (w : Z) : forward (read_number w).
Proof.
  unfold read_number.
  apply forward_bind; [apply forward_read_buffer|intros; apply forward_ret].
Qed.

Lemma forward_read_uvarint : forward read_uvarint.
Proof.
  unfold read_uvarint. apply forward_bind; [apply forward_read_number|]. intros flag.
  repeat match goal with
         | |- forward (if ?c then _ else _) => destruct c
         end;
    first [apply forward_ret
          | apply forward_bind; [apply forward_read_number|intros; apply forward_ret]].
Qed.

Lemma forward_read_raw_string : forward read_raw_string.
Proof.
  unfold read_raw_string. apply forward_bind; [apply forward_read_uvarint|]. intros len.
  destruct (0 <? len); [|apply forward_ret].
  apply forward_bind; [apply forward_jsonp_malloc|]. intros [|]; [|apply forward_fault].
  apply forward_bind; [apply forward_read_buffer|]. intros bytes.
  destruct (in_block (1 * len) len 1); [apply forward_ret|apply forward_fault].
Qed.

Lemma forward_read_string : forward read_string.
Proof.
  unfold read_string. apply forward_bind; [apply forward_read_raw_string|].
  intros raw. unfold json_string.
  destruct (utf8_check (c_string raw)); [apply forward_json_new|apply forward_ret].
Qed.

Lemma forward_read_bytes : forward read_bytes.
Proof.
  unfold read_bytes. apply forward_bind; [apply forward_read_uvarint|]. intros len.
  apply forward_bind; [apply forward_jsonp_malloc|]. intros block.
  destruct (block || (len =? 0)); [|apply forward_fault].
  apply forward_bind; [apply forward_read_buffer|intros; apply forward_json_new].
Qed.

Lemma forward_read_array_loop (read_child : M json_ptr) :
  forward read_child ->
  forall fuel i len array, forward (read_array_loop read_child fuel i len array).
Proof.
  intros Hc fuel. induction fuel as [|fuel IH]; intros i len array s a s';
    cbn [read_array_loop]; destruct (i <? len);
    try discriminate; try (intros H; injection H as _ <-; split; [reflexivity|lia]).
  destruct (read_child s) as [[[entry|] s1]| |] eqn:E; try discriminate.
  - intros H. destruct (Hc _ _ _ E) as [Hd1 Hp1].
    destruct (IH _ _ _ _ _ _ H) as [Hd2 Hp2]. split; [congruence|lia].
  - intros H. injection H as _ <-. apply (Hc _ _ _ E).
Qed.

Lemma forward_read_obj_loop (read_child : M json_ptr) :
  forward read_child ->
  forall fuel i len object, forward (read_obj_loop read_child fuel i len object).
Proof.
  intros Hc fuel. induction fuel as [|fuel IH]; intros i len object s a s';
    cbn [read_obj_loop]; destruct (i <? len);
    try discriminate; try (intros H; injection H as _ <-; split; [reflexivity|lia]).
  destruct (read_raw_string s) as [[key s0]| |] eqn:Ek; try discriminate.
  destruct (forward_read_raw_string _ _ _ Ek) as [Hd0 Hp0].
  destruct (read_child s0) as [[[entry|] s1]| |] eqn:E; try discriminate.
  - intros H. destruct (Hc _ _ _ E) as [Hd1 Hp1].
    destruct (IH _ _ _ _ _ _ H) as [Hd2 Hp2]. split; [congruence|lia].
  - intros H. injection H as _ <-. destruct (Hc _ _ _ E) as [Hd1 Hp1].
    split; [congruence|lia].
Qed.

(** The tag byte: one byte of the region is consumed. *)
Lemma read_data_type_progress (s : dstate) (data_type : Z) (s' : dstate) :
  read_data_type s = Ret (data_type, s') ->
  data (buf s') = data (buf s) /\ pos (buf s') = pos (buf s) + 1 /\
  (remaining (buf s') < remaining (buf s))%nat.
Proof.
  unfold read_data_type. unfold mbind.
  destruct (read_number 1 s) as [[type s1]| |] eqn:E; try discriminate.
  apply read_number_Ret in E. destruct E as (bs & Hm & _ & ->).
  apply mem_read_Some in Hm. change (to_uint32 1) with 1.
  destruct (15 <? type); unfold ret; intros H; injection H as _ <-;
    unfold remaining; cbn [advance_s advance buf data pos]; repeat split; lia.
Qed.

Lemma forward_read_data (read_child : M json_ptr) (fuel : nat) (data_type : Z) :
  forward read_child -> forward (read_data read_child fuel data_type).
Proof.
  intros Hc. unfold read_data.
  destruct (enumerator data_type) as [t|].
  - destruct t;
      unfold json_null, read_bool, read_int8, read_int16, read_int32, read_int64,
        read_uint8, read_uint16, read_uint32, read_uint64, read_real32, read_real64,
        json_integer, json_real, json_true, json_false;
      try apply forward_ret;
      try (apply forward_bind; [apply forward_read_number|];
           intros number; try destruct (number =? 0);
           first [apply forward_ret | apply forward_json_new]).
    + apply forward_read_string.
    + apply forward_read_bytes.
    + unfold read_array. apply forward_bind; [apply forward_read_uvarint|]. intros len.
      apply forward_bind; [apply forward_json_new|]. intros array.
      apply forward_read_array_loop. exact Hc.
    + unfold read_obj. apply forward_bind; [apply forward_read_uvarint|]. intros len.
      apply forward_bind; [apply forward_json_new|]. intros object.
      apply forward_read_obj_loop. exact Hc.
  - apply forward_bind; [|intros; apply forward_ret].
    intros s a s' H. unfold error_set in H.
    assert (E : buf s' = buf s) by (injection H as _ <-; reflexivity).
    rewrite E. split; [reflexivity|lia].
Qed.

Lemma forward_read_value (fuel : nat) : forward (read_value fuel).
Proof.
  induction fuel as [|fuel IH]; cbn [read_value]; [intros s a s' H; discriminate|].
  apply forward_bind.
  - intros s a s' H. destruct (read_data_type_progress _ _ _ H) as (Hd & Hp & _).
    split; [exact Hd|lia].
  - intros data_type. apply forward_read_data. exact IH.
Qed.

(** Every value [read_value] returns, NULL included, cost at least its tag
    byte. *)
Lemma read_value_progress (fuel : nat) (s : dstate) (v : json_ptr) (s' : dstate) :
  read_value fuel s = Ret (v, s') ->
  (remaining (buf s') < remaining (buf s))%nat.
Proof.
  destruct fuel as [|fuel]; cbn [read_value]; [discriminate|].
  unfold mbind. destruct (read_data_type s) as [[data_type s1]| |] eqn:E; try discriminate.
  destruct (read_data_type_progress _ _ _ E) as (Hd1 & Hp1 & Hr1).
  intros H.
  destruct (forward_read_data _ _ _ (forward_read_value fuel) _ _ _ H) as [Hd2 Hp2].
  pose proof (steady_remaining _ _ Hd2 Hp2). lia.
Qed.

Lemma ends_ret {A : Type} (a : A) : ends (ret a).
Proof. intros s. discriminate. Qed.

Lemma ends_fault {A : Type} : ends (fun _ : dstate => @Fault (A * dstate)).
Proof. intros s. discriminate. Qed.

Lemma ends_bind {A B : Type} (m : M A) (k : A -> M B) :
  ends m -> (forall a, ends (k a)) -> ends (mbind m k).
Proof.
  intros Hm Hk s. unfold mbind.
  destruct (m s) as [[a s1]| |] eqn:E; [apply Hk|discriminate|].
  exfalso. exact (Hm s E).
Qed.

Lemma ends_read_buffer (w : Z) :
  ends (on_buffer (fun buffer => read_buffer buffer w)).
Proof.
  intros s. unfold on_buffer.
  destruct (read_buffer (buf s) w) as [[x b]| |] eqn:E; try discriminate.
  exfalso. exact (read_buffer_not_OutOfFuel _ _ E).
Qed.

Lemma ends_json_new (v : json) : ends (json_new v).
Proof. intros s. unfold json_new. destruct (alloc (heap s)). discriminate. Qed.

Lemma ends_jsonp_malloc : ends jsonp_malloc.
Proof. intros s. unfold jsonp_malloc. destruct (alloc (heap s)). discriminate. Qed.

Lemma ends_read_number (w : Z) : ends (read_number w).
Proof.
  unfold read_number. apply ends_bind; [apply ends_read_buffer|intros; apply ends_ret].
Qed.

Lemma ends_read_uvarint : ends read_uvarint.
Proof.
  unfold read_uvarint. apply ends_bind; [apply ends_read_number|]. intros flag.
  repeat match goal with
         | |- ends (if ?c then _ else _) => destruct c
         end;
    first [apply ends_ret
          | apply ends_bind; [apply ends_read_number|intros; apply ends_ret]].
Qed.

Lemma ends_read_raw_string : ends read_raw_string.
Proof.
  unfold read_raw_string. apply ends_bind; [apply ends_read_uvarint|]. intros len.
  destruct (0 <? len); [|apply ends_ret].
  apply ends_bind; [apply ends_jsonp_malloc|]. intros [|]; [|apply ends_fault].
  apply ends_bind; [apply ends_read_buffer|]. intros bytes.
  destruct (in_block (1 * len) len 1); [apply ends_ret|apply ends_fault].
Qed.

Lemma ends_read_string : ends read_string.
Proof.
  unfold read_string. apply ends_bind; [apply ends_read_raw_string|].
  intros raw. unfold json_string.
  destruct (utf8_check (c_string raw)); [apply ends_json_new|apply ends_ret].
Qed.

Lemma ends_read_bytes : ends read_bytes.
Proof.
  unfold read_bytes. apply ends_bind; [apply ends_read_uvarint|]. intros len.
  apply ends_bind; [apply ends_jsonp_malloc|]. intros block.
  destruct (block || (len =? 0)); [|apply ends_fault].
  apply ends_bind; [apply ends_read_buffer|intros; apply ends_json_new].
Qed.

Lemma ends_read_data_type : ends read_data_type.
Proof.
  unfold read_data_type. apply ends_bind; [apply ends_read_number|].
  intros type. destruct (15 <? type); apply ends_ret.
Qed.

Lemma read_array_loop_total (read_child : M json_ptr) (bound : nat) :
  (forall s, (remaining (buf s) < bound)%nat -> read_child s <> OutOfFuel) ->
  (forall s v s', read_child s = Ret (v, s') ->
                  (remaining (buf s') < remaining (buf s))%nat) ->
  forall fuel i len array s,
    (remaining (buf s) < fuel)%nat -> (remaining (buf s) < bound)%nat ->
    read_array_loop read_child fuel i len array s <> OutOfFuel.
Proof.
  intros Htot Hprog fuel. induction fuel as [|fuel IH]; intros i len array s Hf Hb; [lia|].
  cbn [read_array_loop]. destruct (i <? len); [|discriminate].
  destruct (read_child s) as [[[entry|] s1]| |] eqn:E;
    [|discriminate|discriminate|exfalso; exact (Htot s Hb E)].
  pose proof (Hprog _ _ _ E). apply IH; lia.
Qed.

Lemma read_obj_loop_total (read_child : M json_ptr) (bound : nat) :
  (forall s, (remaining (buf s) < bound)%nat -> read_child s <> OutOfFuel) ->
  (forall s v s', read_child s = Ret (v, s') ->
                  (remaining (buf s') < remaining (buf s))%nat) ->
  forall fuel i len object s,
    (remaining (buf s) < fuel)%nat -> (remaining (buf s) < bound)%nat ->
    read_obj_loop read_child fuel i len object s <> OutOfFuel.
Proof.
  intros Htot Hprog fuel. induction fuel as [|fuel IH]; intros i len object s Hf Hb; [lia|].
  cbn [read_obj_loop]. destruct (i <? len); [|discriminate].
  destruct (read_raw_string s) as [[key s0]| |] eqn:Ek;
    [|discriminate|exfalso; exact (ends_read_raw_string s Ek)].
  destruct (forward_read_raw_string _ _ _ Ek) as [Hd0 Hp0].
  pose proof (steady_remaining _ _ Hd0 Hp0) as Hr0.
  destruct (read_child s0) as [[[entry|] s1]| |] eqn:E;
    [|discriminate|discriminate|exfalso; apply (Htot s0); [lia|exact E]].
  pose proof (Hprog _ _ _ E). apply IH; lia.
Qed.

(** With more fuel than bytes remain, [read_value] ends. *)
Lemma read_value_total (fuel : nat) (s : dstate) :
  (remaining (buf s) < fuel)%nat -> read_value fuel s <> OutOfFuel.
Proof.
  revert s. induction fuel as [|fuel IH]; intros s Hf; [lia|].
  cbn [read_value]. unfold mbind.
  destruct (read_data_type s) as [[data_type s1]| |] eqn:E;
    [|discriminate|exfalso; exact (ends_read_data_type s E)].
  destruct (read_data_type_progress _ _ _ E) as (Hd1 & Hp1 & Hr1).
  unfold read_data.
  destruct (enumerator data_type) as [t|]; [|discriminate].
  destruct t;
    unfold json_null, read_bool, read_int8, read_int16, read_int32, read_int64,
      read_uint8, read_uint16, read_uint32, read_uint64, read_real32, read_real64,
      json_integer, json_real, json_true, json_false;
    try discriminate;
    try (apply ends_bind; [apply ends_read_number|];
         intros number; try destruct (number =? 0);
         first [apply ends_ret | apply ends_json_new]).
  - apply ends_read_string.
  - apply ends_read_bytes.
  - unfold read_array, mbind.
    destruct (read_uvarint s1) as [[len s2]| |] eqn:Ev;
      [|discriminate|exfalso; exact (ends_read_uvarint s1 Ev)].
    destruct (forward_read_uvarint _ _ _ Ev) as [Hd2 Hp2].
    pose proof (steady_remaining _ _ Hd2 Hp2) as Hr2.
    destruct (json_array s2) as [[array s3]| |] eqn:Ea;
      [|discriminate|exfalso; exact (ends_json_new _ s2 Ea)].
    destruct (forward_json_new _ _ _ _ Ea) as [Hd3 Hp3].
    pose proof (steady_remaining _ _ Hd3 Hp3) as Hr3.
    apply (read_array_loop_total _ fuel IH (read_value_progress fuel)); lia.
  - unfold read_obj, mbind.
    destruct (read_uvarint s1) as [[len s2]| |] eqn:Ev;
      [|discriminate|exfalso; exact (ends_read_uvarint s1 Ev)].
    destruct (forward_read_uvarint _ _ _ Ev) as [Hd2 Hp2].
    pose proof (steady_remaining _ _ Hd2 Hp2) as Hr2.
    destruct (json_object s2) as [[object s3]| |] eqn:Ea;
      [|discriminate|exfalso; exact (ends_json_new _ s2 Ea)].
    destruct (forward_json_new _ _ _ _ Ea) as [Hd3 Hp3].
    pose proof (steady_remaining _ _ Hd3 Hp3) as Hr3.
    apply (read_obj_loop_total _ fuel IH (read_value_progress fuel)); lia.
Qed.

Lemma read_array_loop_extends (child child' : M json_ptr) :
  extends child child' ->
  forall fuel fuel' i len array s,
    (fuel <= fuel')%nat ->
    read_array_loop child fuel i len array s <> OutOfFuel ->
    read_array_loop child' fuel' i len array s = read_array_loop child fuel i len array s.
Proof.
  intros Href fuel. induction fuel as [|fuel IH]; intros fuel' i len array s Hle;
    destruct fuel' as [|fuel']; try lia; cbn [read_array_loop];
    destruct (i <? len); try reflexivity; try congruence.
  intros H.
  assert (Hs : child s <> OutOfFuel) by (intros E; rewrite E in H; apply H; reflexivity).
  rewrite (Href s Hs).
  destruct (child s) as [[[entry|] s1]| |]; try reflexivity.
  apply IH; [lia|exact H].
Qed.

Lemma read_obj_loop_extends (child child' : M json_ptr) :
  extends child child' ->
  forall fuel fuel' i len object s,
    (fuel <= fuel')%nat ->
    read_obj_loop child fuel i len object s <> OutOfFuel ->
    read_obj_loop child' fuel' i len object s = read_obj_loop child fuel i len object s.
Proof.
  intros Href fuel. induction fuel as [|fuel IH]; intros fuel' i len object s Hle;
    destruct fuel' as [|fuel']; try lia; cbn [read_obj_loop];
    destruct (i <? len); try reflexivity; try congruence.
  intros H.
  destruct (read_raw_string s) as [[key s0]| |]; try reflexivity.
  assert (Hs : child s0 <> OutOfFuel) by (intros E; rewrite E in H; apply H; reflexivity).
  rewrite (Href s0 Hs).
  destruct (child s0) as [[[entry|] s1]| |]; try reflexivity.
  apply IH; [lia|exact H].
Qed.

Lemma read_value_extends (fuel fuel' : nat) :
  (fuel <= fuel')%nat -> extends (read_value fuel) (read_value fuel').
Proof.
  revert fuel'. induction fuel as [|fuel IH]; intros fuel' Hle s H;
    [exfalso; apply H; reflexivity|].
  destruct fuel' as [|fuel']; [lia|].
  assert (Href : extends (read_value fuel) (read_value fuel')) by (apply IH; lia).
  cbn [read_value] in *. unfold mbind in *.
  destruct (read_data_type s) as [[data_type s1]| |]; try reflexivity.
  unfold read_data in *.
  destruct (enumerator data_type) as [[]|]; try reflexivity.
  - unfold read_array, mbind in *.
    destruct (read_uvarint s1) as [[len s2]| |]; try reflexivity.
    destruct (json_array s2) as [[array s3]| |]; try reflexivity.
    apply (read_array_loop_extends _ _ Href); [lia|exact H].
  - unfold read_obj, mbind in *.
    destruct (read_uvarint s1) as [[len s2]| |]; try reflexivity.
    destruct (json_object s2) as [[object s3]| |]; try reflexivity.
    apply (read_obj_loop_extends _ _ Href); [lia|exact H].
Qed.

(** X13. The decoder ends on every finite region.  Every call of
    [read_value] that returns, NULL included, has consumed at least its tag
    byte, and no step moves the cursor back; so with more fuel than bytes
    remain ahead of the cursor [read_value] ends, with a value, NULL or a read
    outside the region, further fuel changes nothing, and [bos_deserialize]
    never runs out of fuel, whatever counts the region declares. *)
Theorem deserialize_terminates :
  forall (fuel : nat) (s : dstate),
    (remaining (buf s) < fuel)%nat ->
    read_value fuel s <> OutOfFuel /\
    (forall fuel', (fuel <= fuel')%nat -> read_value fuel' s = read_value fuel s) /\
    (forall v s', read_value fuel s = Ret (v, s') ->
                  data (buf s') = data (buf s) /\
                  (remaining (buf s') < remaining (buf s))%nat) /\
    (forall region heap, bos_deserialize region heap <> OutOfFuel).
Proof.
  intros fuel s Hf.
  pose proof (read_value_total fuel s Hf) as Htot.
  split; [exact Htot|]. split; [|split].
  - intros fuel' Hle. apply (read_value_extends fuel fuel' Hle s Htot).
  - intros v s' H. split.
    + apply (forward_read_value fuel _ _ _ H).
    + apply (read_value_progress fuel _ _ _ H).
  - intros region heap. unfold bos_deserialize.
    destruct (buffer_init region) as [b| |] eqn:Hb; cbn [bind]; [|discriminate|].
    + destruct (size b <? 5); [discriminate|].
      apply buffer_init_Ret in Hb. destruct Hb as (Hd & Hp & _).
      set (s0 := {| buf := b; heap := heap; error := None |}).
      assert (Hrem : (remaining (buf s0) < S (length region))%nat)
        by (unfold remaining; cbn [s0 buf]; rewrite Hd, Hp; lia).
      pose proof (read_value_total _ s0 Hrem) as H0.
      destruct (read_value (S (length region)) s0) as [[v s1]| |]; cbn [bind];
        [discriminate|discriminate|exfalso; apply H0; reflexivity].
    + exfalso. unfold buffer_init in Hb.
      destruct (read_buffer _ 4) as [[? ?]| |] eqn:R; cbn [bind] in Hb;
        [discriminate|discriminate|exact (read_buffer_not_OutOfFuel _ _ R)].
Qed.

(** ** A payload block that cannot be allocated *)

Lemma jsonp_malloc_refused (s : dstate) (heap' : heap_t) :
  heap s = false :: heap' ->
  jsonp_malloc s = Ret (false, {| buf := buf s; heap := heap'; error := error s |}).
Proof. intros Hh. unfold jsonp_malloc. rewrite Hh. reflexivity. Qed.

Lemma read_raw_string_refused (s : dstate) (pre rest payload : list byte)
    (heap' : heap_t) :
  cursor_at (buf s) pre (encode_key payload ++ rest) ->
  payload <> [] -> Z.of_nat (length payload) < 2 ^ 64 ->
  heap s = false :: heap' ->
  read_raw_string s = Fault.
Proof.
  unfold encode_key. intros Hc Hne Hlen Hh. rewrite <- app_assoc in Hc.
  assert (Hpos : 0 < Z.of_nat (length payload))
    by (destruct payload; [congruence|cbn [length]; lia]).
  unfold read_raw_string. unfold mbind at 1.
  rewrite (read_uvarint_encode s pre _ _ Hc) by lia.
  replace (0 <? Z.of_nat (length payload)) with true by (symmetry; apply Z.ltb_lt; lia).
  unfold mbind at 1.
  rewrite (jsonp_malloc_refused _ heap') by exact Hh. reflexivity.
Qed.

Lemma read_bytes_refused (s : dstate) (pre rest payload : list byte)
    (heap' : heap_t) :
  cursor_at (buf s) pre (encode_key payload ++ rest) ->
  payload <> [] -> Z.of_nat (length payload) < 2 ^ 64 ->
  heap s = false :: heap' ->
  read_bytes s = Fault.
Proof.
  unfold encode_key. intros Hc Hne Hlen Hh. rewrite <- app_assoc in Hc.
  assert (Hpos : 0 < Z.of_nat (length payload))
    by (destruct payload; [congruence|cbn [length]; lia]).
  unfold read_bytes. unfold mbind at 1.
  rewrite (read_uvarint_encode s pre _ _ Hc) by lia.
  unfold mbind at 1.
  rewrite (jsonp_malloc_refused _ heap') by exact Hh.
  replace (Z.of_nat (length payload) =? 0) with false by (symmetry; apply Z.eqb_neq; lia).
  reflexivity.
Qed.

(** X14. [read_raw_string] and [read_bytes] do not test what [jsonp_malloc]
    returns: when the block of a non-empty string, bytes payload or object
    key cannot be allocated, the payload is copied through the NULL pointer
    instead of NULL being returned, whatever fuel and whatever later
    allocations would give; [bos_deserialize] of such a framed string or
    bytes value, and of an object with such a key, faults. *)
Theorem payload_allocation_unchecked :
  forall (payload : list byte) (heap' : heap_t),
    payload <> [] ->
    Z.of_nat (length payload) + 14 < 2 ^ 32 ->
    (forall fuel s pre rest,
        heap s = false :: heap' ->
        (cursor_at (buf s) pre (encode (WString payload) ++ rest) \/
         cursor_at (buf s) pre (encode (WBytes payload) ++ rest)) ->
        read_value (S fuel) s = Fault) /\
    bos_deserialize (frame (WString payload)) (false :: heap') = Fault /\
    bos_deserialize (frame (WBytes payload)) (false :: heap') = Fault /\
    (forall v, 4 + Z.of_nat (length (encode (WObject [(payload, v)]))) < 2 ^ 32 ->
               bos_deserialize (frame (WObject [(payload, v)])) (true :: false :: heap')
               = Fault).
Proof.
  intros payload heap' Hne Hlen.
  assert (Hval : forall fuel s pre rest,
             heap s = false :: heap' ->
             (cursor_at (buf s) pre (encode (WString payload) ++ rest) \/
              cursor_at (buf s) pre (encode (WBytes payload) ++ rest)) ->
             read_value (S fuel) s = Fault).
  { intros fuel s pre rest Hh [Hc|Hc].
    - rewrite encode_string_eq in Hc.
      destruct (read_data_type_tag s pre _ rest BOS_STRING Hc) as [Ht Hc1].
      cbn [read_value]. unfold mbind at 1. rewrite Ht.
      unfold read_data. rewrite enumerator_tag_of.
      unfold read_string, mbind.
      rewrite (read_raw_string_refused _ _ _ _ heap' Hc1); [reflexivity|exact Hne|lia|exact Hh].
    - rewrite encode_bytes_eq in Hc.
      destruct (read_data_type_tag s pre _ rest BOS_BYTES Hc) as [Ht Hc1].
      cbn [read_value]. unfold mbind at 1. rewrite Ht.
      unfold read_data. rewrite enumerator_tag_of.
      rewrite (read_bytes_refused _ _ _ _ heap' Hc1); [reflexivity|exact Hne|lia|exact Hh]. }
  pose proof (length_encode_uvarint (Z.of_nat (length payload))) as Hlv.
  assert (Hframe : forall w hp,
             4 + Z.of_nat (length (encode w)) < 2 ^ 32 ->
             (forall fuel s, (1 <= fuel)%nat -> heap s = hp ->
                        cursor_at (buf s)
                          (le_bytes 4 (4 + Z.of_nat (length (encode w)))) (encode w ++ []) ->
                        read_value (S fuel) s = Fault) ->
             bos_deserialize (frame w) hp = Fault).
  { intros w hp Htot Hrd. destruct (frame_header w Htot) as (Hl & Hv & Hfr).
    pose proof (length_encode_pos w) as Hpos.
    unfold bos_deserialize, frame. rewrite (buffer_init_at _ _ Hl).
    cbn [bind size]. rewrite Hv.
    replace (4 + Z.of_nat (length (encode w)) <? 5) with false
      by (symmetry; apply Z.ltb_ge; lia).
    rewrite Hrd; [reflexivity|rewrite length_app; lia|reflexivity|].
    split; cbn [buf data pos]; [rewrite app_nil_r; reflexivity|rewrite Hl; reflexivity]. }
  split; [exact Hval|]. split; [|split].
  - apply Hframe.
    + rewrite encode_string_eq, length_app. unfold encode_key. rewrite length_app.
      cbn [length]. lia.
    + intros fuel s _ Hh Hc. exact (Hval fuel s _ [] Hh (or_introl Hc)).
  - apply Hframe.
    + rewrite encode_bytes_eq, length_app. unfold encode_key. rewrite length_app.
      cbn [length]. lia.
    + intros fuel s _ Hh Hc. exact (Hval fuel s _ [] Hh (or_intror Hc)).
  - intros v Htot. apply Hframe; [exact Htot|].
    intros fuel s Hfuel Hh Hc. rewrite encode_object_eq in Hc.
    destruct (read_data_type_tag s _ _ [] BOS_OBJ Hc) as [Ht Hc1].
    cbn [read_value]. unfold mbind at 1. rewrite Ht.
    unfold read_data. rewrite enumerator_tag_of.
    rewrite <- app_assoc in Hc1.
    unfold read_obj. unfold mbind at 1.
    rewrite (read_uvarint_encode (advance_s s 1) _ _ _ Hc1) by (cbn [length Z.of_nat]; lia).
    apply (cursor_at_advance (buf (advance_s s 1))) in Hc1.
    unfold mbind at 1. unfold json_object, json_new.
    cbn [advance_s heap buf error] in *. rewrite Hh. cbn [alloc].
    destruct fuel as [|fuel]; [lia|]. cbn [read_obj_loop length Z.of_nat].
    change (0 <? Z.pos (Pos.of_succ_nat 0)) with true. cbn match.
    unfold encode_entry in Hc1. cbn [map concat fst snd] in Hc1.
    destruct Hc1 as [Hd1 Hp1].
    erewrite (read_raw_string_refused _ _ (encode v ++ []) payload heap');
      [reflexivity|split; [|exact Hp1]|exact Hne|lia|reflexivity].
    cbn [buf]. cbn [advance data] in Hd1 |- *. rewrite Hd1, <- !app_assoc. reflexivity.
Qed.

(** ** A region that ends inside the value *)












(** ** Values that need no allocation *)

(** X16. [read_bool] tests the payload byte against 0 only: the byte 0 is
    decoded to false and every other byte to true, and the validator accepts
    any byte.  Null and the booleans are decoded without an allocation, so
    they are returned whatever the allocator does. *)
Theorem bool_payload_any_nonzero :
  forall (b : byte) (heap : heap_t),
    bos_validate (Some (frame (WFixed BOS_BOOL [b]))) 6 = Ret TRUE /\
    bos_deserialize (frame (WFixed BOS_BOOL [b])) heap
    = Ret (Some (if Byte.eqb b x00 then JFalse else JTrue), None) /\
    bos_deserialize (frame (WFixed BOS_NULL [])) heap = Ret (Some JNull, None).
Proof.
  intros b heap. split; [|split].
  - destruct b; reflexivity.
  - destruct b; reflexivity.
  - reflexivity.
Qed.

(** ** The further properties at concrete inputs *)

(** X1 at [plain_sample] followed by two bytes. *)
Lemma trailing_bytes_accepted_witness :
  well_formed plain_sample = true /\
  bos_validate (Some (envelope 12 (encode plain_sample ++ [x00; x01]))) 12 = Ret TRUE /\
  bos_deserialize (envelope 12 (encode plain_sample ++ [x00; x01])) []
  = Ret (Some (JArray [JString []; JInteger (-1)]), None).
Proof.
  assert (Hwf : well_formed plain_sample = true) by reflexivity.
  assert (Hsz : 4 + Z.of_nat (length (encode plain_sample))
                + Z.of_nat (length [x00; x01]) < 2 ^ 32) by (cbn; lia).
  split; [exact Hwf|].
  destruct (trailing_bytes_accepted plain_sample [x00; x01] Hwf Hsz) as (_ & Hv & Hd & _).
  split; [exact Hv|exact Hd].
Defined.

(** X2 at the frame of [sample_wire]. *)
Lemma bos_sizeof_of_validated_witness :
  bos_validate (Some (frame sample_wire)) 12 = Ret TRUE /\
  exists n, bos_sizeof (Some (frame sample_wire)) = Ret n /\ 5 <= n <= 12 /\ n < 2 ^ 32.
Proof.
  assert (Hv : bos_validate (Some (frame sample_wire)) 12 = Ret TRUE) by reflexivity.
  split; [exact Hv|].
  exact (proj1 (bos_sizeof_of_validated (Some (frame sample_wire)) 12 Hv)).
Defined.

(** X3 at 253, the first value of the 3-byte form. *)
Lemma uvarint_round_trip_witness :
  0 <= 253 < 2 ^ 64 /\
  read_uvarint varint_state = Ret (253, advance_s varint_state 3).
Proof.
  assert (Hn : 0 <= 253 < 2 ^ 64) by lia.
  assert (Hc : cursor_at (buf varint_state) [] (encode_uvarint 253 ++ []))
    by (split; reflexivity).
  split; [exact Hn|].
  exact (proj1 (uvarint_round_trip 253 varint_state [] [] Hn Hc)).
Defined.

(** X4 at 5 in the 3-byte form. *)
Lemma uvarint_wider_forms_accepted_witness :
  0 <= 5 < 256 ^ Z.of_nat 2 /\
  read_uvarint wide_varint_state = Ret (5, advance_s wide_varint_state 3).
Proof.
  assert (Hn : 0 <= 5 < 256 ^ Z.of_nat 2) by (cbn; lia).
  assert (Hc : cursor_at (buf wide_varint_state) [] ((xfd :: le_bytes 2 5) ++ []))
    by (split; reflexivity).
  split; [exact Hn|].
  exact (proj1 (uvarint_wider_forms_accepted 5 xfd 2 wide_varint_state [] []
                  (or_introl (conj eq_refl eq_refl)) Hn Hc)).
Defined.

(** X5 at the 8-bit integer -1. *)
Lemma integer_round_trip_witness :
  -128 <= -1 <= 127 /\
  bos_validate (Some [x06; x00; x00; x00; x02; xff]) 6 = Ret TRUE /\
  bos_deserialize [x06; x00; x00; x00; x02; xff] [] = Ret (Some (JInteger (-1)), None).
Proof.
  assert (Hr : -128 <= -1 <= 127) by lia.
  split; [exact Hr|].
  exact (integer_round_trip BOS_INT8 1 (-128) 127 (-1) eq_refl Hr).
Defined.

(** X6 at the largest unsigned 64-bit integer. *)
Lemma uint64_folds_into_signed_witness :
  2 ^ 63 <= 2 ^ 64 - 1 < 2 ^ 64 /\
  bos_deserialize
    [x0d; x00; x00; x00; x09; xff; xff; xff; xff; xff; xff; xff; xff] []
  = Ret (Some (JInteger (-1)), None).
Proof.
  assert (Hr : 2 ^ 63 <= 2 ^ 64 - 1 < 2 ^ 64) by lia.
  split; [exact Hr|].
  exact (proj1 (uint64_folds_into_signed (2 ^ 64 - 1) Hr)).
Defined.

(** X8 at a header of 4. *)
Lemma deserialize_error_object_witness :
  bos_deserialize [x04; x00; x00; x00] []
  = Ret (None, Some (json_error_invalid_format, "size too small to be valid"%string)).
Proof.
  refine (proj1 (deserialize_error_object [x04; x00; x00; x00] [] _) _).
  - cbn. lia.
  - cbn. lia.
Defined.

(** X9 at an array of one Null. *)
Lemma accepted_count_bounded_witness :
  validate_uvarint count_buffer
  = Ret (Some 1, {| data := [x01; x00]; pos := 1; read := 1; size := 2 |}) /\
  validate_array (validate_value 1) 1 count_buffer
  = Ret (TRUE, {| data := [x01; x00]; pos := 2; read := 2; size := 2 |}) /\
  1 <= Z.of_nat (remaining {| data := [x01; x00]; pos := 1; read := 1; size := 2 |}).
Proof.
  assert (Hn : validate_uvarint count_buffer
               = Ret (Some 1, {| data := [x01; x00]; pos := 1; read := 1; size := 2 |}))
    by reflexivity.
  assert (Ha : validate_array (validate_value 1) 1 count_buffer
               = Ret (TRUE, {| data := [x01; x00]; pos := 2; read := 2; size := 2 |}))
    by reflexivity.
  split; [exact Hn|]. split; [exact Ha|].
  exact (proj1 (accepted_count_bounded 1 1 count_buffer 1 _ _ Hn (or_introl Ha))).
Defined.

(** X10 at the count [2^32]. *)
Lemma huge_count_never_decodes_witness :
  read_uvarint huge_count_state = Ret (2 ^ 32, advance_s huge_count_state 9) /\
  forall v s',
    read_array (read_value 1) 1 huge_count_state <> Ret (Some v, s') /\
    read_obj (read_value 1) 1 huge_count_state <> Ret (Some v, s').
Proof.
  assert (Hr : read_uvarint huge_count_state = Ret (2 ^ 32, advance_s huge_count_state 9))
    by reflexivity.
  split; [exact Hr|].
  apply (huge_count_never_decodes (read_value 1) 1 huge_count_state _ _ Hr). lia.
Defined.

(** X11 at an array of one Null. *)
Lemma container_allocation_failure_witness :
  read_value 3 refused_array_state
  = Ret (None, {| buf := advance (buf refused_array_state) 3; heap := []; error := None |}) /\
  bos_deserialize (frame (WArray [WFixed BOS_NULL []])) [false] = Ret (None, None).
Proof.
  assert (Hc : cursor_at (buf refused_array_state) []
                 (encode (WArray [WFixed BOS_NULL []]) ++ []))
    by (split; reflexivity).
  destruct (container_allocation_failure (WArray [WFixed BOS_NULL []]) 3
              refused_array_state [] [] eq_refl eq_refl eq_refl Hc eq_refl
              ltac:(cbn; lia) ltac:(cbn; lia) ltac:(cbn; lia)) as [H1 H2].
  split; [exact H1|]. apply H2. cbn. lia.
Defined.

(** X12 at [plain_sample] under a header of 5. *)
Lemma declared_size_too_small_witness :
  5 < 4 + Z.of_nat (length (encode plain_sample)) /\
  bos_validate (Some (envelope 5 (encode plain_sample ++ []))) 10 = Ret FALSE /\
  bos_deserialize (envelope 5 (encode plain_sample ++ [])) []
  = Ret (Some (JArray [JString []; JInteger (-1)]), None).
Proof.
  assert (Hh : 5 < 4 + Z.of_nat (length (encode plain_sample))) by (cbn; lia).
  split; [exact Hh|].
  exact (declared_size_too_small plain_sample 5 10 [] eq_refl ltac:(lia) Hh
           ltac:(cbn; lia)).
Defined.

(** X13 at a 2-byte region. *)
Lemma deserialize_terminates_witness :
  (remaining (buf failing_child_state) < 3)%nat /\
  read_value 3 failing_child_state <> OutOfFuel /\
  read_value 100 failing_child_state = read_value 3 failing_child_state.
Proof.
  assert (Hr : (remaining (buf failing_child_state) < 3)%nat) by (cbn; lia).
  split; [exact Hr|].
  destruct (deserialize_terminates 3 failing_child_state Hr) as (H1 & H2 & _).
  split; [exact H1|]. apply H2. lia.
Defined.

(** X14 at the string "a". *)
Lemma payload_allocation_unchecked_witness :
  bos_deserialize (frame (WString [x61])) [false] = Fault /\
  bos_deserialize (frame (WBytes [x61])) [false] = Fault.
Proof.
  destruct (payload_allocation_unchecked [x61] [] ltac:(discriminate) ltac:(cbn; lia))
    as (_ & Hs & Hb & _).
  split; [exact Hs|exact Hb].
Defined.

